(** * AI inference platform: worker, orchestrator, gateway and model store

    A shallow embedding of the JavaScript services of the repository and the
    properties established about them.

    Conventions.
    - A JS [Map] is a [gmap]; a JS [Set] whose iteration order is visible to
      callers is a duplicate-free list in insertion order, otherwise a [gset].
    - An [async] method is cut at its [await]s into atomic segments.  A call
      runs its first segment and either settles or parks a continuation; the
      continuation runs when the awaited collaborator settles.  Node runs one
      segment at a time, so an interleaving is a list of events.
    - Integer-valued JS numbers (counters, millisecond clocks) are [Z];
      the load balancer's ratios are exact rationals [Q].

    Part I holds the embedding, Part II the theorems. *)

From Stdlib Require Import ZArith QArith Qminmax Qround Lia Lqa Strings.Byte.
From stdpp Require Import gmap strings list fin_maps.

(* ===================================================================== *)
(** * Part I: the embedding                                                *)
(* ===================================================================== *)

(** A settled promise of a collaborator. *)
Inductive settled (A : Type) : Type :=
| Fulfilled (a : A)
| Rejected (msg : string).
Arguments Fulfilled {A} a.
Arguments Rejected {A} msg.

(** ** Inference worker
    [wrk-ai-inference/workers/ai.inference.wrk.js] (class [WrkAiInference])
    and the standalone [AIInferenceService]. *)
Module InferenceWorker.
Local Open Scope Z_scope.

(** What [ModelManager.loadModel] resolves to: always an object, hence
    truthy (see [createMockModel]). *)
Record Model := {
  model_id : string;
  model_type : string;
  model_version : string
}.

(** [this.capacity] *)
Record Capacity := {
  maxConcurrent : Z;
  currentLoad : Z;
  availableModels : gset string
}.

Record Worker := {
  capacity : Capacity;
  modelCache : gmap string Model
}.

(** [conf.maxConcurrentInferences || 10] *)
Definition maxConcurrent_of_conf (c : option Z) : Z :=
  match c with
  | Some n => if n =? 0 then 10 else n
  | None => 10
  end.

(** The constructor. *)
Definition new_worker (maxConcurrentInferences : option Z) : Worker :=
  {| capacity := {| maxConcurrent := maxConcurrent_of_conf maxConcurrentInferences;
                    currentLoad := 0;
                    availableModels := ∅ |};
     modelCache := ∅ |}.

Definition set_load (w : Worker) (n : Z) : Worker :=
  {| capacity := {| maxConcurrent := maxConcurrent (capacity w);
                    currentLoad := n;
                    availableModels := availableModels (capacity w) |};
     modelCache := modelCache w |}.

(** [this.capacity.currentLoad++] and [this.capacity.currentLoad--] *)
Definition load_incr (w : Worker) : Worker := set_load w (currentLoad (capacity w) + 1).
Definition load_decr (w : Worker) : Worker := set_load w (currentLoad (capacity w) - 1).

(** [this.modelCache.set(modelId, model)] *)
Definition cache_set (w : Worker) (modelId : string) (model : Model) : Worker :=
  {| capacity := capacity w; modelCache := <[modelId := model]> (modelCache w) |}.

(** [this.modelCache.delete(modelId)] *)
Definition cache_delete (w : Worker) (modelId : string) : Worker :=
  {| capacity := capacity w; modelCache := delete modelId (modelCache w) |}.

Definition set_available (w : Worker) (s : gset string) : Worker :=
  {| capacity := {| maxConcurrent := maxConcurrent (capacity w);
                    currentLoad := currentLoad (capacity w);
                    availableModels := s |};
     modelCache := modelCache w |}.

(** [this.capacity.availableModels.add(modelId)] / [.delete(modelId)] *)
Definition available_add (w : Worker) (modelId : string) : Worker :=
  set_available w ({[modelId]} ∪ availableModels (capacity w)).
Definition available_delete (w : Worker) (modelId : string) : Worker :=
  set_available w (availableModels (capacity w) ∖ {[modelId]}).

(** [this.capacity.availableModels.has(modelId)] / [this.modelCache.has(modelId)] *)
Definition available_has (w : Worker) (modelId : string) : bool :=
  bool_decide (modelId ∈ availableModels (capacity w)).
Definition cache_has (w : Worker) (modelId : string) : bool :=
  bool_decide (is_Some (modelCache w !! modelId)).

(** Errors a call can end with.  The worker's own two throw sites are kept
    apart from whatever a collaborator ([ModelManager], [InferenceEngine])
    rejects with, which the worker only re-throws. *)
Inductive error :=
| ERR_CAPACITY_EXCEEDED
| ERR_MODEL_NOT_AVAILABLE
| FromCollaborator (msg : string).

(** What the inference engine resolves to (its envelope, abridged). *)
Record EngineResult := { inferenceId : string; processingTime : Z }.

(** Values a call resolves to. *)
Inductive reply :=
| InferenceEnvelope (modelId : string) (result : EngineResult)
| Message (text : string).

(** The [await] points at which a call can be parked. *)
Inductive task :=
| LoadAwaitsManager (modelId : string)   (* loadModel:    await modelManager.loadModel *)
| RunAwaitsManager (modelId : string)    (* runInference: await modelManager.loadModel *)
| RunAwaitsEngine (modelId : string).    (* runInference: await inferenceEngine.runInference *)

(** How an atomic segment ends. *)
Inductive outcome :=
| Returned (r : reply)
| Thrown (e : error)
| Awaiting (t : task).

(** After the cache lookup of [runInference]: a hit goes on to the engine,
    a miss first awaits the model manager. *)
Definition lookup_model (w : Worker) (modelId : string) : Worker * outcome :=
  match modelCache w !! modelId with
  | Some _ => (w, Awaiting (RunAwaitsEngine modelId))
  | None => (w, Awaiting (RunAwaitsManager modelId))
  end.

(** *** [WrkAiInference.runInference]: one [try] around everything, whose
    [catch] decrements the counter and re-throws. *)
Module Wrk.

Definition catch_decrement (r : Worker * outcome) : Worker * outcome :=
  match r with
  | (w, Thrown e) => (load_decr w, Thrown e)
  | _ => r
  end.

(** From entry to the first [await]. *)
Definition runInference (w : Worker) (modelId : string) : Worker * outcome :=
  catch_decrement
    (if maxConcurrent (capacity w) <=? currentLoad (capacity w)
     then (w, Thrown ERR_CAPACITY_EXCEEDED)
     else if negb (available_has w modelId)
     then (w, Thrown ERR_MODEL_NOT_AVAILABLE)
     else lookup_model (load_incr w) modelId).

(** Resumption after [await this.modelManager.loadModel(modelId)]. *)
Definition runInference_loaded (w : Worker) (modelId : string) (r : settled Model)
  : Worker * outcome :=
  catch_decrement
    match r with
    | Fulfilled model => (cache_set w modelId model, Awaiting (RunAwaitsEngine modelId))
    | Rejected msg => (w, Thrown (FromCollaborator msg))
    end.

(** Resumption after [await this.inferenceEngine.runInference(...)]. *)
Definition runInference_inferred (w : Worker) (modelId : string) (r : settled EngineResult)
  : Worker * outcome :=
  catch_decrement
    match r with
    | Fulfilled result => (load_decr w, Returned (InferenceEnvelope modelId result))
    | Rejected msg => (w, Thrown (FromCollaborator msg))
    end.

End Wrk.

(** *** [AIInferenceService.runInference]: both checks throw before the
    increment; the [try ... finally] that decrements starts after it. *)
Module Service.

Definition finally_decrement (r : Worker * outcome) : Worker * outcome :=
  match r with
  | (w, Thrown e) => (load_decr w, Thrown e)
  | (w, Returned v) => (load_decr w, Returned v)
  | (w, Awaiting t) => (w, Awaiting t)
  end.

Definition runInference (w : Worker) (modelId : string) : Worker * outcome :=
  if maxConcurrent (capacity w) <=? currentLoad (capacity w)
  then (w, Thrown ERR_CAPACITY_EXCEEDED)
  else if negb (available_has w modelId)
  then (w, Thrown ERR_MODEL_NOT_AVAILABLE)
  else finally_decrement (lookup_model (load_incr w) modelId).

Definition runInference_loaded (w : Worker) (modelId : string) (r : settled Model)
  : Worker * outcome :=
  finally_decrement
    match r with
    | Fulfilled model => (cache_set w modelId model, Awaiting (RunAwaitsEngine modelId))
    | Rejected msg => (w, Thrown (FromCollaborator msg))
    end.

Definition runInference_inferred (w : Worker) (modelId : string) (r : settled EngineResult)
  : Worker * outcome :=
  finally_decrement
    match r with
    | Fulfilled result => (w, Returned (InferenceEnvelope modelId result))
    | Rejected msg => (w, Thrown (FromCollaborator msg))
    end.

End Service.

(** *** [loadModel], [unloadModel], [checkCapacity] (the same text in both
    classes, [unloadModel] and [checkCapacity] only in [WrkAiInference]). *)

Definition loadModel (w : Worker) (modelId : string) : Worker * outcome :=
  if cache_has w modelId
  then (w, Returned (Message "Model already loaded"))
  else (w, Awaiting (LoadAwaitsManager modelId)).

Definition loadModel_loaded (w : Worker) (modelId : string) (r : settled Model)
  : Worker * outcome :=
  match r with
  | Fulfilled model =>
      (available_add (cache_set w modelId model) modelId,
       Returned (Message "Model loaded successfully"))
  | Rejected msg => (w, Thrown (FromCollaborator msg))
  end.

Definition unloadModel (w : Worker) (modelId : string) : Worker * outcome :=
  if cache_has w modelId
  then (available_delete (cache_delete w modelId) modelId,
        Returned (Message "Model unloaded successfully"))
  else (w, Returned (Message "Model not loaded")).

(** The answer of [checkCapacity]; the two model flags are only set when a
    truthy [modelId] is passed. *)
Record CapacityReport := {
  rep_maxConcurrent : Z;
  rep_currentLoad : Z;
  rep_available : bool;
  rep_modelAvailable : option bool;
  rep_modelLoaded : option bool
}.

Definition truthy_string (s : string) : bool := negb (String.eqb s EmptyString).

Definition checkCapacity (w : Worker) (modelId : option string) : CapacityReport :=
  let flag (f : Worker → string → bool) :=
    match modelId with
    | Some m => if truthy_string m then Some (f w m) else None
    | None => None
    end in
  {| rep_maxConcurrent := maxConcurrent (capacity w);
     rep_currentLoad := currentLoad (capacity w);
     rep_available := currentLoad (capacity w) <? maxConcurrent (capacity w);
     rep_modelAvailable := flag available_has;
     rep_modelLoaded := flag cache_has |}.

(** *** The event loop *)

Record System := {
  worker : Worker;
  pending : list task
}.

Inductive event :=
| CallRunInference (modelId : string)
| CallLoadModel (modelId : string)
| CallUnloadModel (modelId : string)
| ManagerSettles (i : nat) (r : settled Model)
| EngineSettles (i : nat) (r : settled EngineResult).

(** The two classes differ in [runInference] only. *)
Record RunInferenceImpl := {
  run_enter : Worker → string → Worker * outcome;
  run_loaded : Worker → string → settled Model → Worker * outcome;
  run_inferred : Worker → string → settled EngineResult → Worker * outcome
}.

Definition wrk_impl : RunInferenceImpl :=
  {| run_enter := Wrk.runInference;
     run_loaded := Wrk.runInference_loaded;
     run_inferred := Wrk.runInference_inferred |}.

Definition service_impl : RunInferenceImpl :=
  {| run_enter := Service.runInference;
     run_loaded := Service.runInference_loaded;
     run_inferred := Service.runInference_inferred |}.

(** Install the result of a segment: a parked continuation joins the list. *)
Definition park (rest : list task) (r : Worker * outcome) : System :=
  match r with
  | (w, Awaiting t) => {| worker := w; pending := rest ++ [t] |}
  | (w, _) => {| worker := w; pending := rest |}
  end.

Definition step (impl : RunInferenceImpl) (s : System) (ev : event) : System :=
  match ev with
  | CallRunInference m => park (pending s) (run_enter impl (worker s) m)
  | CallLoadModel m => park (pending s) (loadModel (worker s) m)
  | CallUnloadModel m => park (pending s) (unloadModel (worker s) m)
  | ManagerSettles i r =>
      match pending s !! i with
      | Some (LoadAwaitsManager m) =>
          park (delete i (pending s)) (loadModel_loaded (worker s) m r)
      | Some (RunAwaitsManager m) =>
          park (delete i (pending s)) (run_loaded impl (worker s) m r)
      | _ => s
      end
  | EngineSettles i r =>
      match pending s !! i with
      | Some (RunAwaitsEngine m) =>
          park (delete i (pending s)) (run_inferred impl (worker s) m r)
      | _ => s
      end
  end.

Definition run (impl : RunInferenceImpl) (s : System) (evs : list event) : System :=
  fold_left (step impl) evs s.

Definition boot (maxConcurrentInferences : option Z) : System :=
  {| worker := new_worker maxConcurrentInferences; pending := [] |}.

(** The capacity invariant of the specification. *)
Definition capacity_safe (w : Worker) : Prop :=
  0 <= currentLoad (capacity w) <= maxConcurrent (capacity w).

(** Calls of [runInference] that hold a slot. *)
Definition holds_slot (t : task) : bool :=
  match t with
  | LoadAwaitsManager _ => false
  | RunAwaitsManager _ | RunAwaitsEngine _ => true
  end.

Definition slots_held (ts : list task) : Z :=
  Z.of_nat (length (filter (λ t, holds_slot t = true) ts)).

Definition is_run_awaiting_manager (t : task) : Prop :=
  match t with RunAwaitsManager _ => True | _ => False end.

(** The preloaded set is the key set of the cache. *)
Definition cache_consistent (w : Worker) : Prop :=
  availableModels (capacity w) = dom (modelCache w).

(** What the standalone service maintains: the counter is the number of
    parked [runInference] calls and stays within the limit. *)
Definition service_inv (s : System) : Prop :=
  currentLoad (capacity (worker s)) = slots_held (pending s)
  ∧ currentLoad (capacity (worker s)) <= maxConcurrent (capacity (worker s)).

(** What [WrkAiInference] maintains: cache and preloaded set agree, and no
    [runInference] call is parked on the model manager. *)
Definition wrk_cache_inv (s : System) : Prop :=
  cache_consistent (worker s)
  ∧ Forall (λ t, ¬ is_run_awaiting_manager t) (pending s).

(** Sample inputs. *)
Definition preloaded_model : Model :=
  {| model_id := "m1"; model_type := "onnx"; model_version := "1.0.0" |}.

(** One failing call on a fresh worker. *)
Definition one_rejected_call : list event := [CallRunInference "m1"].

(** [m1] is preloaded, one inference is admitted and stays in flight, a
    second is rejected for capacity, a third arrives. *)
Definition rejected_then_admitted : list event :=
  [CallLoadModel "m1"; ManagerSettles 0 (Fulfilled preloaded_model);
   CallRunInference "m1"; CallRunInference "m1"; CallRunInference "m1"].

End InferenceWorker.

(** ** Orchestrator
    [wrk-orchestrator]: [ServiceRegistry], [LoadBalancer], [HealthMonitor]
    and the two orchestrator classes that wire them together. *)
Module Orchestrator.
Local Open Scope Z_scope.

(** The [capabilities] field as a client posts it: missing, an array of
    tags, or an object that may carry a [models] array.  (An array has no
    [models] property and an object is not an array, so a worker is indexed
    by tag or by model, never both.) *)
Inductive capabilities :=
| NoCapabilities
| Tags (tags : list string)
| CapObject (models : option (list string)).

(** The [workerInfo] object built by [registerWorker] (without the
    [publicKey], which nothing below reads). *)
Record WorkerInfo := {
  id : string;
  address : string;
  caps : capabilities;
  registeredAt : Z;
  lastSeen : Z;
  status : string
}.

(** A JS [Set] of strings in insertion order. *)
Definition set_add (x : string) (s : list string) : list string :=
  if bool_decide (x ∈ s) then s else s ++ [x].
Definition set_delete (x : string) (s : list string) : list string :=
  filter (λ y, y ≠ x) s.

(** *** [ServiceRegistry] *)
Module ServiceRegistry.

Record t := {
  workers : gmap string WorkerInfo;
  modelIndex : gmap string (list string);
  capabilityIndex : gmap string (list string)
}.

Definition empty : t :=
  {| workers := ∅; modelIndex := ∅; capabilityIndex := ∅ |}.

(** [if (!index.has(key)) index.set(key, new Set()); index.get(key).add(id)] *)
Definition index_add (id : string) (index : gmap string (list string)) (key : string)
  : gmap string (list string) :=
  <[key := set_add id (default [] (index !! key))]> index.

(** [const set = index.get(key); if (set) { set.delete(id);
     if (set.size === 0) index.delete(key) }] *)
Definition index_remove (id : string) (index : gmap string (list string)) (key : string)
  : gmap string (list string) :=
  match index !! key with
  | Some set =>
      let set' := set_delete id set in
      if bool_decide (length set' = 0%nat) then delete key index
      else <[key := set']> index
  | None => index
  end.

(** The keys the two loops of [registerWorker] / [unregisterWorker] visit. *)
Definition capability_keys (c : capabilities) : list string :=
  match c with
  | Tags tags => tags
  | _ => []
  end.
Definition model_keys (c : capabilities) : list string :=
  match c with
  | CapObject (Some models) => models
  | _ => []
  end.

Definition registerWorker (r : t) (workerInfo : WorkerInfo) : t :=
  {| workers := <[id workerInfo := workerInfo]> (workers r);
     modelIndex :=
       foldl (index_add (id workerInfo)) (modelIndex r) (model_keys (caps workerInfo));
     capabilityIndex :=
       foldl (index_add (id workerInfo)) (capabilityIndex r)
             (capability_keys (caps workerInfo)) |}.

Definition unregisterWorker (r : t) (workerId : string) : t :=
  match workers r !! workerId with
  | None => r
  | Some worker =>
      {| workers := delete workerId (workers r);
         modelIndex :=
           foldl (index_remove workerId) (modelIndex r) (model_keys (caps worker));
         capabilityIndex :=
           foldl (index_remove workerId) (capabilityIndex r)
                 (capability_keys (caps worker)) |}
  end.

(** The loop shared by [getWorkersForModel] and [getWorkersByCapability]. *)
Definition active_workers (r : t) (workerIds : list string) : list WorkerInfo :=
  omap (λ workerId,
          match workers r !! workerId with
          | Some worker => if String.eqb (status worker) "active" then Some worker else None
          | None => None
          end) workerIds.

Definition getWorkersForModel (r : t) (modelId : string) : list WorkerInfo :=
  active_workers r (default [] (modelIndex r !! modelId)).

Definition getWorkersByCapability (r : t) (capability : string) : list WorkerInfo :=
  active_workers r (default [] (capabilityIndex r !! capability)).

(** No dangling entry: every id listed in an index is a key of [workers]. *)
Definition index_resolves (r : t) (index : gmap string (list string)) : Prop :=
  ∀ key ids workerId,
    index !! key = Some ids → workerId ∈ ids → is_Some (workers r !! workerId).

Definition index_consistent (r : t) : Prop :=
  index_resolves r (capabilityIndex r) ∧ index_resolves r (modelIndex r).

(** The stronger property the two loops are written for: an index lists a
    worker under a key only if the worker's current [capabilities] name it. *)
Definition index_exact (keys_of : capabilities → list string)
    (ws : gmap string WorkerInfo) (index : gmap string (list string)) : Prop :=
  ∀ key ids workerId,
    index !! key = Some ids → workerId ∈ ids →
    ∃ worker, ws !! workerId = Some worker ∧ key ∈ keys_of (caps worker).

Definition registry_exact (r : t) : Prop :=
  index_exact capability_keys (workers r) (capabilityIndex r)
  ∧ index_exact model_keys (workers r) (modelIndex r).

(** The [updates] object of [updateWorkerStatus], as far as it names
    fields of the [workerInfo]; [lastSeen] is always overwritten. *)
Record StatusUpdates := {
  new_id : option string;
  new_address : option string;
  new_caps : option capabilities;
  new_registeredAt : option Z;
  new_status : option string
}.

(** [Object.assign(worker, updates, { lastSeen: Date.now() })] *)
Definition assign_updates (worker : WorkerInfo) (updates : StatusUpdates) (now : Z)
  : WorkerInfo :=
  {| id := default (id worker) (new_id updates);
     address := default (address worker) (new_address updates);
     caps := default (caps worker) (new_caps updates);
     registeredAt := default (registeredAt worker) (new_registeredAt updates);
     lastSeen := now;
     status := default (status worker) (new_status updates) |}.

(** [updateWorkerStatus]; [None] is the [ERR_WORKER_NOT_FOUND] throw. *)
Definition updateWorkerStatus (r : t) (workerId : string) (updates : StatusUpdates) (now : Z)
  : option t :=
  match workers r !! workerId with
  | None => None
  | Some worker =>
      Some {| workers := <[workerId := assign_updates worker updates now]> (workers r);
              modelIndex := modelIndex r;
              capabilityIndex := capabilityIndex r |}
  end.

(** A status-only update. *)
Definition only_status (s : string) : StatusUpdates :=
  {| new_id := None; new_address := None; new_caps := None;
     new_registeredAt := None; new_status := Some s |}.

(** Every stored [workerInfo] sits under its own [id]. *)
Definition keyed_by_id (r : t) : Prop :=
  ∀ key worker, workers r !! key = Some worker → id worker = key.

End ServiceRegistry.

(** *** [LoadBalancer] *)
Module LoadBalancer.

Record WorkerStats := {
  requestCount : Z;
  totalProcessingTime : Q;
  averageProcessingTime : Q;
  successCount : Z;
  failureCount : Z;
  lastRequestTime : option Z;
  currentLoad : Z
}.

Record t := {
  strategy : string;
  workerStats : gmap string WorkerStats;
  roundRobinIndex : gmap string Z
}.

(** [conf.loadBalancingStrategy || 'round-robin'] *)
Definition create (loadBalancingStrategy : option string) : t :=
  {| strategy := match loadBalancingStrategy with
                 | Some s => if String.eqb s EmptyString then "round-robin" else s
                 | None => "round-robin"
                 end;
     workerStats := ∅;
     roundRobinIndex := ∅ |}.

Definition fresh_stats : WorkerStats :=
  {| requestCount := 0; totalProcessingTime := 0; averageProcessingTime := 0;
     successCount := 0; failureCount := 0; lastRequestTime := None; currentLoad := 0 |}.

Definition addWorker (lb : t) (worker : WorkerInfo) : t :=
  {| strategy := strategy lb;
     workerStats := <[id worker := fresh_stats]> (workerStats lb);
     roundRobinIndex := <[id worker := 0]> (roundRobinIndex lb) |}.

Definition removeWorker (lb : t) (workerId : string) : t :=
  {| strategy := strategy lb;
     workerStats := delete workerId (workerStats lb);
     roundRobinIndex := delete workerId (roundRobinIndex lb) |}.

(** [x || d] on numbers: [0] is falsy. *)
Definition rational_or (x d : Q) : Q := if Qeq_bool x 0 then d else x.

(** The [stats] argument of [updateWorkerStats]; [None] is a missing field. *)
Record StatsUpdate := {
  upd_requestCount : option Z;
  upd_processingTime : option Q;
  upd_success : option bool
}.

(** [updateWorkerStats].  The average is [total / requestCount]; the
    embedding is exact whenever [requestCount] is not [0] at that division,
    as in every call the orchestrator makes (it passes [requestCount: 1]). *)
Definition updateWorkerStats (lb : t) (workerId : string) (stats : StatsUpdate) (now : Z)
  : t :=
  match workerStats lb !! workerId with
  | None => lb
  | Some cur =>
      let requests :=
        match upd_requestCount stats with
        | Some n => if n =? 0 then requestCount cur else requestCount cur + n
        | None => requestCount cur
        end in
      let timed :=
        match upd_processingTime stats with
        | Some p => negb (Qeq_bool p 0)
        | None => false
        end in
      let total :=
        if timed then (totalProcessingTime cur + default 0%Q (upd_processingTime stats))%Q
        else totalProcessingTime cur in
      {| strategy := strategy lb;
         workerStats :=
           <[workerId :=
               {| requestCount := requests;
                  totalProcessingTime := total;
                  averageProcessingTime :=
                    if timed then (total / inject_Z requests)%Q
                    else averageProcessingTime cur;
                  successCount :=
                    match upd_success stats with
                    | Some true => successCount cur + 1
                    | _ => successCount cur
                    end;
                  failureCount :=
                    match upd_success stats with
                    | Some false => failureCount cur + 1
                    | _ => failureCount cur
                    end;
                  lastRequestTime := Some now;
                  currentLoad := currentLoad cur |}]> (workerStats lb);
         roundRobinIndex := roundRobinIndex lb |}
  end.

(** [stats.requestCount > 0 ? stats.successCount / stats.requestCount : 1] *)
Definition successRate (stats : WorkerStats) : Q :=
  if 0 <? requestCount stats
  then (inject_Z (successCount stats) / inject_Z (requestCount stats))%Q
  else 1%Q.

(** [stats.averageProcessingTime || 1000] *)
Definition avgTime (stats : WorkerStats) : Q :=
  rational_or (averageProcessingTime stats) 1000.

(** The weight computed in the [map] callback of [selectWeighted]. *)
Definition weight (lb : t) (worker : WorkerInfo) : Q :=
  match workerStats lb !! id worker with
  | None => 1%Q
  | Some stats => (successRate stats * (1000 / avgTime stats))%Q
  end.

Definition weightedWorkers (lb : t) (workers : list WorkerInfo) : list (WorkerInfo * Q) :=
  map (λ worker, (worker, weight lb worker)) workers.

(** [weightedWorkers.reduce((sum, w) => sum + w.weight, 0)] *)
Definition totalWeight (wws : list (WorkerInfo * Q)) : Q :=
  fold_left (λ sum ww, (sum + snd ww)%Q) wws 0%Q.

(** The [for] loop: subtract weights until the draw is used up. *)
Fixpoint draw (wws : list (WorkerInfo * Q)) (random : Q) : option WorkerInfo :=
  match wws with
  | [] => None
  | (worker, weight) :: rest =>
      let random' := (random - weight)%Q in
      if Qle_bool random' 0 then Some worker else draw rest random'
  end.

(** [selectWeighted]; [rnd] is the value of [Math.random()].  [None] is the
    [undefined] that [workers[0]] yields on an empty array. *)
Definition selectWeighted (lb : t) (workers : list WorkerInfo) (rnd : Q)
  : option WorkerInfo :=
  let wws := weightedWorkers lb workers in
  match draw wws (rnd * totalWeight wws)%Q with
  | Some worker => Some worker
  | None => head workers
  end.





(** [workers[i]] for an integer [i]: [undefined] out of range. *)
Definition at_index (workers : list WorkerInfo) (i : Z) : option WorkerInfo :=
  if i <? 0 then None else workers !! Z.to_nat i.

(** [modelId || 'default'] *)
Definition roundRobinKey (modelId : option string) : string :=
  match modelId with
  | Some m => if String.eqb m EmptyString then "default" else m
  | None => "default"
  end.

(** [selectRoundRobin]; [%] is the truncating remainder.  On an empty
    array JS computes [NaN], selects [undefined] and stores [NaN], which
    every later read ([get(key) || 0]) takes for [0]; it is stored as [0]. *)
Definition selectRoundRobin (lb : t) (workers : list WorkerInfo) (modelId : option string)
  : t * option WorkerInfo :=
  let key := roundRobinKey modelId in
  let index := default 0 (roundRobinIndex lb !! key) in
  let n := Z.of_nat (length workers) in
  ({| strategy := strategy lb;
      workerStats := workerStats lb;
      roundRobinIndex :=
        <[key := if n =? 0 then 0 else Z.rem (index + 1) n]> (roundRobinIndex lb) |},
   if n =? 0 then None else at_index workers (Z.rem index n)).

(** The callback of the [reduce] in [selectLeastConnections]. *)
Definition less_loaded (lb : t) (least worker : WorkerInfo) : WorkerInfo :=
  match workerStats lb !! id worker, workerStats lb !! id least with
  | Some stats, Some leastStats =>
      if currentLoad stats <? currentLoad leastStats then worker else least
  | _, _ => least
  end.

(** [selectLeastConnections]; [None] is the [TypeError] of [reduce] on an
    empty array without initial value. *)
Definition selectLeastConnections (lb : t) (workers : list WorkerInfo)
  : option WorkerInfo :=
  match workers with
  | [] => None
  | first :: rest => Some (fold_left (less_loaded lb) rest first)
  end.

(** [selectRandom]; [rnd] is the value of [Math.random()]. *)
Definition selectRandom (workers : list WorkerInfo) (rnd : Q) : option WorkerInfo :=
  at_index workers (Qfloor (rnd * inject_Z (Z.of_nat (length workers)))).

(** What [selectWorker] settles with: the throw on an empty candidate list,
    or the value it returns (which a strategy can leave [undefined]). *)
Inductive selection :=
| ERR_NO_WORKERS_AVAILABLE
| Selected (worker : option WorkerInfo).

Definition selectWorker (lb : t) (workers : list WorkerInfo) (modelId : option string)
    (rnd : Q) : t * selection :=
  match workers with
  | [] => (lb, ERR_NO_WORKERS_AVAILABLE)
  | [only] => (lb, Selected (Some only))
  | _ =>
      if String.eqb (strategy lb) "least-connections"
      then (lb, Selected (selectLeastConnections lb workers))
      else if String.eqb (strategy lb) "weighted"
      then (lb, Selected (selectWeighted lb workers rnd))
      else if String.eqb (strategy lb) "random"
      then (lb, Selected (selectRandom workers rnd))
      else let '(lb', worker) := selectRoundRobin lb workers modelId in
           (lb', Selected worker)
  end.

(** [k] consecutive round-robin selections over the same candidates. *)
Fixpoint roundRobinPicks (lb : t) (workers : list WorkerInfo) (modelId : option string)
    (k : nat) : list (option WorkerInfo) :=
  match k with
  | O => []
  | S k' =>
      let '(lb', worker) := selectRoundRobin lb workers modelId in
      worker :: roundRobinPicks lb' workers modelId k'
  end.

(** The [stats] object that [routeInferenceRequest] passes on completion. *)
Definition completion (processingTime : Q) (success : bool) : StatsUpdate :=
  {| upd_requestCount := Some 1; upd_processingTime := Some processingTime;
     upd_success := Some success |}.

(** The completions of one worker, recorded one after the other. *)
Definition recordCompletions (lb : t) (workerId : string) (done : list (Q * bool * Z)) : t :=
  fold_left (λ lb c, updateWorkerStats lb workerId (completion c.1.1 c.1.2) c.2) done lb.

(** The life of a load balancer. *)
Inductive lb_event :=
| LbAddWorker (worker : WorkerInfo)
| LbRemoveWorker (workerId : string)
| LbUpdateStats (workerId : string) (stats : StatsUpdate) (now : Z)
| LbSelectWorker (workers : list WorkerInfo) (modelId : option string) (rnd : Q).

Definition lb_step (lb : t) (ev : lb_event) : t :=
  match ev with
  | LbAddWorker worker => addWorker lb worker
  | LbRemoveWorker workerId => removeWorker lb workerId
  | LbUpdateStats workerId stats now => updateWorkerStats lb workerId stats now
  | LbSelectWorker workers modelId rnd => fst (selectWorker lb workers modelId rnd)
  end.

Definition lb_run (lb : t) (evs : list lb_event) : t := fold_left lb_step evs lb.

(** What every reachable balancer satisfies: cursors are not negative, and
    no recorded [currentLoad] has moved from [0]. *)
Definition lb_inv (lb : t) : Prop :=
  (∀ key index, roundRobinIndex lb !! key = Some index → 0 <= index)
  ∧ (∀ workerId stats, workerStats lb !! workerId = Some stats → currentLoad stats = 0).

(** Sample state: workers [A] and [B] are added; [B] has completed one
    request in 1000 ms, [A] none yet. *)
Definition worker_named (name : string) : WorkerInfo :=
  {| id := name; address := "10.0.0.1"; caps := CapObject (Some ["m1"]);
     registeredAt := 0; lastSeen := 0; status := "active" |}.

Definition sample_balancer : t :=
  updateWorkerStats
    (addWorker (addWorker (create (Some "weighted")) (worker_named "A")) (worker_named "B"))
    "B"
    {| upd_requestCount := Some 1; upd_processingTime := Some 1000%Q;
       upd_success := Some true |}
    1000.

Definition sample_candidates : list WorkerInfo := [worker_named "A"; worker_named "B"].

End LoadBalancer.

(** *** [HealthMonitor] *)
Module HealthMonitor.

(** The record kept per monitored worker; an object of the monitor's own,
    distinct from the registry's [workerInfo]. *)
Record Monitored := {
  mon_id : string;
  mon_address : string;
  mon_status : string;
  lastCheck : Z;
  consecutiveFailures : Z;
  totalChecks : Z;
  successfulChecks : Z
}.

(** The result object of one probe. *)
Record CheckResult := {
  res_workerId : string;
  res_status : string;
  checkDuration : Z;
  res_consecutiveFailures : Z;
  res_lastCheck : Z;
  res_error : option string
}.

Record t := {
  monitoredWorkers : gmap string Monitored;
  healthChecks : gmap string CheckResult
}.

Definition empty : t := {| monitoredWorkers := ∅; healthChecks := ∅ |}.

Definition startMonitoring (hm : t) (workerId address : string) (now : Z) : t :=
  {| monitoredWorkers :=
       <[workerId := {| mon_id := workerId; mon_address := address;
                        mon_status := "healthy"; lastCheck := now;
                        consecutiveFailures := 0; totalChecks := 0;
                        successfulChecks := 0 |}]> (monitoredWorkers hm);
     healthChecks := healthChecks hm |}.

Definition stopMonitoring (hm : t) (workerId : string) : t :=
  {| monitoredWorkers := delete workerId (monitoredWorkers hm);
     healthChecks := delete workerId (healthChecks hm) |}.

(** The inner [try]: a passed probe, and the inner [catch]: a failed one. *)
Definition probe_passed (w : Monitored) (now : Z) : Monitored :=
  {| mon_id := mon_id w; mon_address := mon_address w; mon_status := mon_status w;
     lastCheck := now;
     consecutiveFailures := 0;
     totalChecks := totalChecks w;
     successfulChecks := successfulChecks w + 1 |}.

Definition probe_failed (w : Monitored) : Monitored :=
  let failures := consecutiveFailures w + 1 in
  {| mon_id := mon_id w; mon_address := mon_address w;
     mon_status := if 3 <=? failures then "unhealthy" else mon_status w;
     lastCheck := lastCheck w;
     consecutiveFailures := failures;
     totalChecks := totalChecks w;
     successfulChecks := successfulChecks w |}.

Definition count_check (w : Monitored) : Monitored :=
  {| mon_id := mon_id w; mon_address := mon_address w; mon_status := mon_status w;
     lastCheck := lastCheck w;
     consecutiveFailures := consecutiveFailures w;
     totalChecks := totalChecks w + 1;
     successfulChecks := successfulChecks w |}.

(** [performHealthCheck]; [probe] is how [simulateHealthCheck] settled,
    [startTime] and [endTime] the clock before and after it.  [None] is the
    [ERR_WORKER_NOT_MONITORED] throw. *)
Definition performHealthCheck
    (hm : t) (workerId : string) (probe : settled unit) (startTime endTime : Z)
  : t * option CheckResult :=
  match monitoredWorkers hm !! workerId with
  | None => (hm, None)
  | Some worker =>
      let '(worker1, healthStatus, error) :=
        match probe with
        | Fulfilled _ => (probe_passed worker endTime, "healthy", None)
        | Rejected msg => (probe_failed worker, "unhealthy", Some msg)
        end in
      let worker2 := count_check worker1 in
      let result :=
        {| res_workerId := workerId; res_status := healthStatus;
           checkDuration := endTime - startTime;
           res_consecutiveFailures := consecutiveFailures worker2;
           res_lastCheck := lastCheck worker2;
           res_error := error |} in
      ({| monitoredWorkers := <[workerId := worker2]> (monitoredWorkers hm);
          healthChecks := <[workerId := result]> (healthChecks hm) |},
       Some result)
  end.

(** The probes of one worker, one after the other: how each settled, and
    the clock before and after it. *)
Definition probes (hm : t) (workerId : string) (outcomes : list (settled unit * Z * Z)) : t :=
  fold_left (λ hm p, fst (performHealthCheck hm workerId p.1.1 p.1.2 p.2)) outcomes hm.

Definition failed_probe (p : settled unit * Z * Z) : bool :=
  match p.1.1 with
  | Rejected _ => true
  | Fulfilled _ => false
  end.

(** The number of failed probes at the head of a list, and at the end. *)
Fixpoint leading_failures (outcomes : list (settled unit * Z * Z)) : nat :=
  match outcomes with
  | [] => O
  | p :: rest => if failed_probe p then S (leading_failures rest) else O
  end.

Definition trailing_failures (outcomes : list (settled unit * Z * Z)) : nat :=
  leading_failures (reverse outcomes).

(** Three failed probes in a row, somewhere. *)
Definition three_failures_in_a_row (outcomes : list (settled unit * Z * Z)) : Prop :=
  ∃ before a b c after,
    outcomes = before ++ [a; b; c] ++ after
    ∧ failed_probe a = true ∧ failed_probe b = true ∧ failed_probe c = true.

End HealthMonitor.

(** *** The orchestrator ([OrchestratorService] / [WrkOrchestrator]) *)

Record t := {
  serviceRegistry : ServiceRegistry.t;
  loadBalancer : LoadBalancer.t;
  healthMonitor : HealthMonitor.t
}.

Definition create (loadBalancingStrategy : option string) : t :=
  {| serviceRegistry := ServiceRegistry.empty;
     loadBalancer := LoadBalancer.create loadBalancingStrategy;
     healthMonitor := HealthMonitor.empty |}.

(** [registerWorker] as in [WrkOrchestrator]; [OrchestratorService] stores
    [capabilities || []], which indexes the same keys. *)
Definition registerWorker (o : t) (workerId address : string) (c : capabilities) (now : Z)
  : t :=
  let workerInfo :=
    {| id := workerId; address := address; caps := c;
       registeredAt := now; lastSeen := now; status := "active" |} in
  {| serviceRegistry := ServiceRegistry.registerWorker (serviceRegistry o) workerInfo;
     loadBalancer := LoadBalancer.addWorker (loadBalancer o) workerInfo;
     healthMonitor := HealthMonitor.startMonitoring (healthMonitor o) workerId address now |}.

Definition unregisterWorker (o : t) (workerId : string) : t :=
  {| serviceRegistry := ServiceRegistry.unregisterWorker (serviceRegistry o) workerId;
     loadBalancer := LoadBalancer.removeWorker (loadBalancer o) workerId;
     healthMonitor := HealthMonitor.stopMonitoring (healthMonitor o) workerId |}.

(** One probe of the health tick ([performHealthChecks] maps
    [performHealthCheck] over the monitored ids). *)
Definition probeWorker (o : t) (workerId : string) (probe : settled unit) (t0 t1 : Z) : t :=
  {| serviceRegistry := serviceRegistry o;
     loadBalancer := loadBalancer o;
     healthMonitor :=
       fst (HealthMonitor.performHealthCheck (healthMonitor o) workerId probe t0 t1) |}.

(** The [requirements] of a lookup; a missing field is [None]. *)
Record Requirements := {
  minCapacity : option Z;
  req_capabilities : option (list string)
}.

(** The callback of [OrchestratorService.filterWorkersByRequirements]:
    [Some true] keeps the worker, [Some false] drops it, [None] is a
    [TypeError].  No [workerInfo] has a [capacity] property, so the guarded
    capacity test ([requirements.minCapacity && worker.capacity && ...]) never
    drops a worker.  [worker.capabilities.includes] exists on an array only:
    reading it on an object or on [undefined] throws as soon as the loop over
    the required capabilities runs once. *)
Definition meets_requirements (requirements : Requirements) (worker : WorkerInfo)
  : option bool :=
  match req_capabilities requirements with
  | None | Some [] => Some true
  | Some required =>
      match caps worker with
      | Tags tags => Some (forallb (λ c, bool_decide (c ∈ tags)) required)
      | _ => None
      end
  end.

(** [workers.filter(callback)]: the first throw aborts the whole call. *)
Fixpoint filterWorkersByRequirements (workers : list WorkerInfo)
    (requirements : Requirements) : option (list WorkerInfo) :=
  match workers with
  | [] => Some []
  | worker :: rest =>
      keep ← meets_requirements requirements worker;
      kept ← filterWorkersByRequirements rest requirements;
      Some (if keep : bool then worker :: kept else kept)
  end.

(** How [OrchestratorService.findAvailableWorker] settles. *)
Inductive found :=
| NoWorkersAvailable
| NoWorkersMatchRequirements
| ThrewTypeError
| Found (worker : WorkerInfo).

Definition with_balancer (o : t) (lb : LoadBalancer.t) : t :=
  {| serviceRegistry := serviceRegistry o;
     loadBalancer := lb;
     healthMonitor := healthMonitor o |}.

(** [findAvailableWorker(modelId, requirements)]; [rnd] is the draw the
    strategy may consume. *)
Definition findAvailableWorker (o : t) (modelId : string) (requirements : Requirements)
    (rnd : Q) : t * found :=
  let availableWorkers := ServiceRegistry.getWorkersForModel (serviceRegistry o) modelId in
  match availableWorkers with
  | [] => (o, NoWorkersAvailable)
  | _ =>
      match filterWorkersByRequirements availableWorkers requirements with
      | None => (o, ThrewTypeError)
      | Some [] => (o, NoWorkersMatchRequirements)
      | Some filteredWorkers =>
          match LoadBalancer.selectWorker (loadBalancer o) filteredWorkers
                  (Some modelId) rnd with
          | (lb, LoadBalancer.Selected (Some selectedWorker)) =>
              (with_balancer o lb, Found selectedWorker)
          | (lb, LoadBalancer.Selected None) => (with_balancer o lb, ThrewTypeError)
          | (lb, LoadBalancer.ERR_NO_WORKERS_AVAILABLE) => (o, NoWorkersAvailable)
          end
      end
  end.

Inductive event :=
| Register (workerId address : string) (c : capabilities) (now : Z)
| Unregister (workerId : string)
| Probe (workerId : string) (probe : settled unit) (t0 t1 : Z).

Definition step (o : t) (ev : event) : t :=
  match ev with
  | Register workerId address c now => registerWorker o workerId address c now
  | Unregister workerId => unregisterWorker o workerId
  | Probe workerId probe t0 t1 => probeWorker o workerId probe t0 t1
  end.

Definition run (o : t) (evs : list event) : t := fold_left step evs o.

(** Runs in which no id is registered while it is still registered. *)
Fixpoint never_reregisters (o : t) (evs : list event) : Prop :=
  match evs with
  | [] => True
  | ev :: rest =>
      match ev with
      | Register workerId _ _ _ =>
          ServiceRegistry.workers (serviceRegistry o) !! workerId = None
      | _ => True
      end ∧ never_reregisters (step o ev) rest
  end.

(** Sample scenarios. *)
Definition failed : settled unit := Rejected "Simulated health check failure".

(** Two workers serve [m1]; the probe of [W1] fails three times in a row. *)
Definition three_failed_probes : list event :=
  [Register "W1" "10.0.0.1" (CapObject (Some ["m1"])) 0;
   Register "W2" "10.0.0.2" (CapObject (Some ["m1"])) 0;
   Probe "W1" failed 5000 5010;
   Probe "W1" failed 10000 10010;
   Probe "W1" failed 15000 15010].

(** A worker registers with one tag (resp. model), registers again with
    another, and is unregistered. *)
Definition reregister_tags : list event :=
  [Register "w1" "10.0.0.1" (Tags ["gpu"]) 0;
   Register "w1" "10.0.0.1" (Tags ["cpu"]) 1;
   Unregister "w1"].

Definition reregister_models : list event :=
  [Register "w1" "10.0.0.1" (CapObject (Some ["m1"])) 0;
   Register "w1" "10.0.0.1" (CapObject (Some ["m2"])) 1;
   Unregister "w1"].

(** Two workers come and one goes; no id is registered twice. *)
Definition come_and_go : list event :=
  [Register "W1" "10.0.0.1" (CapObject (Some ["m1"])) 0;
   Register "W2" "10.0.0.2" (Tags ["gpu"]) 1;
   Unregister "W1"].

Definition two_workers : t :=
  run (create None)
    [Register "W1" "10.0.0.1" (CapObject (Some ["m1"])) 0;
     Register "W2" "10.0.0.2" (CapObject (Some ["m1"])) 0].

Definition gpu_required : Requirements :=
  {| minCapacity := None; req_capabilities := Some ["gpu"] |}.

Definition no_requirements : Requirements :=
  {| minCapacity := None; req_capabilities := None |}.

Definition tagged_workers : list WorkerInfo :=
  [{| id := "a"; address := "10.0.0.1"; caps := Tags ["gpu"; "fp16"];
      registeredAt := 0; lastSeen := 0; status := "active" |};
   {| id := "b"; address := "10.0.0.2"; caps := Tags ["cpu"];
      registeredAt := 0; lastSeen := 0; status := "active" |}].

End Orchestrator.

(** ** API gateway: the per-client rate limiter
    [wrk-api-gateway/worker.js], [checkRateLimit] and
    [startRateLimitCleanup] (the same text in [ApiGatewayService] and
    [WrkApiGateway]). *)
Module ApiGateway.
Local Open Scope Z_scope.

(** [conf.rateLimit]; a missing number is [None]. *)
Record RateLimitConf := {
  enabled : bool;
  conf_windowMs : option Z;
  conf_maxRequests : option Z
}.

(** The value stored per client in [this.rateLimiter]. *)
Record ClientData := {
  requests : Z;
  windowStart : Z
}.

(** [x || d] on a number that may be missing. *)
Definition number_or (x : option Z) (d : Z) : Z :=
  match x with
  | Some n => if n =? 0 then d else n
  | None => d
  end.

Definition windowMs (c : RateLimitConf) : Z := number_or (conf_windowMs c) 60000.
Definition maxRequests (c : RateLimitConf) : Z := number_or (conf_maxRequests c) 100.

Definition first_hit (now : Z) : ClientData := {| requests := 1; windowStart := now |}.

(** [checkRateLimit]; [rateLimit = None] is a configuration without a
    [rateLimit] section, [clientId] is [req.ip || req.connection.remoteAddress]
    and [now] is [Date.now()]. *)
Definition checkRateLimit
    (rateLimit : option RateLimitConf) (rateLimiter : gmap string ClientData)
    (clientId : string) (now : Z) : bool * gmap string ClientData :=
  match rateLimit with
  | None => (true, rateLimiter)
  | Some c =>
      if negb (enabled c) then (true, rateLimiter)
      else
        match rateLimiter !! clientId with
        | None => (true, <[clientId := first_hit now]> rateLimiter)
        | Some clientData =>
            if windowMs c <? now - windowStart clientData
            then (true, <[clientId := first_hit now]> rateLimiter)
            else if maxRequests c <=? requests clientData
            then (false, rateLimiter)
            else (true,
                  <[clientId := {| requests := requests clientData + 1;
                                   windowStart := windowStart clientData |}]>
                    rateLimiter)
        end
  end.

(** One tick of the interval set up by [startRateLimitCleanup]. *)
Definition rateLimitCleanup
    (rateLimit : option RateLimitConf) (rateLimiter : gmap string ClientData) (now : Z)
  : gmap string ClientData :=
  let windowMs := number_or (rateLimit ≫= conf_windowMs) 60000 in
  filter (λ entry, ¬ (windowMs * 2 < now - windowStart entry.2)) rateLimiter.

Inductive event :=
| Request (clientId : string) (now : Z)
| CleanupTick (now : Z).

Definition ev_time (ev : event) : Z :=
  match ev with
  | Request _ now => now
  | CleanupTick now => now
  end.

(** The gateway's limiter over a sequence of events; the decisions taken
    are logged in order. *)
Fixpoint run (rateLimit : option RateLimitConf) (rateLimiter : gmap string ClientData)
    (evs : list event) : gmap string ClientData * list (string * bool) :=
  match evs with
  | [] => (rateLimiter, [])
  | Request clientId now :: rest =>
      let '(allowed, rateLimiter') := checkRateLimit rateLimit rateLimiter clientId now in
      let '(final, log) := run rateLimit rateLimiter' rest in
      (final, (clientId, allowed) :: log)
  | CleanupTick now :: rest => run rateLimit (rateLimitCleanup rateLimit rateLimiter now) rest
  end.

(** The clock does not run backwards: from [start], through the events, up
    to [finish]. *)
Fixpoint chronological (start : Z) (evs : list event) (finish : Z) : Prop :=
  match evs with
  | [] => start <= finish
  | ev :: rest => start <= ev_time ev ∧ chronological (ev_time ev) rest finish
  end.

(** This client asks only while its window is still open. *)
Definition asks_within_window (clientId : string) (d : ClientData) (window : Z)
    (ev : event) : Prop :=
  match ev with
  | Request c now => c = clientId → now - windowStart d <= window
  | CleanupTick _ => True
  end.

(** What is known of a denied client's entry once the clock has reached
    [clock]: it is still the entry [d] it was denied on, or a cleanup tick has
    pruned it, which takes a clock past the end of the window. *)
Definition still_denied_or_pruned (window : Z) (clientId : string) (d : ClientData)
    (rateLimiter : gmap string ClientData) (clock : Z) : Prop :=
  rateLimiter !! clientId = Some d
  ∨ (rateLimiter !! clientId = None ∧ window < clock - windowStart d).

(** The same events with the cleanup ticks left out. *)
Fixpoint without_cleanup (evs : list event) : list event :=
  match evs with
  | [] => []
  | Request clientId now :: rest => Request clientId now :: without_cleanup rest
  | CleanupTick _ :: rest => without_cleanup rest
  end.

(** The limiter with every pruned entry put back: an entry missing on the
    left is either missing on the right too, or expired on the clock. *)
Definition same_up_to_pruning (window clock : Z)
    (pruned full : gmap string ClientData) : Prop :=
  ∀ clientId,
    pruned !! clientId = full !! clientId
    ∨ (pruned !! clientId = None
       ∧ ∃ d, full !! clientId = Some d ∧ window < clock - windowStart d).

(** Sample: two requests per second allowed. *)
Definition sample_conf : RateLimitConf :=
  {| enabled := true; conf_windowMs := Some 1000; conf_maxRequests := Some 2 |}.

Definition sample_limiter : gmap string ClientData :=
  fst (run (Some sample_conf) ∅ [Request "10.1.1.1" 0; Request "10.1.1.1" 100]).

Definition sample_traffic : list event :=
  [Request "10.1.1.1" 300; CleanupTick 400; Request "10.2.2.2" 450; Request "10.1.1.1" 500].

End ApiGateway.

(** ** API gateway: authentication
    [wrk-api-gateway/workers/lib/auth-manager.js], class [AuthManager]. *)
Module AuthManager.
Local Open Scope Z_scope.

Record KeyInfo := {
  name : string;
  permissions : list string;
  createdAt : Z;
  lastUsed : option Z
}.

(** [authEnabled] is the truthiness of [conf.authentication?.enabled]. *)
Record t := {
  authEnabled : bool;
  apiKeys : gmap string KeyInfo
}.

(** The two headers [authenticate] reads; a missing header is [None]. *)
Record Headers := {
  x_api_key : option string;
  authorization : option string
}.

(** [req.user] *)
Record User := {
  user_apiKey : string;
  user_name : string;
  user_permissions : list string
}.

(** [initialize]: the two demonstration keys. *)
Definition initialize (a : t) (now : Z) : t :=
  {| authEnabled := authEnabled a;
     apiKeys :=
       <["admin-key-456" := {| name := "Admin Client"; permissions := ["*"];
                               createdAt := now; lastUsed := None |}]>
         (<["demo-api-key-123" :=
              {| name := "Demo Client";
                 permissions := ["inference"; "models:read"; "models:write"];
                 createdAt := now; lastUsed := None |}]> (apiKeys a)) |}.

(** [s.replace(pattern, '')] with a string pattern: the first occurrence,
    wherever it is, is cut out. *)
Fixpoint cut_first (pattern s : string) : string :=
  if String.prefix pattern s
  then String.substring (String.length pattern)
         (String.length s - String.length pattern) s
  else match s with
       | EmptyString => EmptyString
       | String c rest => String c (cut_first pattern rest)
       end.

Definition nonempty_string (s : option string) : option string :=
  match s with
  | Some v => if String.eqb v EmptyString then None else Some v
  | None => None
  end.

(** [req.headers['x-api-key'] ||
     req.headers['authorization']?.replace('Bearer ', '')], [None] when the
    result is falsy. *)
Definition presented_key (h : Headers) : option string :=
  match nonempty_string (x_api_key h) with
  | Some k => Some k
  | None => nonempty_string (cut_first "Bearer " <$> authorization h)
  end.

(** [authenticate]: the new key store, the verdict, and [req.user] when it
    is set. *)
Definition authenticate (a : t) (h : Headers) (now : Z) : t * bool * option User :=
  if negb (authEnabled a) then (a, true, None)
  else
    match presented_key h with
    | None => (a, false, None)
    | Some apiKey =>
        match apiKeys a !! apiKey with
        | None => (a, false, None)
        | Some keyInfo =>
            ({| authEnabled := authEnabled a;
                apiKeys :=
                  <[apiKey := {| name := name keyInfo; permissions := permissions keyInfo;
                                 createdAt := createdAt keyInfo; lastUsed := Some now |}]>
                    (apiKeys a) |},
             true,
             Some {| user_apiKey := apiKey; user_name := name keyInfo;
                     user_permissions := permissions keyInfo |})
        end
    end.

(** [hasPermission(user, permission)] *)
Definition hasPermission (user : option User) (permission : string) : bool :=
  match user with
  | None => false
  | Some u =>
      bool_decide ("*" ∈ user_permissions u)
      || bool_decide (permission ∈ user_permissions u)
  end.

(** [createApiKey]; [apiKey] is what [generateApiKey] drew. *)
Definition createApiKey (a : t) (apiKey keyName : string) (perms : list string) (now : Z)
  : t :=
  {| authEnabled := authEnabled a;
     apiKeys := <[apiKey := {| name := keyName; permissions := perms;
                               createdAt := now; lastUsed := None |}]> (apiKeys a) |}.

(** [revokeApiKey] *)
Definition revokeApiKey (a : t) (apiKey : string) : t * bool :=
  match apiKeys a !! apiKey with
  | None => (a, false)
  | Some _ => ({| authEnabled := authEnabled a; apiKeys := delete apiKey (apiKeys a) |}, true)
  end.

Definition with_x_api_key (k : string) : Headers :=
  {| x_api_key := Some k; authorization := None |}.

Definition with_bearer (k : string) : Headers :=
  {| x_api_key := None; authorization := Some ("Bearer " +:+ k) |}.

(** Sample: the gateway as started, authentication on. *)
Definition started : t :=
  initialize {| authEnabled := true; apiKeys := ∅ |} 0.

End AuthManager.

(** ** Model manager: blob storage and integrity check
    [wrk-model-manager]: [ModelStorage], [ModelRegistry] and the
    [storeModel] / [validateModel] endpoints of [WrkModelManager]. *)
Module ModelStore.
Local Open Scope Z_scope.

Abbreviation bytes := (list Byte.byte).

Inductive error :=
| ERR_INVALID_MODEL_DATA
| ERR_INVALID_METADATA
| ERR_MODEL_ALREADY_EXISTS
| ERR_MODEL_TOO_LARGE
| ERR_MODEL_NOT_FOUND
| ENOENT (path : string).

Inductive result (A : Type) : Type :=
| Ok (a : A)
| Err (e : error).
Arguments Ok {A} a.
Arguments Err {A} e.

(** *** The disk
    Calls of [fs.promises].  The disk is reliable: a write always succeeds
    and a read fails only for a missing file.  [Rename] is not called
    anywhere in the repository; it is listed to be able to state the
    write-to-temp-then-rename protocol. *)
Inductive fs_call :=
| WriteFile (path : string) (data : bytes)
| ReadFile (path : string)
| Unlink (path : string)
| Rename (src dst : string).

Record Disk := {
  files : gmap string bytes;
  calls : list fs_call
}.

(** The states of the files that a concurrent reader can see while a call is
    pending, in order; the last one is the state when the promise settles.
    [writeFile] opens with flag [w], which creates or truncates the file,
    and then writes the data; [rename] is atomic. *)
Definition visible_during (call : fs_call) (fs : gmap string bytes)
  : list (gmap string bytes) :=
  match call with
  | WriteFile path data => [<[path := []]> fs; <[path := data]> fs]
  | ReadFile _ => [fs]
  | Unlink path => [delete path fs]
  | Rename src dst =>
      match fs !! src with
      | Some data => [<[dst := data]> (delete src fs)]
      | None => [fs]
      end
  end.

Definition settle_call (call : fs_call) (d : Disk) : Disk :=
  {| files := default (files d) (last (visible_during call (files d)));
     calls := calls d ++ [call] |}.

Definition writeFile (d : Disk) (path : string) (data : bytes) : Disk :=
  settle_call (WriteFile path data) d.

Definition readFile (d : Disk) (path : string) : Disk * result bytes :=
  (settle_call (ReadFile path) d,
   match files d !! path with
   | Some data => Ok data
   | None => Err (ENOENT path)
   end).

(** The write protocol the specification describes: the blob goes to a
    temporary file first, which is then renamed onto the final path. *)
Definition written_via_temp_and_rename
    (issued : list fs_call) (finalPath : string) (data : bytes) : Prop :=
  ∃ tmp, tmp ≠ finalPath ∧ issued = [WriteFile tmp data; Rename tmp finalPath].

(** A partially written blob can be seen under [path] while [call] is
    pending. *)
Definition partial_blob_visible (call : fs_call) (fs : gmap string bytes)
    (path : string) (data : bytes) : Prop :=
  ∃ seen partial,
    seen ∈ visible_during call fs ∧ seen !! path = Some partial
    ∧ partial ≠ data ∧ Some partial ≠ fs !! path.

Section Storage.

(** [crypto.createHash('sha256').update(x).digest('hex')], on the bytes of
    [x]. *)
Variable sha256_hex : bytes → string.
(** [path.join] *)
Variable path_join : string → string → string.

(** *** [ModelStorage] *)
Record ModelStorage := {
  storagePath : string;
  maxModelSize : Q      (* what [parseSize] made of [conf.maxModelSize] *)
}.

(** The object [storeModel] resolves to. *)
Record Stored := {
  key : string;
  path : string;
  checksum : string;
  size : Z
}.

Definition generateStorageKey (modelId : string) : string :=
  sha256_hex (String.list_byte_of_string modelId) +:+ ".model".

Definition calculateChecksum (data : bytes) : string := sha256_hex data.

(** [modelData.length > this.maxModelSize] *)
Definition too_large (st : ModelStorage) (modelData : bytes) : bool :=
  negb (Qle_bool (inject_Z (Z.of_nat (length modelData))) (maxModelSize st)).

Definition storeModel (st : ModelStorage) (d : Disk) (modelId : string) (modelData : bytes)
  : Disk * result Stored :=
  if too_large st modelData then (d, Err ERR_MODEL_TOO_LARGE)
  else
    let storageKey := generateStorageKey modelId in
    let filePath := path_join (storagePath st) storageKey in
    let checksum := calculateChecksum modelData in
    (writeFile d filePath modelData,
     Ok {| key := storageKey; path := filePath; checksum := checksum;
           size := Z.of_nat (length modelData) |}).

Definition getModel (st : ModelStorage) (d : Disk) (storageKey : string)
  : Disk * result bytes :=
  readFile d (path_join (storagePath st) storageKey).

(** The integrity check of [validateModel]: re-read, re-hash, compare. *)
Definition verify (st : ModelStorage) (d : Disk) (storageKey expected : string)
  : Disk * result bool :=
  match getModel st d storageKey with
  | (d', Ok modelData) => (d', Ok (String.eqb (calculateChecksum modelData) expected))
  | (d', Err e) => (d', Err e)
  end.

(** *** [ModelRegistry] (the part the endpoints below use) *)
Record Metadata := {
  md_modelId : string;
  md_type : string;
  md_version : string;
  md_storageKey : string;
  md_checksum : string;
  md_size : Z;
  md_createdAt : Z;
  md_updatedAt : Z
}.

Record ModelRegistry := {
  metadataStore : gmap string Metadata;
  versionIndex : gmap string (gset string);
  typeIndex : gmap string (gset string)
}.

Definition empty_registry : ModelRegistry :=
  {| metadataStore := ∅; versionIndex := ∅; typeIndex := ∅ |}.

Definition hasModel (r : ModelRegistry) (modelId : string) : bool :=
  bool_decide (is_Some (metadataStore r !! modelId)).

(** [storeMetadata]; [metadata] already carries the fields the manager
    filled in, [now] is [Date.now()]. *)
Definition storeMetadata (r : ModelRegistry) (modelId : string) (metadata : Metadata) (now : Z)
  : ModelRegistry * Metadata :=
  let fullMetadata :=
    {| md_modelId := modelId;
       md_type := md_type metadata;
       md_version := md_version metadata;
       md_storageKey := md_storageKey metadata;
       md_checksum := md_checksum metadata;
       md_size := md_size metadata;
       md_createdAt := if md_createdAt metadata =? 0 then now else md_createdAt metadata;
       md_updatedAt := now |} in
  ({| metadataStore := <[modelId := fullMetadata]> (metadataStore r);
      versionIndex :=
        <[modelId := {[md_version metadata]} ∪ default ∅ (versionIndex r !! modelId)]>
          (versionIndex r);
      typeIndex :=
        <[md_type metadata := {[modelId]} ∪ default ∅ (typeIndex r !! md_type metadata)]>
          (typeIndex r) |},
   fullMetadata).

(** [getMetadata(modelId)] without a version. *)
Definition getMetadata (r : ModelRegistry) (modelId : string) : option Metadata :=
  metadataStore r !! modelId.

(** *** [WrkModelManager] *)
Record Manager := {
  modelStorage : ModelStorage;
  modelRegistry : ModelRegistry;
  disk : Disk;
  modelCache : gmap string (Metadata * string)
}.

(** The [metadata] a client sends; a missing or empty field is [None]. *)
Record MetadataInput := {
  in_type : option string;
  in_version : option string
}.

Definition nonempty (s : option string) : option string :=
  match s with
  | Some v => if String.eqb v EmptyString then None else Some v
  | None => None
  end.

(** The reply of the [storeModel] endpoint. *)
Record StoreReply := {
  rep_modelId : string;
  rep_storageKey : string;
  rep_checksum : string;
  rep_size : Z
}.

(** [WrkModelManager.storeModel]; [modelData = None] is a payload that is
    missing or not a [Buffer]. *)
Definition manager_storeModel
    (m : Manager) (modelId : string) (modelData : option bytes)
    (metadata : option MetadataInput) (now : Z) : Manager * result StoreReply :=
  match modelData with
  | None => (m, Err ERR_INVALID_MODEL_DATA)
  | Some data =>
      match metadata ≫= (λ md, nonempty (in_type md)) with
      | None => (m, Err ERR_INVALID_METADATA)
      | Some type =>
          if hasModel (modelRegistry m) modelId then (m, Err ERR_MODEL_ALREADY_EXISTS)
          else
            match storeModel (modelStorage m) (disk m) modelId data with
            | (d, Err e) =>
                ({| modelStorage := modelStorage m; modelRegistry := modelRegistry m;
                    disk := d; modelCache := modelCache m |}, Err e)
            | (d, Ok stored) =>
                let '(registry, registered) :=
                  storeMetadata (modelRegistry m) modelId
                    {| md_modelId := modelId;
                       md_type := type;
                       md_version :=
                         default "1.0.0" (metadata ≫= (λ md, nonempty (in_version md)));
                       md_storageKey := key stored;
                       md_checksum := checksum stored;
                       md_size := Z.of_nat (length data);
                       md_createdAt := now;
                       md_updatedAt := now |} now in
                ({| modelStorage := modelStorage m; modelRegistry := registry;
                    disk := d;
                    modelCache := <[modelId := (registered, key stored)]> (modelCache m) |},
                 Ok {| rep_modelId := modelId; rep_storageKey := key stored;
                       rep_checksum := checksum stored;
                       rep_size := Z.of_nat (length data) |})
            end
      end
  end.

(** The reply of [validateModel]. *)
Record Validation := {
  isValid : bool;
  expectedChecksum : string;
  actualChecksum : string
}.

Definition validateModel (m : Manager) (modelId : string) : Manager * result Validation :=
  match getMetadata (modelRegistry m) modelId with
  | None => (m, Err ERR_MODEL_NOT_FOUND)
  | Some metadata =>
      match getModel (modelStorage m) (disk m) (md_storageKey metadata) with
      | (d, Err e) =>
          ({| modelStorage := modelStorage m; modelRegistry := modelRegistry m;
              disk := d; modelCache := modelCache m |}, Err e)
      | (d, Ok modelData) =>
          let currentChecksum := calculateChecksum modelData in
          ({| modelStorage := modelStorage m; modelRegistry := modelRegistry m;
              disk := d; modelCache := modelCache m |},
           Ok {| isValid := String.eqb currentChecksum (md_checksum metadata);
                 expectedChecksum := md_checksum metadata;
                 actualChecksum := currentChecksum |})
      end
  end.

(** *** Deleting and updating
    [fs.unlink] fails only for a missing file. *)
Definition unlink (d : Disk) (path : string) : Disk * result unit :=
  (settle_call (Unlink path) d,
   match files d !! path with
   | Some _ => Ok ()
   | None => Err (ENOENT path)
   end).

(** [ModelStorage.deleteModel] *)
Definition deleteModel (st : ModelStorage) (d : Disk) (storageKey : string)
  : Disk * result bool :=
  match unlink d (path_join (storagePath st) storageKey) with
  | (d', Ok _) => (d', Ok true)
  | (d', Err e) => (d', Err e)
  end.

(** [getMetadata(modelId, version)]; a missing or empty [version] is
    [None]. *)
Definition getMetadata_version (r : ModelRegistry) (modelId : string)
    (version : option string) : option Metadata :=
  match metadataStore r !! modelId with
  | None => None
  | Some metadata =>
      match nonempty version with
      | None => Some metadata
      | Some v =>
          if String.eqb (md_version metadata) v then Some metadata
          else
            match versionIndex r !! modelId with
            | None => None
            | Some versions => if bool_decide (v ∈ versions) then Some metadata else None
            end
      end
  end.

(** [typeSet.delete(modelId)] on the set stored under [type], if there is
    one. *)
Definition type_remove (index : gmap string (gset string)) (type modelId : string)
  : gmap string (gset string) :=
  match index !! type with
  | Some typeSet => <[type := typeSet ∖ {[modelId]}]> index
  | None => index
  end.

(** [deleteMetadata]; its [version] parameter is not read. *)
Definition deleteMetadata (r : ModelRegistry) (modelId : string) : ModelRegistry * bool :=
  match metadataStore r !! modelId with
  | None => (r, false)
  | Some metadata =>
      ({| metadataStore := delete modelId (metadataStore r);
          versionIndex := delete modelId (versionIndex r);
          typeIndex := type_remove (typeIndex r) (md_type metadata) modelId |},
       true)
  end.

(** The [updates] object of [updateMetadata], as far as it names fields of
    the metadata; a field that is absent is [None]. *)
Record MetadataUpdates := {
  up_modelId : option string;
  up_type : option string;
  up_version : option string;
  up_storageKey : option string;
  up_checksum : option string;
  up_size : option Z;
  up_createdAt : option Z
}.

Inductive updated :=
| Updated (metadata : Metadata)
| UpdateModelNotFound
| UpdateTypeError.        (* [updates.type] read on [undefined] *)

(** [updateMetadata]; [updates = None] is a call without the object: the
    spread of [undefined] adds nothing, the merged metadata is stored, and
    [updates.type] then throws. *)
Definition updateMetadata (r : ModelRegistry) (modelId : string)
    (updates : option MetadataUpdates) (now : Z) : ModelRegistry * updated :=
  match metadataStore r !! modelId with
  | None => (r, UpdateModelNotFound)
  | Some existing =>
      let updatedMetadata :=
        {| md_modelId := default (md_modelId existing) (updates ≫= up_modelId);
           md_type := default (md_type existing) (updates ≫= up_type);
           md_version := default (md_version existing) (updates ≫= up_version);
           md_storageKey := default (md_storageKey existing) (updates ≫= up_storageKey);
           md_checksum := default (md_checksum existing) (updates ≫= up_checksum);
           md_size := default (md_size existing) (updates ≫= up_size);
           md_createdAt := default (md_createdAt existing) (updates ≫= up_createdAt);
           md_updatedAt := now |} in
      let stored := <[modelId := updatedMetadata]> (metadataStore r) in
      match updates with
      | None =>
          ({| metadataStore := stored; versionIndex := versionIndex r;
              typeIndex := typeIndex r |}, UpdateTypeError)
      | Some u =>
          ({| metadataStore := stored; versionIndex := versionIndex r;
              typeIndex :=
                match nonempty (up_type u) with
                | None => typeIndex r
                | Some type =>
                    if String.eqb type (md_type existing) then typeIndex r
                    else
                      let removed := type_remove (typeIndex r) (md_type existing) modelId in
                      <[type := {[modelId]} ∪ default ∅ (removed !! type)]> removed
                end |},
           Updated updatedMetadata)
      end
  end.

Definition with_disk (m : Manager) (d : Disk) : Manager :=
  {| modelStorage := modelStorage m; modelRegistry := modelRegistry m;
     disk := d; modelCache := modelCache m |}.

(** [WrkModelManager.getModel] *)
Definition manager_getModel (m : Manager) (modelId : string) (version : option string)
  : Manager * result (Metadata * bytes) :=
  match getMetadata_version (modelRegistry m) modelId version with
  | None => (m, Err ERR_MODEL_NOT_FOUND)
  | Some metadata =>
      match getModel (modelStorage m) (disk m) (md_storageKey metadata) with
      | (d, Err e) => (with_disk m d, Err e)
      | (d, Ok modelData) => (with_disk m d, Ok (metadata, modelData))
      end
  end.

(** [WrkModelManager.deleteModel]; the reply carries nothing but
    [modelId] and [deletedAt]. *)
Definition manager_deleteModel (m : Manager) (modelId : string) (version : option string)
  : Manager * result unit :=
  match getMetadata_version (modelRegistry m) modelId version with
  | None => (m, Err ERR_MODEL_NOT_FOUND)
  | Some metadata =>
      match deleteModel (modelStorage m) (disk m) (md_storageKey metadata) with
      | (d, Err e) => (with_disk m d, Err e)
      | (d, Ok _) =>
          ({| modelStorage := modelStorage m;
              modelRegistry := fst (deleteMetadata (modelRegistry m) modelId);
              disk := d;
              modelCache := delete modelId (modelCache m) |}, Ok ())
      end
  end.

(** [WrkModelManager.updateModelMetadata] *)
Definition manager_updateModelMetadata (m : Manager) (modelId : string)
    (updates : option MetadataUpdates) (now : Z) : Manager * updated :=
  let '(registry, outcome) := updateMetadata (modelRegistry m) modelId updates now in
  ({| modelStorage := modelStorage m; modelRegistry := registry;
      disk := disk m; modelCache := modelCache m |}, outcome).

(** *** The endpoints, one call after the other *)
Inductive call :=
| StoreModel (modelId : string) (modelData : option bytes)
    (metadata : option MetadataInput) (now : Z)
| GetModel (modelId : string) (version : option string)
| DeleteModel (modelId : string) (version : option string)
| UpdateModelMetadata (modelId : string) (updates : option MetadataUpdates) (now : Z)
| ValidateModel (modelId : string).

Definition serve (m : Manager) (c : call) : Manager :=
  match c with
  | StoreModel modelId modelData metadata now =>
      fst (manager_storeModel m modelId modelData metadata now)
  | GetModel modelId version => fst (manager_getModel m modelId version)
  | DeleteModel modelId version => fst (manager_deleteModel m modelId version)
  | UpdateModelMetadata modelId updates now =>
      fst (manager_updateModelMetadata m modelId updates now)
  | ValidateModel modelId => fst (validateModel m modelId)
  end.

Definition serve_all (m : Manager) (calls : list call) : Manager :=
  fold_left serve calls m.

(** The manager as constructed. *)
Definition new_manager (st : ModelStorage) (d : Disk) : Manager :=
  {| modelStorage := st; modelRegistry := empty_registry; disk := d; modelCache := ∅ |}.

Definition storage_file (st : ModelStorage) (modelId : string) : string :=
  path_join (storagePath st) (generateStorageKey modelId).

(** The model ids a sequence of calls asks to store. *)
Definition stored_ids (calls : list call) : list string :=
  omap (λ c, match c with StoreModel modelId _ _ _ => Some modelId | _ => None end) calls.

(** No two of these model ids share a file: their storage keys (digests of
    the ids) lead to different paths. *)
Definition no_collisions (st : ModelStorage) (modelIds : list string) : Prop :=
  Forall (λ id1, Forall (λ id2, storage_file st id1 = storage_file st id2 → id1 = id2)
                   modelIds) modelIds.

(** The update leaves the location and the checksum of the blob alone. *)
Definition keeps_blob_fields (c : call) : Prop :=
  match c with
  | UpdateModelMetadata _ (Some u) _ => up_storageKey u = None ∧ up_checksum u = None
  | _ => True
  end.


(** Every blob the registry points to is on disk under the key of its
    model id, with the recorded checksum. *)
Definition blobs_intact (m : Manager) : Prop :=
  ∀ modelId metadata,
    metadataStore (modelRegistry m) !! modelId = Some metadata →
    md_storageKey metadata = generateStorageKey modelId
    ∧ ∃ data,
        files (disk m) !! storage_file (modelStorage m) modelId = Some data
        ∧ md_checksum metadata = calculateChecksum data.



End Storage.

(** Sample instance: a stand-in digest (the hex of the first byte, if any)
    and plain concatenation for [path.join]. *)
Definition toy_digest (data : bytes) : string :=
  match data with
  | [] => "00"
  | b :: _ => String.string_of_list_byte [b]
  end.

Definition toy_join (dir file : string) : string := dir +:+ "/" +:+ file.

Definition sample_storage : ModelStorage :=
  {| storagePath := "./models"; maxModelSize := 1024%Q |}.

Definition empty_disk : Disk := {| files := ∅; calls := [] |}.

Definition sample_blob : bytes := [Byte.x01; Byte.x02; Byte.x03].

Definition onnx : MetadataInput := {| in_type := Some "onnx"; in_version := None |}.

Definition sample_manager : Manager := new_manager sample_storage empty_disk.

(** Two models come, one is retyped, one goes. *)
Definition sample_calls : list call :=
  [ StoreModel "alpha" (Some sample_blob) (Some onnx) 1;
    StoreModel "beta" (Some [Byte.x09]) (Some onnx) 2;
    UpdateModelMetadata "alpha"
      (Some {| up_modelId := None; up_type := Some "tflite"; up_version := None;
               up_storageKey := None; up_checksum := None; up_size := None;
               up_createdAt := None |}) 3;
    ValidateModel "alpha";
    DeleteModel "beta" None ].

(** What the registry then holds for the first model. *)
Definition alpha_retyped : Metadata :=
  {| md_modelId := "alpha"; md_type := "tflite"; md_version := "1.0.0";
     md_storageKey := generateStorageKey toy_digest "alpha";
     md_checksum := calculateChecksum toy_digest sample_blob;
     md_size := 3; md_createdAt := 1; md_updatedAt := 3 |}.

End ModelStore.

(** ** Inference engine: post-processing
    [wrk-ai-inference/workers/lib/inference-engine.js],
    [InferenceEngine.postprocessResult]. *)
Module InferenceEngine.

(** JavaScript values, as far as [model.predict] can resolve to them.  An
    object is the list of its own properties, each name once. *)
#[local] Unset Elimination Schemes.
Inductive value :=
| VUndefined
| VNull
| VBool (b : bool)
| VNumber (q : Q)
| VNaN
| VString (s : string)
| VArray (items : list value)
| VObject (fields : list (string * value)).
#[local] Set Elimination Schemes.

(** [ToBoolean] *)
Definition truthy (v : value) : bool :=
  match v with
  | VUndefined | VNull | VNaN => false
  | VBool b => b
  | VNumber q => negb (Qeq_bool q 0)
  | VString s => negb (String.eqb s EmptyString)
  | VArray _ | VObject _ => true
  end.

(** [a || b] *)
Definition or_else (a b : value) : value := if truthy a then a else b.

Definition nullish (v : value) : bool :=
  match v with
  | VUndefined | VNull => true
  | _ => false
  end.

(** [a ?? b] *)
Definition coalesce (a b : value) : value := if nullish a then b else a.

Fixpoint field (fields : list (string * value)) (name : string) : value :=
  match fields with
  | [] => VUndefined
  | (k, v) :: rest => if String.eqb k name then v else field rest name
  end.

(** [v.name] for a name that no built-in prototype defines (such as
    [predictions] and [confidence]): a [TypeError] on [undefined] and
    [null] ([None]), the own property of an object, [undefined] otherwise. *)
Definition get (v : value) (name : string) : option value :=
  match v with
  | VUndefined | VNull => None
  | VObject fields => Some (field fields name)
  | _ => Some VUndefined
  end.

(** The model object, as far as post-processing reads it. *)
Record Model := { version : value }.

Record ResultMetadata := {
  modelVersion : value;
  processedAt : Z
}.

Record Processed := {
  predictions : value;
  confidence : value;
  metadata : ResultMetadata
}.

Definition one_half : value := VNumber (1 # 2).

(** [postprocessResult(result, model)]; [now] is [Date.now()], [None] the
    [TypeError] of reading a property of [undefined] or [null]. *)
Definition postprocessResult (result : value) (model : Model) (now : Z)
  : option Processed :=
  p ← get result "predictions";
  c ← get result "confidence";
  Some {| predictions := or_else p result;
          confidence := or_else c one_half;
          metadata := {| modelVersion := version model; processedAt := now |} |}.

(** Post-processing as the specification words it:
    [predictions ← raw.predictions ?? raw], [confidence ← raw.confidence ?? 0.5]. *)
Definition spec_postprocess (raw : value) (model : Model) (now : Z)
  : option Processed :=
  p ← get raw "predictions";
  c ← get raw "confidence";
  Some {| predictions := coalesce p raw;
          confidence := coalesce c one_half;
          metadata := {| modelVersion := version model; processedAt := now |} |}.

(** Sample: a prediction made with confidence [0]. *)
Definition onnx_model : Model := {| version := VString "1.0.0" |}.

Definition zero_confidence : value :=
  VObject [("predictions", VArray [VNumber 1]); ("confidence", VNumber 0)].

(** *** [runInference] and the inference history *)

(** What a call can throw. *)
Inductive thrown :=
| ERR_INVALID_INPUT
| Raised (msg : string)   (* what [model.predict] or the timeout rejected with *)
| TypeError.              (* a property read on [undefined] or [null] *)

Record HistoryEntry := {
  h_modelId : string;
  h_processingTime : Z;
  h_timestamp : Z;
  h_success : bool;
  h_error : option thrown
}.

Record InferenceReply := {
  r_inferenceId : string;
  r_result : Processed;
  r_processingTime : Z;
  r_modelId : string;
  r_timestamp : Z
}.

(** [Map.prototype.set] on a map kept in insertion order: the value of a
    present key is replaced in place, a new key is appended. *)
Fixpoint map_set {A} (k : string) (v : A) (m : list (string * A)) : list (string * A) :=
  match m with
  | [] => [(k, v)]
  | (k', v') :: rest =>
      if String.eqb k' k then (k, v) :: rest else (k', v') :: map_set k v rest
  end.

(** [validateInput(model, input)]: both branches after [!input] return
    [true]. *)
Definition validateInput (input : value) : bool := truthy input.

(** One call of [runInference]: its arguments, what the race of
    [model.predict] against the timeout settled with, the id
    [generateInferenceId] drew and the readings of [Date.now()] at the
    start, in [postprocessResult] and at the end. *)
Record Call := {
  c_modelId : string;
  c_model : Model;
  c_inputData : value;
  c_raced : settled value;
  c_inferenceId : string;
  c_startTime : Z;
  c_processedAt : Z;
  c_endTime : Z
}.

(** The body of the [try]. *)
Definition attempt (c : Call) : thrown + Processed :=
  if negb (validateInput (c_inputData c)) then inl ERR_INVALID_INPUT
  else
    match c_raced c with
    | Rejected msg => inl (Raised msg)
    | Fulfilled result =>
        match postprocessResult result (c_model c) (c_processedAt c) with
        | None => inl TypeError
        | Some processedResult => inr processedResult
        end
    end.

Definition history_entry (c : Call) (outcome : thrown + Processed) : HistoryEntry :=
  {| h_modelId := c_modelId c;
     h_processingTime := (c_endTime c - c_startTime c)%Z;
     h_timestamp := c_startTime c;
     h_success := match outcome with inr _ => true | inl _ => false end;
     h_error := match outcome with inr _ => None | inl e => Some e end |}.

(** [runInference]: the history is written once, when the call settles, so
    calls in flight at the same time are ordered by their completion. *)
Definition runInference (inferenceHistory : list (string * HistoryEntry)) (c : Call)
  : list (string * HistoryEntry) * (thrown + InferenceReply) :=
  (map_set (c_inferenceId c) (history_entry c (attempt c)) inferenceHistory,
   match attempt c with
   | inl e => inl e
   | inr processedResult =>
       inr {| r_inferenceId := c_inferenceId c;
              r_result := processedResult;
              r_processingTime := (c_endTime c - c_startTime c)%Z;
              r_modelId := c_modelId c;
              r_timestamp := c_startTime c |}
   end).

Fixpoint runInferences (inferenceHistory : list (string * HistoryEntry)) (calls : list Call)
  : list (string * HistoryEntry) * list (thrown + InferenceReply) :=
  match calls with
  | [] => (inferenceHistory, [])
  | c :: rest =>
      let '(history, reply) := runInference inferenceHistory c in
      let '(final, replies) := runInferences history rest in
      (final, reply :: replies)
  end.

Record Statistics := {
  totalInferences : nat;
  successfulInferences : nat;
  failedInferences : nat;
  averageProcessingTime : Q;
  successRate : Q
}.

Definition ratio (a : Z) (b : nat) : Q := (inject_Z a / inject_Z (Z.of_nat b))%Q.

Definition getStatistics (inferenceHistory : list (string * HistoryEntry)) : Statistics :=
  let history := map snd inferenceHistory in
  let successful := filter (λ h, h_success h = true) history in
  let failed := filter (λ h, h_success h = false) history in
  {| totalInferences := length history;
     successfulInferences := length successful;
     failedInferences := length failed;
     averageProcessingTime :=
       if (0 <? length successful)%nat
       then ratio (fold_left (λ sum h, (sum + h_processingTime h)%Z) successful 0%Z)
              (length successful)
       else 0%Q;
     successRate :=
       if (0 <? length history)%nat
       then ratio (Z.of_nat (length successful)) (length history)
       else 0%Q |}.

Definition resolved {A} (reply : thrown + A) : bool :=
  match reply with inr _ => true | inl _ => false end.

Definition time_taken (reply : thrown + InferenceReply) : Z :=
  match reply with inr r => r_processingTime r | inl _ => 0%Z end.

(** Sample: three calls, the second without input, the third timed out. *)
Definition sample_call (inferenceId : string) (inputData : value) (raced : settled value)
    (startTime : Z) : Call :=
  {| c_modelId := "m1"; c_model := onnx_model; c_inputData := inputData;
     c_raced := raced; c_inferenceId := inferenceId; c_startTime := startTime;
     c_processedAt := (startTime + 100)%Z; c_endTime := (startTime + 101)%Z |}.

Definition sample_calls : list Call :=
  [ sample_call "inf_1" (VArray [VNumber 1]) (Fulfilled zero_confidence) 10;
    sample_call "inf_2" VNull (Fulfilled zero_confidence) 20;
    sample_call "inf_3" (VArray [VNumber 2]) (Rejected "ERR_INFERENCE_TIMEOUT") 30 ].

End InferenceEngine.

(** ** Inference worker: the model cache of [ModelManager]
    [wrk-ai-inference/workers/lib/model-manager.js] *)
Module ModelManager.
Local Open Scope Z_scope.

(** The mock model, as far as it varies: [type], [version] and the shapes
    are constants. *)
Record MockModel := {
  id : string;
  created : Z
}.

(** [modelStorage] *)
Abbreviation t := (gmap string MockModel).

Definition createMockModel (modelId : string) (now : Z) : MockModel :=
  {| id := modelId; created := now |}.

(** [loadModel]; [now] is the [Date.now()] of [createMockModel]. *)
Definition loadModel (modelStorage : t) (modelId : string) (now : Z) : t * MockModel :=
  match modelStorage !! modelId with
  | Some model => (modelStorage, model)
  | None =>
      let model := createMockModel modelId now in
      (<[modelId := model]> modelStorage, model)
  end.

Definition unloadModel (modelStorage : t) (modelId : string) : t * bool :=
  match modelStorage !! modelId with
  | Some _ => (delete modelId modelStorage, true)
  | None => (modelStorage, false)
  end.

(** [getLoadedModels], as a set. *)
Definition getLoadedModels (modelStorage : t) : gset string := dom modelStorage.

Inductive event :=
| LoadModel (modelId : string) (now : Z)
| UnloadModel (modelId : string).

Definition step (modelStorage : t) (ev : event) : t :=
  match ev with
  | LoadModel modelId now => fst (loadModel modelStorage modelId now)
  | UnloadModel modelId => fst (unloadModel modelStorage modelId)
  end.

Definition run (modelStorage : t) (evs : list event) : t := fold_left step evs modelStorage.

(** The event leaves this model alone. *)
Definition leaves (modelId : string) (ev : event) : Prop :=
  match ev with
  | LoadModel _ _ => True
  | UnloadModel other => other ≠ modelId
  end.

End ModelManager.

(* ===================================================================== *)
(** * Part II: theorems                                                    *)
(* ===================================================================== *)

Module InferenceWorkerFacts.
Import InferenceWorker.
Local Open Scope Z_scope.

(** *** Shape of the segments *)

Lemma load_decr_models w :
  availableModels (capacity (load_decr w)) = availableModels (capacity w)
  ∧ modelCache (load_decr w) = modelCache w.
Proof. done. Qed.

Lemma load_incr_models w :
  availableModels (capacity (load_incr w)) = availableModels (capacity w)
  ∧ modelCache (load_incr w) = modelCache w.
Proof. done. Qed.

Lemma cache_has_spec w m : cache_has w m = true ↔ m ∈ dom (modelCache w).
Proof. unfold cache_has. rewrite bool_decide_eq_true. by rewrite elem_of_dom. Qed.

Lemma available_has_spec w m :
  available_has w m = true ↔ m ∈ availableModels (capacity w).
Proof. unfold available_has. by rewrite bool_decide_eq_true. Qed.

Lemma park_worker rest w o : worker (park rest (w, o)) = w.
Proof. by destruct o. Qed.

Lemma park_pending rest w o :
  pending (park rest (w, o)) =
    match o with Awaiting t => rest ++ [t] | _ => rest end.
Proof. by destruct o. Qed.

Lemma run_snoc impl s evs ev :
  run impl s (evs ++ [ev]) = step impl (run impl s evs) ev.
Proof. unfold run. by rewrite fold_left_app. Qed.

(** An invariant of [step] from the boot state holds after every run. *)
Lemma run_invariant impl (P : System → Prop) conf :
  P (boot conf) →
  (∀ s ev, P s → P (step impl s ev)) →
  ∀ evs, P (run impl (boot conf) evs).
Proof.
  intros Hboot Hstep evs.
  induction evs as [|ev evs IH] using rev_ind; [done|].
  rewrite run_snoc. by apply Hstep.
Qed.

(** *** Slots held by parked calls *)

Lemma slots_held_snoc ts t :
  slots_held (ts ++ [t]) = slots_held ts + (if holds_slot t then 1 else 0).
Proof.
  unfold slots_held. rewrite filter_app, length_app.
  destruct (holds_slot t) eqn:Ht.
  - rewrite filter_cons_True by done. simpl. lia.
  - rewrite filter_cons_False by (rewrite Ht; discriminate). simpl. lia.
Qed.

Lemma slots_held_delete ts i t :
  ts !! i = Some t →
  slots_held (delete i ts) = slots_held ts - (if holds_slot t then 1 else 0).
Proof.
  intros Hi. rewrite delete_take_drop.
  rewrite <- (take_drop_middle ts i t Hi) at 3.
  unfold slots_held. rewrite !filter_app, !length_app.
  destruct (holds_slot t) eqn:Ht.
  - rewrite (filter_cons_True _ t) by done. simpl. lia.
  - rewrite (filter_cons_False _ t) by (rewrite Ht; discriminate). simpl. lia.
Qed.

Lemma slots_held_nonneg ts : 0 <= slots_held ts.
Proof. unfold slots_held. lia. Qed.

(** *** The standalone service keeps the counter within bounds *)

Lemma service_step_inv s ev : service_inv s → service_inv (step service_impl s ev).
Proof.
  destruct s as [w ts]. unfold service_inv. simpl. intros [Hload Hmax].
  destruct ev as [m|m|m|i r|i r]; simpl.
  - unfold Service.runInference.
    destruct (Z.leb_spec (maxConcurrent (capacity w)) (currentLoad (capacity w))); [done|].
    destruct (available_has w m); simpl; [|done].
    unfold lookup_model.
    destruct (modelCache (load_incr w) !! m); simpl;
      rewrite slots_held_snoc; simpl; lia.
  - unfold loadModel. destruct (cache_has w m); simpl; [done|].
    rewrite slots_held_snoc. simpl. lia.
  - unfold unloadModel. destruct (cache_has w m); simpl; done.
  - destruct (ts !! i) as [[m|m|m]|] eqn:Hi; simpl; try done.
    + pose proof (slots_held_delete ts i _ Hi) as Hd. simpl in Hd.
      destruct r; simpl; lia.
    + pose proof (slots_held_delete ts i _ Hi) as Hd. simpl in Hd.
      destruct r; simpl; [rewrite slots_held_snoc; simpl|]; lia.
  - destruct (ts !! i) as [[m|m|m]|] eqn:Hi; simpl; try done.
    pose proof (slots_held_delete ts i _ Hi) as Hd. simpl in Hd.
    destruct r; simpl; lia.
Qed.

(** In [AIInferenceService], under every interleaving of calls and
    settlements, [0 ≤ currentLoad ≤ maxConcurrent]. *)
Lemma service_capacity_safe conf evs :
  0 <= maxConcurrent_of_conf conf →
  capacity_safe (worker (run service_impl (boot conf) evs)).
Proof.
  intros Hconf.
  assert (service_inv (run service_impl (boot conf) evs)) as [Hload Hmax].
  { apply run_invariant; [|apply service_step_inv]. split; simpl; [done|lia]. }
  split; [|done]. rewrite Hload. apply slots_held_nonneg.
Qed.

(** *** Cache and preloaded set in [WrkAiInference] *)

Lemma wrk_cache_step s ev : wrk_cache_inv s → wrk_cache_inv (step wrk_impl s ev).
Proof.
  destruct s as [w ts]. unfold wrk_cache_inv, cache_consistent. simpl.
  intros [Hdom Hts].
  destruct ev as [m|m|m|i r|i r]; simpl.
  - unfold Wrk.runInference.
    destruct (maxConcurrent (capacity w) <=? currentLoad (capacity w)); [done|].
    destruct (available_has w m) eqn:Hav; simpl; [|done].
    apply available_has_spec in Hav. rewrite Hdom in Hav.
    apply elem_of_dom in Hav as [model Hmodel].
    unfold lookup_model. simpl. rewrite Hmodel. simpl.
    split; [done|]. apply Forall_app. split; [done|]. apply Forall_singleton. by intros [].
  - unfold loadModel. destruct (cache_has w m); simpl; [done|].
    split; [done|]. apply Forall_app. split; [done|]. apply Forall_singleton. by intros [].
  - unfold unloadModel. destruct (cache_has w m); simpl; [|done].
    split; [|done]. rewrite dom_delete_L. by rewrite Hdom.
  - destruct (ts !! i) as [[m|m|m]|] eqn:Hi; simpl; try done.
    + destruct r; simpl.
      * split; [|by apply Forall_delete]. rewrite dom_insert_L. by rewrite Hdom.
      * split; [done|by apply Forall_delete].
    + by destruct (Forall_lookup_1 _ _ _ _ Hts Hi).
  - destruct (ts !! i) as [[m|m|m]|] eqn:Hi; simpl; try done.
    destruct r; simpl; (split; [done|by apply Forall_delete]).
Qed.

(** *** Capacity, fail-fast and cache properties of the worker *)

(** C1 (capacity safety, [0 ≤ currentLoad ≤ maxConcurrent] at every point of
    every sequence of [runInference] calls).  [WrkAiInference.runInference]
    breaks it: its [catch] also runs for the two checks that throw before the
    increment.  A single call for a model that is not preloaded leaves a fresh
    worker at [currentLoad = -1]; and with [maxConcurrent = 1] a call rejected
    for capacity frees the slot of the inference still in flight, so the next
    call is admitted and two inferences run at once. *)
Theorem wrk_runInference_breaks_capacity_safety :
  Wrk.runInference (worker (boot None)) "m1"
    = (load_decr (worker (boot None)), Thrown ERR_MODEL_NOT_AVAILABLE)
  ∧ currentLoad (capacity (worker (run wrk_impl (boot None) one_rejected_call))) = -1
  ∧ ¬ capacity_safe (worker (run wrk_impl (boot None) one_rejected_call))
  ∧ pending (run wrk_impl (boot (Some 1)) rejected_then_admitted)
      = [RunAwaitsEngine "m1"; RunAwaitsEngine "m1"]
  ∧ maxConcurrent (capacity (worker (run wrk_impl (boot (Some 1)) rejected_then_admitted))) = 1.
Proof.
  split; [by vm_compute|]. split; [by vm_compute|].
  split; [|split; by vm_compute].
  unfold capacity_safe.
  replace (currentLoad _) with (-1) by (by vm_compute). lia.
Qed.

(** The first segment of [runInference]: which check rejects, and what is
    parked. *)
Lemma wrk_runInference_entry (s : System) (modelId : string) :
  let w := worker s in
  let load := currentLoad (capacity w) in
  let limit := maxConcurrent (capacity w) in
  (snd (Wrk.runInference w modelId) = Thrown ERR_CAPACITY_EXCEEDED ↔ limit <= load)
  ∧ (snd (Wrk.runInference w modelId) = Thrown ERR_MODEL_NOT_AVAILABLE
     ↔ load < limit ∧ modelId ∉ availableModels (capacity w))
  ∧ (limit <= load ∨ modelId ∉ availableModels (capacity w) →
     pending (step wrk_impl s (CallRunInference modelId)) = pending s)
  ∧ (load < limit ∧ modelId ∈ availableModels (capacity w) →
     ∃ t, snd (Wrk.runInference w modelId) = Awaiting t
          ∧ holds_slot t = true
          ∧ pending (step wrk_impl s (CallRunInference modelId)) = pending s ++ [t]).
Proof.
  destruct s as [w ts]. simpl. unfold Wrk.runInference, available_has.
  destruct (Z.leb_spec (maxConcurrent (capacity w)) (currentLoad (capacity w)))
    as [Hfull|Hfree]; simpl.
  - split; [done|]. split; [split; [done|intros [? _]; lia]|].
    split; [done|]. intros [? _]. lia.
  - split; [split; [|lia]|].
    { destruct (negb _); [done|]. unfold lookup_model.
      by destruct (modelCache (load_incr w) !! modelId). }
    destruct (decide (modelId ∈ availableModels (capacity w))) as [Hin|Hout].
    + rewrite bool_decide_eq_true_2 by done. simpl.
      unfold lookup_model.
      destruct (modelCache (load_incr w) !! modelId); simpl.
      * split; [split; [done|by intros [_ ?]]|].
        split; [intros [?|?]; [lia|done]|].
        intros _. by eexists.
      * split; [split; [done|by intros [_ ?]]|].
        split; [intros [?|?]; [lia|done]|].
        intros _. by eexists.
    + rewrite bool_decide_eq_false_2 by done. simpl.
      split; [done|]. split; [done|]. by intros [_ ?].
Qed.

(** After an [await], [runInference] only re-throws. *)
Lemma wrk_runInference_rethrows (modelId : string) :
  (∀ w r e, snd (Wrk.runInference_loaded w modelId r) = Thrown e →
            ∃ msg, e = FromCollaborator msg)
  ∧ (∀ w r e, snd (Wrk.runInference_inferred w modelId r) = Thrown e →
              ∃ msg, e = FromCollaborator msg).
Proof. split; intros w [a|msg] e; simpl; intros [= <-]; by eexists. Qed.

(** C5 (fail fast).  [runInference] throws [ERR_CAPACITY_EXCEEDED] exactly
    when [currentLoad ≥ maxConcurrent] at entry, and
    [ERR_MODEL_NOT_AVAILABLE] exactly when the capacity check passes and the
    model is not in [availableModels]; the capacity check comes first, and a
    call that is not rejected proceeds at once: nothing is parked for a
    rejected call and there is no queue to wait in.  After its first [await]
    a call only re-throws what a collaborator rejected with. *)
Theorem wrk_runInference_fail_fast (s : System) (modelId : string) :
  let w := worker s in
  let load := currentLoad (capacity w) in
  let limit := maxConcurrent (capacity w) in
  (snd (Wrk.runInference w modelId) = Thrown ERR_CAPACITY_EXCEEDED ↔ limit <= load)
  ∧ (snd (Wrk.runInference w modelId) = Thrown ERR_MODEL_NOT_AVAILABLE
     ↔ load < limit ∧ modelId ∉ availableModels (capacity w))
  ∧ (limit <= load ∨ modelId ∉ availableModels (capacity w) →
     pending (step wrk_impl s (CallRunInference modelId)) = pending s)
  ∧ (load < limit ∧ modelId ∈ availableModels (capacity w) →
     ∃ t, snd (Wrk.runInference w modelId) = Awaiting t
          ∧ holds_slot t = true
          ∧ pending (step wrk_impl s (CallRunInference modelId)) = pending s ++ [t])
  ∧ (∀ w' r e, snd (Wrk.runInference_loaded w' modelId r) = Thrown e →
               ∃ msg, e = FromCollaborator msg)
  ∧ (∀ w' r e, snd (Wrk.runInference_inferred w' modelId r) = Thrown e →
               ∃ msg, e = FromCollaborator msg).
Proof.
  destruct (wrk_runInference_entry s modelId) as (Hcap & Hmodel & Hrejected & Hadmitted).
  destruct (wrk_runInference_rethrows modelId) as [Hloaded Hinferred].
  exact (conj Hcap (conj Hmodel (conj Hrejected (conj Hadmitted (conj Hloaded Hinferred))))).
Qed.

(** C10 (cache and preloaded set agree).  Starting from the freshly
    constructed worker, after every interleaving of [loadModel],
    [unloadModel] and [runInference] calls and of the settlements they wait
    for, [availableModels] is the key set of [modelCache]; hence
    [checkCapacity] reports equal [modelAvailable] and [modelLoaded] flags
    for every [modelId]. *)
Theorem wrk_available_is_cache_keys
    (conf : option Z) (evs : list event) (modelId : option string) :
  let w := worker (run wrk_impl (boot conf) evs) in
  availableModels (capacity w) = dom (modelCache w)
  ∧ rep_modelAvailable (checkCapacity w modelId) = rep_modelLoaded (checkCapacity w modelId).
Proof.
  simpl.
  assert (wrk_cache_inv (run wrk_impl (boot conf) evs)) as [Hdom _].
  { apply run_invariant; [|apply wrk_cache_step].
    split; simpl; [|constructor]. unfold cache_consistent. simpl. by rewrite dom_empty_L. }
  split; [done|].
  unfold checkCapacity. simpl.
  destruct modelId as [m|]; [|done].
  destruct (truthy_string m); [|done]. f_equal.
  unfold available_has, cache_has. rewrite Hdom.
  apply bool_decide_ext. apply elem_of_dom.
Qed.

(** *** Further properties of the two worker classes *)

(** X1.  In [AIInferenceService], after every interleaving of calls and
    settlements, [currentLoad] is exactly the number of [runInference] calls
    that are in flight (parked at an [await]), it stays between [0] and
    [maxConcurrent], and [maxConcurrent] is the configured value. *)
Theorem service_load_counts_calls_in_flight (conf : option Z) (evs : list event) :
  0 <= maxConcurrent_of_conf conf →
  let s := run service_impl (boot conf) evs in
  currentLoad (capacity (worker s)) = slots_held (pending s)
  ∧ 0 <= currentLoad (capacity (worker s)) <= maxConcurrent (capacity (worker s))
  ∧ maxConcurrent (capacity (worker s)) = maxConcurrent_of_conf conf.
Proof.
  intros Hconf. cbv zeta.
  assert (service_inv (run service_impl (boot conf) evs)
          ∧ maxConcurrent (capacity (worker (run service_impl (boot conf) evs)))
            = maxConcurrent_of_conf conf) as [[Hload Hmax] Hlimit].
  { apply (run_invariant service_impl
             (λ s, service_inv s
                   ∧ maxConcurrent (capacity (worker s)) = maxConcurrent_of_conf conf)).
    - split; [|done]. split; simpl; [done|lia].
    - intros [w ts] ev [Hinv Hm]. split; [by apply service_step_inv|].
      simpl in Hm. rewrite <- Hm. clear.
      destruct ev as [m|m|m|i r|i r]; simpl.
      + unfold Service.runInference.
        destruct (_ <=? _); [done|]. destruct (negb _); [done|].
        unfold lookup_model. by destruct (modelCache (load_incr w) !! m).
      + unfold loadModel. by destruct (cache_has w m).
      + unfold unloadModel. by destruct (cache_has w m).
      + destruct (ts !! i) as [[m|m|m]|]; try done; by destruct r.
      + destruct (ts !! i) as [[m|m|m]|]; try done; by destruct r. }
  split; [done|]. split; [|done]. split; [|done].
  rewrite Hload. apply slots_held_nonneg.
Qed.

Lemma service_load_counts_calls_in_flight_witness :
  let s := run service_impl (boot (Some 1)) rejected_then_admitted in
  currentLoad (capacity (worker s)) = slots_held (pending s)
  ∧ 0 <= currentLoad (capacity (worker s)) <= maxConcurrent (capacity (worker s))
  ∧ maxConcurrent (capacity (worker s)) = maxConcurrent_of_conf (Some 1).
Proof.
  apply (service_load_counts_calls_in_flight (Some 1) rejected_then_admitted).
  simpl. lia.
Defined.

(** X2.  In [WrkAiInference], [runInference] never reaches its lazy-load
    branch: under every interleaving from the constructed worker, no
    [runInference] call is ever parked on [modelManager.loadModel], because a
    model that passes the availability check is always found in the cache. *)
Theorem wrk_runInference_never_lazy_loads
    (conf : option Z) (evs : list event) (t : task) :
  t ∈ pending (run wrk_impl (boot conf) evs) → ¬ is_run_awaiting_manager t.
Proof.
  assert (wrk_cache_inv (run wrk_impl (boot conf) evs)) as [_ Hts].
  { apply run_invariant; [|apply wrk_cache_step].
    split; simpl; [|constructor]. unfold cache_consistent. simpl. by rewrite dom_empty_L. }
  intros Hin. by apply (proj1 (Forall_forall _ _) Hts).
Qed.

Lemma wrk_runInference_never_lazy_loads_witness :
  ¬ is_run_awaiting_manager (RunAwaitsEngine "m1").
Proof.
  apply (wrk_runInference_never_lazy_loads (Some 1) rejected_then_admitted).
  vm_compute. left.
Defined.

(** X3.  In [WrkAiInference], once [unloadModel(m)] has run, whatever
    happened before, [m] is neither cached nor advertised, and the next
    [runInference(m)] is rejected at entry instead of reaching the engine. *)
Theorem wrk_unloaded_model_is_rejected
    (conf : option Z) (evs : list event) (modelId : string) :
  let w := worker (run wrk_impl (boot conf) (evs ++ [CallUnloadModel modelId])) in
  (modelId ∉ availableModels (capacity w))
  ∧ modelCache w !! modelId = None
  ∧ ∃ e, snd (Wrk.runInference w modelId) = Thrown e
         ∧ (e = ERR_CAPACITY_EXCEEDED ∨ e = ERR_MODEL_NOT_AVAILABLE).
Proof.
  cbv zeta. rewrite run_snoc.
  assert (wrk_cache_inv (run wrk_impl (boot conf) evs)) as [Hdom _].
  { apply run_invariant; [|apply wrk_cache_step].
    split; simpl; [|constructor]. unfold cache_consistent. simpl. by rewrite dom_empty_L. }
  destruct (run wrk_impl (boot conf) evs) as [w ts]. simpl in *.
  unfold cache_consistent in Hdom. unfold unloadModel.
  assert (∀ w', modelId ∉ availableModels (capacity w') →
            ∃ e, snd (Wrk.runInference w' modelId) = Thrown e
                 ∧ (e = ERR_CAPACITY_EXCEEDED ∨ e = ERR_MODEL_NOT_AVAILABLE)) as Hrej.
  { intros w' Hout. unfold Wrk.runInference, available_has.
    destruct (_ <=? _); simpl; [eexists; split; [done|by left]|].
    rewrite bool_decide_eq_false_2 by done. simpl. eexists; split; [done|by right]. }
  destruct (cache_has w modelId) eqn:Hhas; simpl.
  - assert (modelId ∉ availableModels (capacity w) ∖ {[modelId]}) as Hout.
    { rewrite elem_of_difference, elem_of_singleton. by intros [_ ?]. }
    split; [done|]. split; [by rewrite lookup_delete_eq|]. by apply Hrej.
  - assert (modelId ∉ dom (modelCache w)) as Hnot.
    { intros Hin%cache_has_spec. congruence. }
    split; [by rewrite Hdom|]. split; [by apply not_elem_of_dom|].
    apply Hrej. by rewrite Hdom.
Qed.

(** X29.  The capacity report predicts admission: for a non-empty
    [modelId], [WrkAiInference.runInference] gets past its two checks (and
    parks at its first [await]) exactly when [checkCapacity] called with that
    [modelId] in the same state reports [available] and [modelAvailable];
    otherwise it throws. *)
Theorem checkCapacity_predicts_admission (w : Worker) (modelId : string) :
  modelId ≠ EmptyString →
  let report := checkCapacity w (Some modelId) in
  ((rep_available report = true ∧ rep_modelAvailable report = Some true)
   ↔ ∃ t, snd (Wrk.runInference w modelId) = Awaiting t)
  ∧ ((rep_available report = false ∨ rep_modelAvailable report = Some false)
     ↔ ∃ e, snd (Wrk.runInference w modelId) = Thrown e).
Proof.
  intros Hne. unfold checkCapacity, Wrk.runInference, truthy_string. simpl.
  destruct (String.eqb_spec modelId EmptyString) as [?|_]; [done|]. simpl.
  destruct (Z.leb_spec (maxConcurrent (capacity w)) (currentLoad (capacity w))) as [Hfull|Hroom];
    destruct (Z.ltb_spec (currentLoad (capacity w)) (maxConcurrent (capacity w)));
    try lia; simpl.
  - split; split.
    + by intros [? _].
    + by intros [t ?].
    + intros _. by eexists.
    + intros _. by left.
  - destruct (available_has w modelId); simpl.
    + unfold lookup_model. simpl.
      destruct (modelCache w !! modelId); simpl; (split; split).
      * intros _. by eexists.
      * done.
      * by intros [?|?].
      * by intros [e ?].
      * intros _. by eexists.
      * done.
      * by intros [?|?].
      * by intros [e ?].
    + split; split.
      * by intros [_ ?].
      * by intros [t ?].
      * intros _. by eexists.
      * intros _. by right.
Qed.

Lemma checkCapacity_predicts_admission_witness :
  let report := checkCapacity (worker (boot (Some 1))) (Some "m1") in
  ((rep_available report = true ∧ rep_modelAvailable report = Some true)
   ↔ ∃ t, snd (Wrk.runInference (worker (boot (Some 1))) "m1") = Awaiting t)
  ∧ ((rep_available report = false ∨ rep_modelAvailable report = Some false)
     ↔ ∃ e, snd (Wrk.runInference (worker (boot (Some 1))) "m1") = Thrown e).
Proof.
  apply (checkCapacity_predicts_admission (worker (boot (Some 1))) "m1").
  discriminate.
Defined.

End InferenceWorkerFacts.

Module OrchestratorFacts.
Import Orchestrator.
Import ServiceRegistry.
Local Open Scope Z_scope.

(** *** Index maintenance *)

Lemma elem_of_set_add x y s : x ∈ set_add y s ↔ x = y ∨ x ∈ s.
Proof.
  unfold set_add. case_bool_decide as Hy.
  - split; [by right|]. intros [->|?]; done.
  - rewrite elem_of_app, list_elem_of_singleton. tauto.
Qed.

Lemma elem_of_set_delete x y s : x ∈ set_delete y s ↔ x ≠ y ∧ x ∈ s.
Proof. unfold set_delete. by rewrite list_elem_of_filter. Qed.

Lemma index_add_elem wid index k key ids x :
  index_add wid index k !! key = Some ids → x ∈ ids →
  (x = wid ∧ key = k) ∨ (∃ ids0, index !! key = Some ids0 ∧ x ∈ ids0).
Proof.
  unfold index_add. intros Hlook Hx.
  destruct (decide (k = key)) as [->|Hne].
  - rewrite lookup_insert_eq in Hlook. injection Hlook as <-.
    apply elem_of_set_add in Hx as [->|Hx]; [by left|].
    right. destruct (index !! key) as [ids0|]; simpl in Hx; [by eexists|].
    by apply elem_of_nil in Hx.
  - rewrite lookup_insert_ne in Hlook by done. right. by eexists.
Qed.

Lemma foldl_index_add_elem wid keys : ∀ index key ids x,
  foldl (index_add wid) index keys !! key = Some ids → x ∈ ids →
  (x = wid ∧ key ∈ keys) ∨ (∃ ids0, index !! key = Some ids0 ∧ x ∈ ids0).
Proof.
  induction keys as [|k keys IH]; simpl; intros index key ids x Hlook Hx.
  - right. by eexists.
  - destruct (IH _ _ _ _ Hlook Hx) as [[-> Hin]|(ids1 & Hlook1 & Hx1)].
    + left. split; [done|]. by right.
    + destruct (index_add_elem _ _ _ _ _ _ Hlook1 Hx1) as [[-> ->]|?]; [|by right].
      left. split; [done|]. by left.
Qed.

Lemma index_remove_elem wid index k key ids x :
  index_remove wid index k !! key = Some ids → x ∈ ids →
  (x ≠ wid ∨ key ≠ k) ∧ ∃ ids0, index !! key = Some ids0 ∧ x ∈ ids0.
Proof.
  unfold index_remove. intros Hlook Hx.
  destruct (index !! k) as [set|] eqn:Hk.
  - case_bool_decide as Hempty.
    + destruct (decide (k = key)) as [->|Hne].
      * by rewrite lookup_delete_eq in Hlook.
      * rewrite lookup_delete_ne in Hlook by done.
        split; [right; congruence|]. by eexists.
    + destruct (decide (k = key)) as [->|Hne].
      * rewrite lookup_insert_eq in Hlook. injection Hlook as <-.
        apply elem_of_set_delete in Hx as [Hxw Hx].
        split; [by left|]. by eexists.
      * rewrite lookup_insert_ne in Hlook by done.
        split; [right; congruence|]. by eexists.
  - split; [|by eexists]. right. intros ->. congruence.
Qed.

Lemma foldl_index_remove_elem wid keys : ∀ index key ids x,
  foldl (index_remove wid) index keys !! key = Some ids → x ∈ ids →
  (x ≠ wid ∨ key ∉ keys) ∧ ∃ ids0, index !! key = Some ids0 ∧ x ∈ ids0.
Proof.
  induction keys as [|k keys IH]; simpl; intros index key ids x Hlook Hx.
  - split; [|by eexists]. right. apply not_elem_of_nil.
  - destruct (IH _ _ _ _ Hlook Hx) as [Hrest (ids1 & Hlook1 & Hx1)].
    destruct (index_remove_elem _ _ _ _ _ _ Hlook1 Hx1) as [Hhere Hold].
    split; [|done].
    destruct Hrest as [?|Hrest]; [by left|].
    destruct Hhere as [?|Hhere]; [by left|].
    right. rewrite not_elem_of_cons. done.
Qed.

Section Exact.
Variable keys_of : capabilities → list string.

Lemma index_exact_register ws index info :
  ws !! id info = None →
  index_exact keys_of ws index →
  index_exact keys_of (<[id info := info]> ws)
              (foldl (index_add (id info)) index (keys_of (caps info))).
Proof.
  intros Hfresh Hex key ids x Hlook Hx.
  destruct (foldl_index_add_elem _ _ _ _ _ _ Hlook Hx) as [[-> Hkey]|(ids0 & Hl0 & Hx0)].
  - exists info. by rewrite lookup_insert_eq.
  - destruct (Hex _ _ _ Hl0 Hx0) as (w & Hw & Hkey).
    exists w. split; [|done].
    rewrite lookup_insert_ne; [done|]. intros <-. congruence.
Qed.

Lemma index_exact_unregister ws index wid worker :
  ws !! wid = Some worker →
  index_exact keys_of ws index →
  index_exact keys_of (delete wid ws)
              (foldl (index_remove wid) index (keys_of (caps worker))).
Proof.
  intros Hw Hex key ids x Hlook Hx.
  destruct (foldl_index_remove_elem _ _ _ _ _ _ Hlook Hx) as [Hgone (ids0 & Hl0 & Hx0)].
  destruct (Hex _ _ _ Hl0 Hx0) as (w & Hxw & Hkey).
  exists w. split; [|done].
  rewrite lookup_delete_ne; [done|]. intros <-.
  assert (w = worker) as -> by congruence.
  destruct Hgone; done.
Qed.

Lemma index_exact_resolves r index :
  index_exact keys_of (workers r) index → index_resolves r index.
Proof.
  intros Hex key ids x Hlook Hx.
  destruct (Hex _ _ _ Hlook Hx) as (w & Hw & _). by eexists.
Qed.

End Exact.

Lemma registry_exact_step o ev :
  never_reregisters o [ev] →
  registry_exact (serviceRegistry o) → registry_exact (serviceRegistry (step o ev)).
Proof.
  intros [Hfresh _] [Hcap Hmod].
  destruct ev as [wid addr c now|wid|wid probe t0 t1]; simpl; [| |done].
  - split; simpl.
    + by apply (index_exact_register capability_keys _ _
                  {| id := wid; address := addr; caps := c; registeredAt := now;
                     lastSeen := now; status := "active" |}).
    + by apply (index_exact_register model_keys _ _
                  {| id := wid; address := addr; caps := c; registeredAt := now;
                     lastSeen := now; status := "active" |}).
  - unfold ServiceRegistry.unregisterWorker.
    destruct (workers (serviceRegistry o) !! wid) as [w|] eqn:Hw; [|done].
    split; simpl; by apply index_exact_unregister.
Qed.

(** X14.  As long as no id is registered while it is still registered,
    register and unregister (and probes) keep both indices free of dangling
    entries: every id listed under a capability or a model is a key of
    [workers]. *)
Lemma fresh_registrations_keep_indices_consistent strategy evs :
  never_reregisters (create strategy) evs →
  index_consistent (serviceRegistry (run (create strategy) evs)).
Proof.
  assert (∀ o, registry_exact (serviceRegistry o) → never_reregisters o evs →
               registry_exact (serviceRegistry (run o evs))) as Hrun.
  { induction evs as [|ev evs IH]; simpl; intros o Hex Hfresh; [done|].
    destruct Hfresh as [Hev Hrest].
    apply IH; [|done]. apply registry_exact_step; [|done]. by split. }
  intros Hfresh.
  destruct (Hrun (create strategy)) as [Hcap Hmod]; [|done|].
  { split; intros key ids x Hlook; simpl in Hlook; by rewrite lookup_empty in Hlook. }
  split; by eapply index_exact_resolves.
Qed.

(** Probe outcomes never reach the registry: what [getWorkersForModel]
    answers is the same before and after any probe. *)
Lemma probe_leaves_selection o workerId probe t0 t1 modelId :
  getWorkersForModel (serviceRegistry (probeWorker o workerId probe t0 t1)) modelId
  = getWorkersForModel (serviceRegistry o) modelId.
Proof. done. Qed.

(** C3 (index consistency after any sequence of register and unregister
    calls, re-registration included).  [registerWorker] overwrites the stored
    [workerInfo] without removing the ids indexed under the previous
    capabilities, and [unregisterWorker] only visits the keys of the stored
    object; so after register, re-register with other capabilities and
    unregister, the first tag (model) still lists the id although [workers]
    no longer has it. *)
Theorem reregistration_leaves_dangling_entries :
  let tagged := serviceRegistry (run (create None) reregister_tags) in
  let modelled := serviceRegistry (run (create None) reregister_models) in
  workers tagged !! "w1" = None
  ∧ capabilityIndex tagged !! "gpu" = Some ["w1"]
  ∧ ¬ index_consistent tagged
  ∧ workers modelled !! "w1" = None
  ∧ modelIndex modelled !! "m1" = Some ["w1"]
  ∧ ¬ index_consistent modelled.
Proof.
  assert (workers (serviceRegistry (run (create None) reregister_tags)) !! "w1" = None)
    as Hw1 by (by vm_compute).
  assert (capabilityIndex (serviceRegistry (run (create None) reregister_tags)) !! "gpu"
          = Some ["w1"]) as Hgpu by (by vm_compute).
  assert (workers (serviceRegistry (run (create None) reregister_models)) !! "w1" = None)
    as Hw2 by (by vm_compute).
  assert (modelIndex (serviceRegistry (run (create None) reregister_models)) !! "m1"
          = Some ["w1"]) as Hm1 by (by vm_compute).
  cbv zeta. repeat split; try done.
  - intros [Hcap _].
    destruct (Hcap "gpu" ["w1"] "w1" Hgpu) as [w Hw]; [by left|].
    rewrite Hw1 in Hw. discriminate.
  - intros [_ Hmod].
    destruct (Hmod "m1" ["w1"] "w1" Hm1) as [w Hw]; [by left|].
    rewrite Hw2 in Hw. discriminate.
Qed.

(** C2 (health quarantine: excluded from [getWorkersForModel] after three
    consecutive failed probes, readmitted after one success).  The monitor
    marks its own record [unhealthy], but the registry filters on the
    [status] of its own [workerInfo], which no probe touches: after three
    failed probes of [W1], [getWorkersForModel] still answers [W1] first.
    A later successful probe resets [consecutiveFailures] and leaves the
    monitor's status [unhealthy]. *)
Theorem failed_probes_do_not_quarantine :
  let o := run (create None) three_failed_probes in
  let o' := step o (Probe "W1" (Fulfilled ()) 20000 20010) in
  let monitored (x : Orchestrator.t) :=
    HealthMonitor.monitoredWorkers (healthMonitor x) !! "W1" in
  (HealthMonitor.consecutiveFailures <$> monitored o) = Some 3
  ∧ (HealthMonitor.mon_status <$> monitored o) = Some "unhealthy"
  ∧ map id (getWorkersForModel (serviceRegistry o) "m1") = ["W1"; "W2"]
  ∧ (HealthMonitor.consecutiveFailures <$> monitored o') = Some 0
  ∧ (HealthMonitor.mon_status <$> monitored o') = Some "unhealthy"
  ∧ map id (getWorkersForModel (serviceRegistry o') "m1") = ["W1"; "W2"].
Proof. cbv zeta. repeat split; by vm_compute. Qed.

End OrchestratorFacts.

Module LoadBalancerFacts.
Import Orchestrator.
Import LoadBalancer.
Local Open Scope Q_scope.









End LoadBalancerFacts.

Module ApiGatewayFacts.
Import ApiGateway.
Local Open Scope Z_scope.

(** A denial changes nothing and pins down the state it was taken in. *)
Lemma checkRateLimit_denied rateLimit rl clientId now rl' :
  checkRateLimit rateLimit rl clientId now = (false, rl') →
  rl' = rl ∧ ∃ c d,
    rateLimit = Some c ∧ enabled c = true ∧ rl !! clientId = Some d
    ∧ now - windowStart d <= windowMs c ∧ maxRequests c <= requests d.
Proof.
  unfold checkRateLimit. destruct rateLimit as [c|]; [|done].
  destruct (enabled c) eqn:Hen; simpl; [|done].
  destruct (rl !! clientId) as [d|] eqn:Hd; [|done].
  destruct (Z.ltb_spec (windowMs c) (now - windowStart d)); [done|].
  destruct (Z.leb_spec (maxRequests c) (requests d)); [|done].
  intros [= <-]. split; [done|]. by exists c, d.
Qed.

Lemma checkRateLimit_other_client rateLimit rl clientId other now :
  other ≠ clientId →
  snd (checkRateLimit rateLimit rl other now) !! clientId = rl !! clientId.
Proof.
  intros Hne. unfold checkRateLimit. destruct rateLimit as [c|]; [|done].
  destruct (negb (enabled c)); [done|].
  destruct (rl !! other) as [d|]; simpl.
  - destruct (windowMs c <? now - windowStart d); simpl;
      [by rewrite lookup_insert_ne|].
    destruct (maxRequests c <=? requests d); simpl; [done|].
    by rewrite lookup_insert_ne.
  - by rewrite lookup_insert_ne.
Qed.

#[local] Arguments checkRateLimit : simpl never.
#[local] Arguments rateLimitCleanup : simpl never.

Lemma still_denied_or_pruned_later window clientId d rl clock clock' :
  clock <= clock' →
  still_denied_or_pruned window clientId d rl clock →
  still_denied_or_pruned window clientId d rl clock'.
Proof. intros Hle [Hd|[Hnone Hlate]]; [by left|right]. split; [done|lia]. Qed.

Lemma cleanup_still_denied_or_pruned c clientId d rl clock now :
  0 <= windowMs c → clock <= now →
  still_denied_or_pruned (windowMs c) clientId d rl clock →
  still_denied_or_pruned (windowMs c) clientId d
    (rateLimitCleanup (Some c) rl now) now.
Proof.
  intros Hw Hle [Hd|[Hnone Hlate]]; unfold rateLimitCleanup; simpl;
    fold (windowMs c).
  - destruct (decide (windowMs c * 2 < now - windowStart d)) as [Hold|Hyoung].
    + right. split; [|lia]. apply map_lookup_filter_None. right.
      intros d' Hd'. simpl. assert (d' = d) as -> by congruence. tauto.
    + left. apply map_lookup_filter_Some. done.
  - right. split; [|lia]. apply map_lookup_filter_None. by left.
Qed.

Lemma run_keeps_denying c clientId d :
  enabled c = true → 0 <= windowMs c → maxRequests c <= requests d →
  ∀ evs rl clock now,
    still_denied_or_pruned (windowMs c) clientId d rl clock →
    chronological clock evs now →
    Forall (asks_within_window clientId d (windowMs c)) evs →
    (∀ allowed, (clientId, allowed) ∈ snd (run (Some c) rl evs) → allowed = false)
    ∧ still_denied_or_pruned (windowMs c) clientId d (fst (run (Some c) rl evs)) now.
Proof.
  intros Hen Hw Hmax.
  induction evs as [|ev evs IH]; intros rl clock now Hst Hchron Hasks.
  { simpl in *. split; [by intros ? ?%elem_of_nil|].
    by eapply still_denied_or_pruned_later. }
  apply Forall_cons in Hasks as [Hask Hasks]. destruct Hchron as [Hclock Hchron].
  destruct ev as [other t|t]; simpl in *.
  - destruct (checkRateLimit (Some c) rl other t) as [allowed rl1] eqn:Hcheck.
    assert (still_denied_or_pruned (windowMs c) clientId d rl1 t
            ∧ (other = clientId → allowed = false)) as [Hst1 Hdenied].
    { destruct (decide (other = clientId)) as [->|Hne].
      - specialize (Hask eq_refl).
        destruct Hst as [Hd|[_ Hlate]]; [|lia].
        unfold checkRateLimit in Hcheck. rewrite Hen, Hd in Hcheck. simpl in Hcheck.
        destruct (Z.ltb_spec (windowMs c) (t - windowStart d)); [lia|].
        destruct (Z.leb_spec (maxRequests c) (requests d)); [|lia].
        injection Hcheck as <- <-. split; [by left|done].
      - split; [|done].
        pose proof (checkRateLimit_other_client (Some c) rl clientId other t Hne) as Hsame.
        rewrite Hcheck in Hsame. simpl in Hsame.
        apply (still_denied_or_pruned_later _ _ _ _ clock); [done|].
        destruct Hst as [Hd|[Hnone Hlate]]; [left|right]; by rewrite Hsame. }
    destruct (IH rl1 t now Hst1 Hchron Hasks) as [Hlog Hfinal].
    destruct (run (Some c) rl1 evs) as [final log]. simpl in *.
    split; [|done]. intros b [Hhead|Htail]%elem_of_cons.
    + injection Hhead as <- ->. by apply Hdenied.
    + by apply Hlog.
  - apply (IH _ t now); [|done|done].
    by apply (cleanup_still_denied_or_pruned c clientId d rl clock t).
Qed.

(** C4 (monotone within a window).  Let a request of [clientId] be denied
    at time [t0] on the stored entry [d].  Whatever happens next on a clock
    that does not run backwards (requests of any client, cleanup ticks),
    every request of that client made while [now − windowStart ≤ windowMs] is
    denied and leaves the limiter unchanged, and its first request with
    [now − windowStart > windowMs] is allowed and stores
    [requests = 1, windowStart = now]. *)
Theorem rate_limit_denied_until_window_expires
    (c : RateLimitConf) (rl rl' : gmap string ClientData) (clientId : string)
    (d : ClientData) (t0 : Z) (evs : list event) (now : Z) :
  checkRateLimit (Some c) rl clientId t0 = (false, rl') →
  rl !! clientId = Some d →
  0 <= windowMs c →
  chronological t0 evs now →
  Forall (asks_within_window clientId d (windowMs c)) evs →
  let after := fst (run (Some c) rl' evs) in
  rl' = rl
  ∧ (∀ allowed, (clientId, allowed) ∈ snd (run (Some c) rl' evs) → allowed = false)
  ∧ (now - windowStart d <= windowMs c →
     checkRateLimit (Some c) after clientId now = (false, after))
  ∧ (now - windowStart d > windowMs c →
     checkRateLimit (Some c) after clientId now
     = (true, <[clientId := {| requests := 1; windowStart := now |}]> after)).
Proof.
  intros Hdenied Hd Hw Hchron Hasks.
  destruct (checkRateLimit_denied _ _ _ _ _ Hdenied)
    as (-> & c' & d' & [= <-] & Hen & Hd' & Hin & Hmax).
  assert (d' = d) as -> by congruence.
  destruct (run_keeps_denying c clientId d Hen Hw Hmax evs rl t0 now)
    as [Hlog Hafter]; [by left|done|done|].
  simpl. split; [done|]. split; [done|].
  unfold checkRateLimit. rewrite Hen. simpl.
  split; intros Hnow.
  - destruct Hafter as [Hsome|[_ Hlate]]; [|lia]. rewrite Hsome.
    destruct (Z.ltb_spec (windowMs c) (now - windowStart d)); [lia|].
    destruct (Z.leb_spec (maxRequests c) (requests d)); [done|lia].
  - destruct Hafter as [Hsome|[Hnone _]].
    + rewrite Hsome.
      destruct (Z.ltb_spec (windowMs c) (now - windowStart d)); [done|lia].
    + by rewrite Hnone.
Qed.

Lemma rate_limit_denied_until_window_expires_witness :
  checkRateLimit (Some sample_conf) sample_limiter "10.1.1.1" 200 = (false, sample_limiter)
  ∧ checkRateLimit (Some sample_conf)
      (fst (run (Some sample_conf) sample_limiter sample_traffic)) "10.1.1.1" 1100
    = (true, <["10.1.1.1" := {| requests := 1; windowStart := 1100 |}]>
               (fst (run (Some sample_conf) sample_limiter sample_traffic))).
Proof.
  assert (checkRateLimit (Some sample_conf) sample_limiter "10.1.1.1" 200
          = (false, sample_limiter)) as Hdenied by (vm_compute; reflexivity).
  split; [exact Hdenied|].
  refine (proj2 (proj2 (proj2
    (rate_limit_denied_until_window_expires sample_conf sample_limiter sample_limiter
       "10.1.1.1" {| requests := 2; windowStart := 0 |} 200 sample_traffic 1100
       Hdenied _ _ _ _))) _).
  - vm_compute; reflexivity.
  - vm_compute; discriminate.
  - simpl; lia.
  - unfold sample_traffic.
    repeat (constructor; [unfold windowMs; simpl; intros; lia|]). constructor.
  - unfold windowMs; simpl; lia.
Defined.

End ApiGatewayFacts.

Module ModelStoreFacts.
Import ModelStore.
Local Open Scope Z_scope.

Lemma files_writeFile d path data :
  files (writeFile d path data) = <[path := data]> (files d).
Proof. done. Qed.

Lemma calls_writeFile d path data :
  calls (writeFile d path data) = calls d ++ [WriteFile path data].
Proof. done. Qed.

Lemma files_readFile d path : files (fst (readFile d path)) = files d.
Proof. done. Qed.

Section StorageFacts.
Variable sha256_hex : bytes → string.
Variable path_join : string → string → string.

Lemma too_large_false st (data : bytes) :
  too_large st data = false
  ↔ (inject_Z (Z.of_nat (length data)) <= maxModelSize st)%Q.
Proof. unfold too_large. rewrite negb_false_iff. apply Qle_bool_iff. Qed.

Lemma too_large_true st (data : bytes) :
  too_large st data = true
  ↔ (maxModelSize st < inject_Z (Z.of_nat (length data)))%Q.
Proof.
  rewrite <- not_false_iff_true, too_large_false. split.
  - apply Qnot_le_lt.
  - intros Hlt Hle. by apply (Qlt_not_le _ _ Hlt).
Qed.

(** C6 (checksum round trip).  For every [modelId] and every buffer of at
    most [maxModelSize] bytes, [storeModel] succeeds; reading the blob back
    under the returned storage key yields exactly the bytes, and recomputing
    the digest of the stored blob and comparing it with the returned
    checksum, as [validateModel] does, answers [true]. *)
Theorem checksum_round_trip
    (st : ModelStorage) (d : Disk) (modelId : string) (data : bytes) :
  (inject_Z (Z.of_nat (length data)) <= maxModelSize st)%Q →
  ∃ d1 stored,
    storeModel sha256_hex path_join st d modelId data = (d1, Ok stored)
    ∧ key stored = generateStorageKey sha256_hex modelId
    ∧ checksum stored = calculateChecksum sha256_hex data
    ∧ snd (getModel path_join st d1 (key stored)) = Ok data
    ∧ snd (verify sha256_hex path_join st d1 (key stored) (checksum stored)) = Ok true.
Proof.
  intros Hsize. apply too_large_false in Hsize.
  unfold storeModel. rewrite Hsize. do 2 eexists. split; [done|]. simpl.
  split; [done|]. split; [done|].
  unfold verify, getModel, readFile. rewrite files_writeFile, lookup_insert_eq. simpl.
  split; [done|]. by rewrite String.eqb_refl.
Qed.

(** X22.  The same through the endpoints: a model stored by
    [WrkModelManager.storeModel] is found valid by [validateModel]. *)
Lemma stored_model_validates
    (m : Manager) (modelId : string) (data : bytes) (metadata : MetadataInput)
    (type : string) (now : Z) :
  (inject_Z (Z.of_nat (length data)) <= maxModelSize (modelStorage m))%Q →
  hasModel (modelRegistry m) modelId = false →
  nonempty (in_type metadata) = Some type →
  ∃ m1 reply v,
    manager_storeModel sha256_hex path_join m modelId (Some data) (Some metadata) now
      = (m1, Ok reply)
    ∧ rep_checksum reply = calculateChecksum sha256_hex data
    ∧ snd (validateModel sha256_hex path_join m1 modelId) = Ok v
    ∧ isValid v = true
    ∧ expectedChecksum v = rep_checksum reply.
Proof.
  intros Hsize Hnew Htype. apply too_large_false in Hsize.
  unfold manager_storeModel. simpl. rewrite Htype, Hnew.
  unfold storeModel. rewrite Hsize. simpl.
  do 3 eexists. split; [done|]. split; [done|].
  unfold validateModel, getMetadata. simpl. rewrite lookup_insert_eq. simpl.
  unfold getModel, readFile. simpl. rewrite lookup_insert_eq. simpl.
  split; [done|]. split; [|done]. by rewrite String.eqb_refl.
Qed.

(** C7, as the code has it.  [storeModel] fails with [ERR_MODEL_TOO_LARGE]
    exactly when the byte length exceeds [maxModelSize], and then touches
    nothing; when it succeeds it has issued a single [writeFile] of the whole
    buffer directly onto the final path [storagePath/storageKey], with no
    temporary file and no rename. *)
Theorem storeModel_size_check_and_direct_write
    (st : ModelStorage) (d : Disk) (modelId : string) (data : bytes) :
  let filePath := path_join (storagePath st) (generateStorageKey sha256_hex modelId) in
  let outcome := storeModel sha256_hex path_join st d modelId data in
  (snd outcome = Err ERR_MODEL_TOO_LARGE
   ↔ (maxModelSize st < inject_Z (Z.of_nat (length data)))%Q)
  ∧ (snd outcome = Err ERR_MODEL_TOO_LARGE → fst outcome = d)
  ∧ (∀ stored, snd outcome = Ok stored →
       path stored = filePath
       ∧ size stored = Z.of_nat (length data)
       ∧ calls (fst outcome) = calls d ++ [WriteFile filePath data]
       ∧ files (fst outcome) = <[filePath := data]> (files d)
       ∧ ¬ written_via_temp_and_rename
             (drop (length (calls d)) (calls (fst outcome))) filePath data).
Proof.
  simpl. unfold storeModel.
  destruct (too_large st data) eqn:Hlarge; simpl.
  - apply too_large_true in Hlarge. repeat split; done.
  - split; [|split; [done|]].
    { split; [done|]. intros Hlt%too_large_true. congruence. }
    intros stored [= <-]. simpl. repeat split; try done.
    rewrite drop_app_length. intros (tmp & _ & Hcalls). discriminate.
Qed.

End StorageFacts.

(** C7 as the specification words it fails on any successful store: the
    only call issued is a [writeFile] onto the final path, which is not a
    write to a temporary file followed by a rename; and while that call is
    pending the file under the storage key exists, truncated, without the
    blob. *)
Lemma storeModel_atomic_write_counterexample :
  let filePath := toy_join "./models" (generateStorageKey toy_digest "m1") in
  let outcome := storeModel toy_digest toy_join sample_storage empty_disk "m1" sample_blob in
  (∃ stored, snd outcome = Ok stored)
  ∧ calls (fst outcome) = [WriteFile filePath sample_blob]
  ∧ ¬ written_via_temp_and_rename (calls (fst outcome)) filePath sample_blob
  ∧ partial_blob_visible (WriteFile filePath sample_blob) (files empty_disk)
      filePath sample_blob.
Proof.
  cbv zeta. split; [by eexists|]. split; [done|]. split.
  - intros (tmp & _ & Hcalls). discriminate.
  - exists (<[toy_join "./models" (generateStorageKey toy_digest "m1") := []]> ∅), [].
    split; [by left|]. split; [by rewrite lookup_insert_eq|]. split; [done|].
    simpl. by rewrite lookup_empty.
Qed.

Lemma checksum_round_trip_witness :
  ∃ d1 stored,
    storeModel toy_digest toy_join sample_storage empty_disk "m1" sample_blob
      = (d1, Ok stored)
    ∧ key stored = generateStorageKey toy_digest "m1"
    ∧ checksum stored = calculateChecksum toy_digest sample_blob
    ∧ snd (getModel toy_join sample_storage d1 (key stored)) = Ok sample_blob
    ∧ snd (verify toy_digest toy_join sample_storage d1 (key stored) (checksum stored))
      = Ok true.
Proof.
  apply (checksum_round_trip toy_digest toy_join sample_storage empty_disk "m1" sample_blob).
  vm_compute. discriminate.
Defined.

End ModelStoreFacts.

Module InferenceEngineFacts.
Import InferenceEngine.

(** The falsy values are [undefined], [null], [false], [0], [NaN] and the
    empty string. *)
Lemma falsy_values v :
  truthy v = false ↔
  v = VUndefined ∨ v = VNull ∨ v = VBool false ∨ v = VNaN ∨ v = VString EmptyString
  ∨ ∃ q, v = VNumber q ∧ (q == 0)%Q.
Proof.
  split.
  - destruct v as [| |b|q| |s|items|fields]; simpl; intros Hv; try done.
    + by left.
    + right. by left.
    + destruct b; [done|]. do 2 right. by left.
    + apply negb_false_iff, Qeq_bool_iff in Hv. do 5 right. by exists q.
    + do 3 right. by left.
    + apply negb_false_iff, String.eqb_eq in Hv as ->. do 4 right. by left.
  - intros [->|[->|[->|[->|[->|(q & -> & Hq)]]]]]; try done.
    simpl. apply negb_false_iff, Qeq_bool_iff, Hq.
Qed.

Lemma get_total raw name : nullish raw = false → ∃ v, get raw name = Some v.
Proof. destruct raw; simpl; try done; by eexists. Qed.

(** C9, as the code has it.  For every raw result other than [undefined]
    and [null], [postprocessResult] produces
    [{predictions, confidence, metadata: {modelVersion, processedAt}}] where
    [predictions] is [raw.predictions] when that value is truthy and the raw
    value itself otherwise, and [confidence] is [raw.confidence] when that
    value is truthy and [0.5] otherwise: a confidence that is present but
    falsy ([0], [NaN], [false], the empty string, [null]) is replaced by
    [0.5] as well. *)
Theorem postprocessResult_defaults_on_falsy
    (raw : value) (model : Model) (now : Z) :
  nullish raw = false →
  ∃ p c out,
    get raw "predictions" = Some p ∧ get raw "confidence" = Some c
    ∧ postprocessResult raw model now = Some out
    ∧ predictions out = (if truthy p then p else raw)
    ∧ confidence out = (if truthy c then c else VNumber (1 # 2))
    ∧ modelVersion (metadata out) = version model
    ∧ processedAt (metadata out) = now
    ∧ (∀ q, c = VNumber q → (q == 0)%Q → confidence out = VNumber (1 # 2)).
Proof.
  intros Hraw.
  destruct (get_total raw "predictions" Hraw) as [p Hp].
  destruct (get_total raw "confidence" Hraw) as [c Hc].
  unfold postprocessResult. rewrite Hp, Hc. simpl.
  do 3 eexists. repeat split; try done.
  intros q -> Hq. simpl. unfold or_else. simpl.
  apply Qeq_bool_iff in Hq. by rewrite Hq.
Qed.

Lemma postprocessResult_defaults_on_falsy_witness :
  ∃ p c out,
    get zero_confidence "predictions" = Some p
    ∧ get zero_confidence "confidence" = Some c
    ∧ postprocessResult zero_confidence onnx_model 0 = Some out
    ∧ predictions out = (if truthy p then p else zero_confidence)
    ∧ confidence out = (if truthy c then c else VNumber (1 # 2))
    ∧ modelVersion (metadata out) = version onnx_model
    ∧ processedAt (metadata out) = 0%Z
    ∧ (∀ q, c = VNumber q → (q == 0)%Q → confidence out = VNumber (1 # 2)).
Proof.
  apply (postprocessResult_defaults_on_falsy zero_confidence onnx_model 0).
  reflexivity.
Defined.

(** C9 as the specification words it fails when the confidence is present
    and is [0]: the code answers [0.5] where [raw.confidence ?? 0.5] is
    [0]. *)
Lemma postprocessResult_zero_confidence_counterexample :
  get zero_confidence "confidence" = Some (VNumber 0)
  ∧ (confidence <$> postprocessResult zero_confidence onnx_model 0)
    = Some (VNumber (1 # 2))
  ∧ (confidence <$> spec_postprocess zero_confidence onnx_model 0)
    = Some (VNumber 0)
  ∧ postprocessResult zero_confidence onnx_model 0
    ≠ spec_postprocess zero_confidence onnx_model 0.
Proof. repeat split; done. Qed.

(** Where the fields are absent or truthy, the code and the specification's
    wording agree. *)
Lemma postprocessResult_agrees_when_not_falsy raw model now p c :
  get raw "predictions" = Some p → get raw "confidence" = Some c →
  (truthy p = true ∨ nullish p = true) →
  (truthy c = true ∨ nullish c = true) →
  postprocessResult raw model now = spec_postprocess raw model now.
Proof.
  intros Hp Hc Hpt Hct. unfold postprocessResult, spec_postprocess.
  rewrite Hp, Hc. simpl. unfold or_else, coalesce.
  assert (∀ v d, truthy v = true ∨ nullish v = true →
                 (if truthy v then v else d) = (if nullish v then d else v)) as Hsame.
  { intros v d [Ht|Hn].
    - rewrite Ht. by destruct v.
    - by destruct v. }
  by rewrite (Hsame p raw Hpt), (Hsame c one_half Hct).
Qed.

End InferenceEngineFacts.

Module BalancerStrategyFacts.
Import Orchestrator.
Import LoadBalancer.
Local Open Scope Z_scope.

Lemma at_index_nonneg workers i :
  0 <= i → at_index workers i = workers !! Z.to_nat i.
Proof. intros Hi. unfold at_index. by destruct (Z.ltb_spec i 0); [lia|]. Qed.

Lemma at_index_elem workers i w : at_index workers i = Some w → w ∈ workers.
Proof.
  unfold at_index. destruct (i <? 0); [done|]. apply list_elem_of_lookup_2.
Qed.

(** *** Round robin *)

Lemma selectRoundRobin_step lb workers modelId :
  let n := Z.of_nat (length workers) in
  let index := default 0 (roundRobinIndex lb !! roundRobinKey modelId) in
  0 < n → 0 <= index →
  snd (selectRoundRobin lb workers modelId) = workers !! Z.to_nat (index `mod` n)
  ∧ roundRobinIndex (fst (selectRoundRobin lb workers modelId)) !! roundRobinKey modelId
    = Some ((index + 1) `mod` n).
Proof.
  intros n index Hn Hindex. unfold selectRoundRobin. fold n. fold index. simpl.
  destruct (Z.eqb_spec n 0); [lia|].
  rewrite !Z.rem_mod_nonneg by lia. rewrite lookup_insert_eq. split; [|done].
  apply at_index_nonneg. by apply Z.mod_pos_bound.
Qed.

Lemma roundRobinPicks_S lb workers modelId k :
  roundRobinPicks lb workers modelId (S k)
  = snd (selectRoundRobin lb workers modelId)
    :: roundRobinPicks (fst (selectRoundRobin lb workers modelId)) workers modelId k.
Proof. done. Qed.

(** X4.  Round robin rotates: with a non-empty candidate list of length
    [n] and a stored cursor [i] (not negative; [0] when the key is new), the
    [j]-th of [k] consecutive selections for the same key returns the
    candidate at position [(i + j) mod n], so [n] consecutive selections
    return every candidate once. *)
Theorem roundRobin_rotates
    (workers : list WorkerInfo) (modelId : option string) (k : nat) :
  ∀ (lb : t) (j : nat),
    workers ≠ [] →
    0 <= default 0 (roundRobinIndex lb !! roundRobinKey modelId) →
    (j < k)%nat →
    roundRobinPicks lb workers modelId k !! j
    = Some (workers !! Z.to_nat
              ((default 0 (roundRobinIndex lb !! roundRobinKey modelId) + Z.of_nat j)
               `mod` Z.of_nat (length workers))).
Proof.
  induction k as [|k IH]; intros lb j Hne Hindex Hj; [lia|].
  assert (0 < Z.of_nat (length workers)) as Hn by (destruct workers; [done|simpl; lia]).
  destruct (selectRoundRobin_step lb workers modelId Hn Hindex) as [Hpick Hnext].
  rewrite roundRobinPicks_S. destruct j as [|j].
  - change ((?x :: _) !! 0%nat) with (Some x). rewrite Hpick.
    change (Z.of_nat 0) with 0. by rewrite Z.add_0_r.
  - change ((_ :: ?l) !! S j) with (l !! j).
    rewrite (IH _ j Hne); [|rewrite Hnext; simpl; by apply Z.mod_pos_bound|lia].
    rewrite Hnext. simpl default. rewrite Zplus_mod_idemp_l.
    by replace (default 0 (roundRobinIndex lb !! roundRobinKey modelId) + 1 + Z.of_nat j)
      with (default 0 (roundRobinIndex lb !! roundRobinKey modelId) + Z.of_nat (S j)) by lia.
Qed.

Lemma roundRobin_rotates_witness :
  roundRobinPicks sample_balancer sample_candidates (Some "m1") 3 !! 2%nat
  = Some (sample_candidates !! Z.to_nat
            ((default 0 (roundRobinIndex sample_balancer !! roundRobinKey (Some "m1")) + 2)
             `mod` 2)).
Proof.
  apply (roundRobin_rotates sample_candidates (Some "m1") 3 sample_balancer 2).
  - discriminate.
  - vm_compute. discriminate.
  - lia.
Defined.

(** *** Least connections *)

Lemma less_loaded_choice lb least worker :
  less_loaded lb least worker = least ∨ less_loaded lb least worker = worker.
Proof.
  unfold less_loaded.
  destruct (workerStats lb !! id worker), (workerStats lb !! id least); auto.
  destruct (_ <? _); auto.
Qed.

Lemma fold_less_loaded_elem lb rest : ∀ first,
  fold_left (less_loaded lb) rest first ∈ first :: rest.
Proof.
  induction rest as [|w rest IH]; intros first; simpl; [by left|].
  destruct (less_loaded_choice lb first w) as [-> | ->].
  - specialize (IH first). apply elem_of_cons in IH as [->|?]; [by left|].
    by do 2 right.
  - right. apply IH.
Qed.

(** X5.  When every candidate has recorded stats, least-connections returns
    a candidate whose recorded [currentLoad] is minimal among the
    candidates. *)
Theorem leastConnections_is_minimal (lb : t) (workers : list WorkerInfo) :
  workers ≠ [] →
  (∀ w, w ∈ workers → is_Some (workerStats lb !! id w)) →
  ∃ chosen stats,
    selectLeastConnections lb workers = Some chosen
    ∧ chosen ∈ workers
    ∧ workerStats lb !! id chosen = Some stats
    ∧ ∀ w other, w ∈ workers → workerStats lb !! id w = Some other →
                 currentLoad stats <= currentLoad other.
Proof.
  destruct workers as [|first rest]; [done|]. intros _ Hstats. simpl.
  revert first Hstats. induction rest as [|w rest IH]; intros first Hstats; simpl.
  - destruct (Hstats first) as [stats Hs]; [by left|].
    exists first, stats. repeat split; [by left|done|].
    intros w other ->%list_elem_of_singleton Hother. assert (other = stats) by congruence.
    subst. lia.
  - destruct (Hstats first) as [fs Hfs]; [by left|].
    destruct (Hstats w) as [ws Hws]; [right; by left|].
    destruct (IH (less_loaded lb first w)) as (chosen & stats & Hsel & Hin & Hcs & Hmin).
    { intros x [->|Hx]%elem_of_cons.
      - destruct (less_loaded_choice lb first w) as [-> | ->]; by eexists.
      - apply Hstats. by do 2 right. }
    exists chosen, stats. split; [done|]. split.
    { apply elem_of_cons in Hin as [->|Hin].
      - destruct (less_loaded_choice lb first w) as [-> | ->]; [by left|right; by left].
      - by do 2 right. }
    split; [done|].
    assert (∃ ks, workerStats lb !! id (less_loaded lb first w) = Some ks
                  ∧ currentLoad ks <= currentLoad fs ∧ currentLoad ks <= currentLoad ws)
      as (ks & Hks & Hkf & Hkw).
    { unfold less_loaded. rewrite Hws, Hfs.
      destruct (Z.ltb_spec (currentLoad ws) (currentLoad fs)); eexists; split; try done; lia. }
    pose proof (Hmin _ ks ltac:(by left) Hks) as Hck.
    intros x other [->|[->|Hx]%elem_of_cons]%elem_of_cons Hother.
    + assert (other = fs) as -> by congruence. lia.
    + assert (other = ws) as -> by congruence. lia.
    + apply (Hmin x); [by right|done].
Qed.

Lemma leastConnections_is_minimal_witness :
  ∃ chosen stats,
    selectLeastConnections sample_balancer sample_candidates = Some chosen
    ∧ chosen ∈ sample_candidates
    ∧ workerStats sample_balancer !! id chosen = Some stats
    ∧ ∀ w other, w ∈ sample_candidates →
                 workerStats sample_balancer !! id w = Some other →
                 currentLoad stats <= currentLoad other.
Proof.
  apply (leastConnections_is_minimal sample_balancer sample_candidates).
  - discriminate.
  - intros w Hw. unfold sample_candidates in Hw.
    apply elem_of_cons in Hw as [->|Hw]; [eexists; vm_compute; reflexivity|].
    apply list_elem_of_singleton in Hw as ->. eexists; vm_compute; reflexivity.
Defined.

(** *** What a balancer in use looks like *)

Lemma selectWorker_stats lb workers modelId rnd :
  workerStats (fst (selectWorker lb workers modelId rnd)) = workerStats lb.
Proof.
  unfold selectWorker. destruct workers as [|w [|w' ws]]; try done.
  repeat (destruct (String.eqb _ _); [done|]). done.
Qed.

Lemma selectWorker_cursors lb workers modelId rnd :
  (∀ key index, roundRobinIndex lb !! key = Some index → 0 <= index) →
  ∀ key index,
    roundRobinIndex (fst (selectWorker lb workers modelId rnd)) !! key = Some index →
    0 <= index.
Proof.
  intros Hinv key index. unfold selectWorker.
  destruct workers as [|w [|w' ws]]; [apply Hinv..|].
  repeat (destruct (String.eqb _ _); [apply Hinv|]).
  unfold selectRoundRobin. simpl.
  destruct (decide (roundRobinKey modelId = key)) as [<-|Hne].
  - rewrite lookup_insert_eq. intros [= <-].
    set (i := default 0 (roundRobinIndex lb !! roundRobinKey modelId)).
    assert (0 <= i).
    { unfold i. destruct (roundRobinIndex lb !! roundRobinKey modelId) eqn:Hi; simpl; [|done].
      by eapply Hinv. }
    apply Z.rem_nonneg; lia.
  - rewrite lookup_insert_ne by done. apply Hinv.
Qed.

Lemma lb_step_inv lb ev : lb_inv lb → lb_inv (lb_step lb ev).
Proof.
  intros [Hcur Hload]. destruct ev as [w|wid|wid stats now|workers modelId rnd]; simpl.
  - split; simpl.
    + intros key index [[_ <-]|[_ ?]]%lookup_insert_Some; [done|by eapply Hcur].
    + intros k st [[_ <-]|[_ ?]]%lookup_insert_Some; [done|by eapply Hload].
  - split; simpl.
    + intros key index [_ ?]%lookup_delete_Some. by eapply Hcur.
    + intros k st [_ ?]%lookup_delete_Some. by eapply Hload.
  - unfold updateWorkerStats. destruct (workerStats lb !! wid) as [cur|] eqn:Hcurst; [|done].
    split; simpl; [done|].
    intros k st [[_ <-]|[_ ?]]%lookup_insert_Some; simpl; by eapply Hload.
  - split.
    + by apply selectWorker_cursors.
    + by rewrite selectWorker_stats.
Qed.

Lemma lb_run_inv strategy evs : lb_inv (lb_run (create strategy) evs).
Proof.
  unfold lb_run. induction evs as [|ev evs IH] using rev_ind.
  - split; intros ? ?; simpl; by rewrite lookup_empty.
  - rewrite fold_left_app. simpl. by apply lb_step_inv.
Qed.

(** X6.  The balancer never moves a recorded [currentLoad] away from [0]
    ([addWorker] sets it, nothing updates it), so on every balancer that has
    only been used through its methods least-connections returns the first
    candidate, whatever the traffic has been. *)
Theorem leastConnections_returns_first
    (strategy : option string) (evs : list lb_event) (workers : list WorkerInfo) :
  selectLeastConnections (lb_run (create strategy) evs) workers = head workers.
Proof.
  destruct (lb_run_inv strategy evs) as [_ Hload].
  destruct workers as [|first rest]; [done|]. simpl. f_equal.
  induction rest as [|w rest IH]; simpl; [done|].
  assert (less_loaded (lb_run (create strategy) evs) first w = first) as ->; [|done].
  unfold less_loaded.
  destruct (workerStats _ !! id w) as [ws|] eqn:Hw; [|done].
  destruct (workerStats _ !! id first) as [fs|] eqn:Hf; [|done].
  by rewrite (Hload _ _ Hw), (Hload _ _ Hf).
Qed.

(** *** Random *)

Lemma random_index_in_range (n : Z) (rnd : Q) :
  0 < n → (0 <= rnd)%Q → (rnd < 1)%Q → 0 <= Qfloor (rnd * inject_Z n) < n.
Proof.
  intros Hn H0 H1.
  assert (0 < inject_Z n)%Q as HnQ by (rewrite <- (Zlt_Qlt 0); done).
  set (x := (rnd * inject_Z n)%Q).
  assert (0 <= x)%Q as Hx0 by (unfold x; nra).
  assert (x < inject_Z n)%Q as Hxn by (unfold x; nra).
  pose proof (Qfloor_le x) as Hfl. split.
  - change 0 with (Qfloor 0). by apply Qfloor_resp_le.
  - rewrite Zlt_Qlt. eapply Qle_lt_trans; done.
Qed.

Lemma selectRandom_elem (workers : list WorkerInfo) (rnd : Q) :
  workers ≠ [] → (0 <= rnd)%Q → (rnd < 1)%Q →
  ∃ w, selectRandom workers rnd = Some w ∧ w ∈ workers.
Proof.
  intros Hne H0 H1.
  assert (0 < Z.of_nat (length workers)) as Hn by (destruct workers; [done|simpl; lia]).
  destruct (random_index_in_range _ rnd Hn H0 H1) as [Hi0 Hin].
  destruct (lookup_lt_is_Some_2 workers
              (Z.to_nat (Qfloor (rnd * inject_Z (Z.of_nat (length workers))))))
    as [w Hw]; [lia|].
  exists w. unfold selectRandom. rewrite at_index_nonneg by done.
  split; [done|]. by eapply list_elem_of_lookup_2.
Qed.



(** *** [selectWorker] *)

Lemma draw_elem (wws : list (WorkerInfo * Q)) : ∀ x w,
  draw wws x = Some w → w ∈ map fst wws.
Proof.
  induction wws as [|[w0 wt0] wws IH]; intros x w; simpl; [done|].
  destruct (Qle_bool _ _).
  - intros [= <-]. by left.
  - intros Hw. right. by eapply IH.
Qed.

Lemma selectWeighted_elem lb workers rnd w :
  selectWeighted lb workers rnd = Some w → w ∈ workers.
Proof.
  unfold selectWeighted.
  destruct (draw _ _) as [w'|] eqn:Hdraw.
  - intros [= <-]. apply draw_elem in Hdraw.
    unfold weightedWorkers in Hdraw. rewrite map_map in Hdraw. simpl in Hdraw.
    by rewrite map_id in Hdraw.
  - destruct workers; [done|]. intros [= <-]. by left.
Qed.

Lemma selectWorker_picks_candidate lb workers modelId rnd :
  (∀ key index, roundRobinIndex lb !! key = Some index → 0 <= index) →
  (0 <= rnd)%Q → (rnd < 1)%Q → workers ≠ [] →
  ∃ w, snd (selectWorker lb workers modelId rnd) = Selected (Some w) ∧ w ∈ workers.
Proof.
  intros Hcur H0 H1 Hne. unfold selectWorker.
  destruct workers as [|w1 [|w2 rest]] eqn:Hws; [done| |].
  { exists w1. split; [done|by left]. }
  rewrite <- Hws in *. clear Hws.
  destruct (String.eqb _ _).
  { simpl. destruct workers as [|first more] eqn:Hws; [done|]. simpl.
    eexists. split; [done|]. apply fold_less_loaded_elem. }
  destruct (String.eqb _ _).
  { simpl. destruct (selectWeighted lb workers rnd) as [w|] eqn:Hsel.
    - exists w. split; [done|]. by eapply selectWeighted_elem.
    - unfold selectWeighted in Hsel. destruct (draw _ _); [done|].
      by destruct workers. }
  destruct (String.eqb _ _).
  { simpl. destruct (selectRandom_elem workers rnd Hne H0 H1) as (w & Hsel & Hin).
    exists w. split; [by rewrite Hsel|done]. }
  assert (0 < Z.of_nat (length workers)) as Hn by (destruct workers; [done|simpl; lia]).
  assert (0 <= default 0 (roundRobinIndex lb !! roundRobinKey modelId)) as Hindex.
  { destruct (roundRobinIndex lb !! roundRobinKey modelId) eqn:Hi; simpl; [|done].
    by eapply Hcur. }
  destruct (selectRoundRobin_step lb workers modelId Hn Hindex) as [Hpick _].
  destruct (selectRoundRobin lb workers modelId) as [lb' picked]. simpl in *.
  destruct (lookup_lt_is_Some_2 workers
              (Z.to_nat (default 0 (roundRobinIndex lb !! roundRobinKey modelId)
                         `mod` Z.of_nat (length workers)))) as [w Hw].
  { pose proof (Z.mod_pos_bound
                  (default 0 (roundRobinIndex lb !! roundRobinKey modelId))
                  (Z.of_nat (length workers)) Hn). lia. }
  exists w. split; [by rewrite Hpick, Hw|]. by eapply list_elem_of_lookup_2.
Qed.

(** X8.  On a balancer that has only been used through its methods,
    whatever the configured strategy, [selectWorker] over a non-empty
    candidate list (with a draw [0 ≤ rnd < 1]) returns one of the
    candidates, never [undefined] and never a worker outside the list; a
    single candidate is returned without consulting the strategy, and an
    empty list is the only way to get [ERR_NO_WORKERS_AVAILABLE]. *)
Theorem selectWorker_returns_a_candidate
    (strategy : option string) (evs : list lb_event)
    (workers : list WorkerInfo) (modelId : option string) (rnd : Q) :
  (0 <= rnd)%Q → (rnd < 1)%Q →
  let lb := lb_run (create strategy) evs in
  (workers = [] ↔ snd (selectWorker lb workers modelId rnd) = ERR_NO_WORKERS_AVAILABLE)
  ∧ (∀ only, workers = [only] →
       selectWorker lb workers modelId rnd = (lb, Selected (Some only)))
  ∧ (workers ≠ [] →
     ∃ w, snd (selectWorker lb workers modelId rnd) = Selected (Some w) ∧ w ∈ workers).
Proof.
  intros H0 H1 lb. destruct (lb_run_inv strategy evs) as [Hcur _]. fold lb in Hcur.
  pose proof (selectWorker_picks_candidate lb workers modelId rnd Hcur H0 H1) as Hsome.
  split; [|split; [|done]].
  - split; [by intros ->|]. intros Herr.
    destruct workers as [|w ws]; [done|].
    destruct Hsome as (w' & Hsel & _); [done|]. congruence.
  - by intros only ->.
Qed.

Lemma selectWorker_returns_a_candidate_witness :
  ∃ w, snd (selectWorker (lb_run (create (Some "random")) [])
              sample_candidates (Some "m1") (3 # 4)) = Selected (Some w)
       ∧ w ∈ sample_candidates.
Proof.
  refine (proj2 (proj2 (selectWorker_returns_a_candidate (Some "random") []
                          sample_candidates (Some "m1") (3 # 4) _ _)) _).
  - vm_compute. discriminate.
  - vm_compute. reflexivity.
  - discriminate.
Defined.

(** *** Statistics *)

Lemma updateWorkerStats_completion lb wid cur p ok now :
  workerStats lb !! wid = Some cur →
  ∃ next,
    workerStats (updateWorkerStats lb wid (completion p ok) now) !! wid = Some next
    ∧ requestCount next = requestCount cur + 1
    ∧ successCount next = successCount cur + (if ok then 1 else 0)
    ∧ failureCount next = failureCount cur + (if ok then 0 else 1)
    ∧ currentLoad next = currentLoad cur
    ∧ (totalProcessingTime next == totalProcessingTime cur + p)%Q.
Proof.
  intros Hcur. unfold updateWorkerStats. rewrite Hcur. simpl.
  rewrite lookup_insert_eq. eexists. split; [done|]. simpl.
  repeat split; try (destruct ok; simpl; lia).
  destruct (Qeq_bool p 0) eqn:Hp; simpl; [|reflexivity].
  apply Qeq_bool_iff in Hp. rewrite Hp. ring.
Qed.

(** X9.  Recording completions the way [routeInferenceRequest] does
    ([requestCount: 1], a processing time, a success flag) keeps the counters
    of a known worker exact: [requestCount] grows by the number of
    completions, [successCount] and [failureCount] by the numbers of
    successes and failures, [totalProcessingTime] by the sum of the times,
    and [currentLoad] is left alone. *)
Theorem recordCompletions_counts
    (lb : t) (workerId : string) (cur : WorkerStats) (done : list (Q * bool * Z)) :
  workerStats lb !! workerId = Some cur →
  ∃ final,
    workerStats (recordCompletions lb workerId done) !! workerId = Some final
    ∧ requestCount final = requestCount cur + Z.of_nat (length done)
    ∧ successCount final
      = successCount cur + Z.of_nat (length (filter (λ c, c.1.2 = true) done))
    ∧ failureCount final
      = failureCount cur + Z.of_nat (length (filter (λ c, c.1.2 = false) done))
    ∧ currentLoad final = currentLoad cur
    ∧ (totalProcessingTime final
       == totalProcessingTime cur + fold_right (λ c sum, c.1.1 + sum) 0 done)%Q.
Proof.
  unfold recordCompletions. revert lb cur.
  induction done as [|[[p ok] now] done IH]; intros lb cur Hcur; simpl.
  - exists cur. repeat split; try lia; try done. ring.
  - destruct (updateWorkerStats_completion lb workerId cur p ok now Hcur)
      as (next & Hnext & Hreq & Hsucc & Hfail & Hload & Htotal).
    destruct (IH _ next Hnext) as (final & Hfinal & Hr & Hs & Hf & Hl & Ht).
    exists final. split; [done|].
    rewrite Hr, Hs, Hf, Hl, Hreq, Hsucc, Hfail, Hload.
    destruct ok.
    + rewrite (filter_cons_True (λ c, c.1.2 = true)) by done.
      rewrite (filter_cons_False (λ c, c.1.2 = false)) by done.
      simpl length. repeat split; try lia. rewrite Ht, Htotal. simpl. ring.
    + rewrite (filter_cons_False (λ c, c.1.2 = true)) by done.
      rewrite (filter_cons_True (λ c, c.1.2 = false)) by done.
      simpl length. repeat split; try lia. rewrite Ht, Htotal. simpl. ring.
Qed.

Lemma recordCompletions_counts_witness :
  ∃ final,
    workerStats (recordCompletions sample_balancer "A" [(250%Q, true, 5%Z)]) !! "A"
      = Some final
    ∧ requestCount final = requestCount fresh_stats + 1
    ∧ successCount final = successCount fresh_stats + 1
    ∧ failureCount final = failureCount fresh_stats + 0
    ∧ currentLoad final = currentLoad fresh_stats
    ∧ (totalProcessingTime final == totalProcessingTime fresh_stats + (250 + 0))%Q.
Proof.
  apply (recordCompletions_counts sample_balancer "A" fresh_stats [(250%Q, true, 5%Z)]).
  vm_compute. reflexivity.
Defined.

End BalancerStrategyFacts.

Module DiscoveryFacts.
Import Orchestrator.
Import ServiceRegistry.
Local Open Scope Z_scope.

Lemma elem_of_active_workers r ids w :
  w ∈ active_workers r ids ↔
  ∃ wid, wid ∈ ids ∧ workers r !! wid = Some w ∧ status w = "active".
Proof.
  unfold active_workers. rewrite list_elem_of_omap. split.
  - intros (wid & Hin & Hf). exists wid. split; [done|].
    destruct (workers r !! wid) as [w'|]; [|done].
    destruct (String.eqb_spec (status w') "active"); [|done].
    by injection Hf as <-.
  - intros (wid & Hin & Hw & Hs). exists wid. split; [done|].
    rewrite Hw, Hs. done.
Qed.

(** X10.  Whatever the state of the registry, [getWorkersForModel] and
    [getWorkersByCapability] only return workers that are stored in
    [workers] under an id listed in the index entry asked for, and whose
    [status] is [active]. *)
Theorem lookups_return_registered_active_workers (r : t) (key : string) (w : WorkerInfo) :
  (w ∈ getWorkersForModel r key →
   status w = "active"
   ∧ ∃ wid ids, modelIndex r !! key = Some ids ∧ wid ∈ ids ∧ workers r !! wid = Some w)
  ∧ (w ∈ getWorkersByCapability r key →
     status w = "active"
     ∧ ∃ wid ids, capabilityIndex r !! key = Some ids ∧ wid ∈ ids
                  ∧ workers r !! wid = Some w).
Proof.
  unfold getWorkersForModel, getWorkersByCapability.
  split; intros (wid & Hin & Hw & Hs)%elem_of_active_workers; (split; [done|]).
  - destruct (modelIndex r !! key) as [ids|]; simpl in Hin; [by exists wid, ids|].
    by apply elem_of_nil in Hin.
  - destruct (capabilityIndex r !! key) as [ids|]; simpl in Hin; [by exists wid, ids|].
    by apply elem_of_nil in Hin.
Qed.






Lemma index_add_keeps wid index k key ids x :
  index !! key = Some ids → x ∈ ids →
  ∃ ids', index_add wid index k !! key = Some ids' ∧ x ∈ ids'.
Proof.
  intros Hl Hx. unfold index_add. destruct (decide (k = key)) as [->|Hne].
  - rewrite lookup_insert_eq, Hl. simpl. eexists. split; [done|].
    apply OrchestratorFacts.elem_of_set_add. by right.
  - rewrite lookup_insert_ne by done. by exists ids.
Qed.

Lemma foldl_index_add_has wid keys : ∀ index key,
  key ∈ keys →
  ∃ ids, foldl (index_add wid) index keys !! key = Some ids ∧ wid ∈ ids.
Proof.
  assert (∀ keys index key ids x,
            index !! key = Some ids → x ∈ ids →
            ∃ ids', foldl (index_add wid) index keys !! key = Some ids' ∧ x ∈ ids')
    as Hkeeps.
  { clear keys. induction keys as [|k keys IH]; intros index key ids x Hl Hx; simpl.
    - by exists ids.
    - destruct (index_add_keeps wid index k key ids x Hl Hx) as (ids' & Hl' & Hx').
      by eapply IH. }
  induction keys as [|k keys IH]; intros index key Hin; [by apply elem_of_nil in Hin|].
  simpl. apply elem_of_cons in Hin as [->|Hin]; [|by apply IH].
  apply (Hkeeps keys _ k (set_add wid (default [] (index !! k)))).
  - unfold index_add. by rewrite lookup_insert_eq.
  - apply OrchestratorFacts.elem_of_set_add. by left.
Qed.

(** X12.  A registration is visible at once: right after
    [registerWorker], the worker is returned by [getWorkersForModel] for
    every model of its [capabilities.models], and by
    [getWorkersByCapability] for every tag of an array of capabilities,
    whatever the orchestrator held before. *)
Theorem registered_worker_is_found
    (o : Orchestrator.t) (wid addr : string) (c : capabilities) (now : Z) (key : string) :
  key ∈ model_keys c ∨ key ∈ capability_keys c →
  let r := serviceRegistry (Orchestrator.registerWorker o wid addr c now) in
  let info := {| id := wid; address := addr; caps := c; registeredAt := now;
                 lastSeen := now; status := "active" |} in
  workers r !! wid = Some info
  ∧ (key ∈ model_keys c → info ∈ getWorkersForModel r key)
  ∧ (key ∈ capability_keys c → info ∈ getWorkersByCapability r key).
Proof.
  intros _ r info.
  assert (workers r !! wid = Some info) as Hw by (unfold r; simpl; by rewrite lookup_insert_eq).
  split; [done|]. split; intros Hkey.
  - destruct (foldl_index_add_has wid (model_keys c)
                (modelIndex (serviceRegistry o)) key Hkey) as (ids & Hids & Hin).
    apply elem_of_active_workers. exists wid.
    unfold r. simpl. rewrite Hids. simpl. by rewrite lookup_insert_eq.
  - destruct (foldl_index_add_has wid (capability_keys c)
                (capabilityIndex (serviceRegistry o)) key Hkey) as (ids & Hids & Hin).
    apply elem_of_active_workers. exists wid.
    unfold r. simpl. rewrite Hids. simpl. by rewrite lookup_insert_eq.
Qed.

Lemma registered_worker_is_found_witness :
  let r := serviceRegistry
             (Orchestrator.registerWorker two_workers "W3" "10.0.0.3" (CapObject (Some ["m1"; "m2"])) 7) in
  let info := {| id := "W3"; address := "10.0.0.3"; caps := CapObject (Some ["m1"; "m2"]);
                 registeredAt := 7; lastSeen := 7; status := "active" |} in
  workers r !! "W3" = Some info
  ∧ ("m2" ∈ model_keys (CapObject (Some ["m1"; "m2"])) → info ∈ getWorkersForModel r "m2")
  ∧ ("m2" ∈ capability_keys (CapObject (Some ["m1"; "m2"]))
     → info ∈ getWorkersByCapability r "m2").
Proof.
  apply (registered_worker_is_found two_workers "W3" "10.0.0.3"
           (CapObject (Some ["m1"; "m2"])) 7 "m2").
  left. simpl. right. left.
Defined.

Lemma active_workers_cons r k ids :
  active_workers r (k :: ids)
  = match workers r !! k with
    | Some w =>
        if String.eqb (status w) "active" then w :: active_workers r ids
        else active_workers r ids
    | None => active_workers r ids
    end.
Proof.
  unfold active_workers. simpl.
  destruct (workers r !! k) as [w|]; [|done]. by destruct (String.eqb _ _).
Qed.

Lemma active_workers_after_status r wid worker s now ids :
  keyed_by_id r → workers r !! wid = Some worker → s ≠ "active" →
  active_workers
    {| workers := <[wid := assign_updates worker (only_status s) now]> (workers r);
       modelIndex := modelIndex r; capabilityIndex := capabilityIndex r |} ids
  = filter (λ w, id w ≠ wid) (active_workers r ids).
Proof.
  intros Hk Hw Hs.
  induction ids as [|k ids IH]; [done|].
  rewrite !active_workers_cons. cbn [workers].
  destruct (decide (k = wid)) as [->|Hne].
  - rewrite lookup_insert_eq, Hw. cbn [status assign_updates only_status new_status default].
    simpl default. unfold Datatypes.id.
    destruct (String.eqb_spec s "active"); [by destruct Hs|]. rewrite IH.
    destruct (String.eqb (status worker) "active"); [|done].
    rewrite filter_cons_False; [done|]. rewrite (Hk _ _ Hw). by intros ?.
  - rewrite lookup_insert_ne by done.
    destruct (workers r !! k) as [w|] eqn:Hwk; [|done].
    destruct (String.eqb (status w) "active"); [|done].
    rewrite filter_cons_True; [by rewrite IH|]. by rewrite (Hk _ _ Hwk).
Qed.

(** X13.  [updateWorkerStatus] is the registry's switch for selection: it
    throws [ERR_WORKER_NOT_FOUND] exactly for an unknown id; setting a status
    other than [active] removes exactly that worker from the answers of
    [getWorkersForModel] and [getWorkersByCapability] (all others stay, in
    order), and [lastSeen] is stamped with the current time. *)
Theorem updateWorkerStatus_hides_inactive_worker
    (r : t) (wid s : string) (now : Z) :
  keyed_by_id r → s ≠ "active" →
  (updateWorkerStatus r wid (only_status s) now = None ↔ workers r !! wid = None)
  ∧ ∀ r', updateWorkerStatus r wid (only_status s) now = Some r' →
      (lastSeen <$> workers r' !! wid) = Some now
      ∧ (status <$> workers r' !! wid) = Some s
      ∧ ∀ key,
          getWorkersForModel r' key
          = filter (λ w, id w ≠ wid) (getWorkersForModel r key)
          ∧ getWorkersByCapability r' key
            = filter (λ w, id w ≠ wid) (getWorkersByCapability r key).
Proof.
  intros Hk Hs. unfold updateWorkerStatus.
  destruct (workers r !! wid) as [worker|] eqn:Hw; [|done].
  split; [done|]. intros r' [= <-]. simpl. rewrite lookup_insert_eq. simpl.
  split; [done|]. split; [done|]. intros key.
  unfold getWorkersForModel, getWorkersByCapability. simpl.
  split; by apply active_workers_after_status.
Qed.

Lemma updateWorkerStatus_hides_inactive_worker_witness :
  (updateWorkerStatus (serviceRegistry two_workers) "W1" (only_status "unhealthy") 9 = None
   ↔ workers (serviceRegistry two_workers) !! "W1" = None)
  ∧ ∀ r', updateWorkerStatus (serviceRegistry two_workers) "W1"
            (only_status "unhealthy") 9 = Some r' →
      (lastSeen <$> workers r' !! "W1") = Some 9
      ∧ (status <$> workers r' !! "W1") = Some "unhealthy"
      ∧ ∀ key,
          getWorkersForModel r' key
          = filter (λ w, id w ≠ "W1") (getWorkersForModel (serviceRegistry two_workers) key)
          ∧ getWorkersByCapability r' key
            = filter (λ w, id w ≠ "W1")
                (getWorkersByCapability (serviceRegistry two_workers) key).
Proof.
  apply (updateWorkerStatus_hides_inactive_worker (serviceRegistry two_workers)
           "W1" "unhealthy" 9).
  - refine (bool_decide_unpack
              (map_Forall (λ key worker, id worker = key)
                 (workers (serviceRegistry two_workers))) _).
    vm_compute. exact I.
  - discriminate.
Defined.

Lemma fresh_registrations_keep_indices_consistent_witness :
  index_consistent (serviceRegistry (run (create None) come_and_go)).
Proof.
  apply (OrchestratorFacts.fresh_registrations_keep_indices_consistent None come_and_go).
  simpl. repeat split; by vm_compute.
Defined.

(** *** Requirements and [findAvailableWorker] *)


Lemma filter_keeps workers requirements : ∀ kept,
  filterWorkersByRequirements workers requirements = Some kept →
  kept `sublist_of` workers
  ∧ ∀ w, w ∈ kept ↔ w ∈ workers ∧ meets_requirements requirements w = Some true.
Proof.
  induction workers as [|w ws IH]; simpl; intros kept Hkept.
  - injection Hkept as <-. split; [done|]. intros x. split; [by intros ?%elem_of_nil|].
    by intros [?%elem_of_nil _].
  - destruct (meets_requirements requirements w) as [keep|] eqn:Hw; [|done]. simpl in Hkept.
    destruct (filterWorkersByRequirements ws requirements) as [kept'|]; [|done].
    simpl in Hkept. injection Hkept as <-.
    destruct (IH kept' eq_refl) as [Hsub Hiff]. destruct keep.
    + split; [by apply sublist_skip|]. intros x. rewrite !elem_of_cons, Hiff. split.
      * intros [->|[? ?]]; [by split; [left|]|by split; [right|]].
      * intros [[->|?] ?]; [by left|by right].
    + split; [by apply sublist_cons|]. intros x. rewrite elem_of_cons, Hiff. split.
      * intros [? ?]. by split; [right|].
      * intros [[->|?] ?]; [congruence|done].
Qed.


(** X16.  [findAvailableWorker] of the standalone orchestrator, on a
    balancer whose cursors are not negative and with a draw [0 ≤ rnd < 1]:
    it fails with "no workers available" exactly when no active worker is
    indexed under the model; when it succeeds, the worker it returns is one
    of the active workers registered for that model and meets the
    requirements; it never changes the registry or the health monitor, and
    the selection never comes back [undefined]. *)
Theorem findAvailableWorker_returns_an_eligible_worker
    (o : Orchestrator.t) (modelId : string) (requirements : Requirements) (rnd : Q) :
  (∀ key index,
     LoadBalancer.roundRobinIndex (loadBalancer o) !! key = Some index → 0 <= index) →
  (0 <= rnd)%Q → (rnd < 1)%Q →
  let candidates := getWorkersForModel (serviceRegistry o) modelId in
  let outcome := findAvailableWorker o modelId requirements rnd in
  serviceRegistry (fst outcome) = serviceRegistry o
  ∧ healthMonitor (fst outcome) = healthMonitor o
  ∧ (snd outcome = NoWorkersAvailable ↔ candidates = [])
  ∧ (snd outcome = ThrewTypeError
     ↔ candidates ≠ [] ∧ filterWorkersByRequirements candidates requirements = None)
  ∧ (snd outcome = NoWorkersMatchRequirements
     ↔ candidates ≠ [] ∧ filterWorkersByRequirements candidates requirements = Some [])
  ∧ ∀ w, snd outcome = Found w →
         w ∈ candidates ∧ status w = "active"
         ∧ meets_requirements requirements w = Some true.
Proof.
  intros Hcur H0 H1 candidates outcome. unfold outcome, findAvailableWorker. fold candidates.
  destruct candidates as [|c cs] eqn:Hc.
  { simpl. repeat split; try done; by intros [? _]. }
  rewrite <- Hc. assert (candidates ≠ []) as Hne by (rewrite Hc; done).
  destruct (filterWorkersByRequirements candidates requirements) as [kept|] eqn:Hf.
  2:{ simpl. repeat split; try done. by intros [_ ?]. }
  destruct kept as [|k ks] eqn:Hk.
  { simpl. repeat split; try done. by intros [_ ?]. }
  rewrite <- Hk in *. assert (kept ≠ []) as Hkne by (rewrite Hk; done).
  destruct (BalancerStrategyFacts.selectWorker_picks_candidate
              (loadBalancer o) kept (Some modelId) rnd Hcur H0 H1 Hkne) as (w & Hsel & Hw).
  destruct (LoadBalancer.selectWorker (loadBalancer o) kept (Some modelId) rnd)
    as [lb sel]. simpl in Hsel. subst sel. simpl.
  destruct (filter_keeps _ _ _ Hf) as [_ Hiff]. apply Hiff in Hw as [Hw Hmeets].
  split; [done|]. split; [done|].
  split; [split; [done|by rewrite Hc]|].
  split; [split; [done|by intros [_ ?]]|].
  split; [split; [done|intros [_ [=]]; by subst]|].
  intros w' [= <-]. split; [done|]. split; [|done].
  unfold candidates, getWorkersForModel in Hw.
  by apply elem_of_active_workers in Hw as (wid & _ & _ & Hactive).
Qed.

Lemma findAvailableWorker_returns_an_eligible_worker_witness :
  snd (findAvailableWorker two_workers "m1" no_requirements (1 # 4)) = NoWorkersAvailable
  ↔ getWorkersForModel (serviceRegistry two_workers) "m1" = [].
Proof.
  refine (proj1 (proj2 (proj2
    (findAvailableWorker_returns_an_eligible_worker two_workers "m1" no_requirements
       (1 # 4) _ _ _)))).
  - refine (bool_decide_unpack
              (map_Forall (λ _ index, 0 <= index)
                 (LoadBalancer.roundRobinIndex (loadBalancer two_workers))) _).
    vm_compute. exact I.
  - vm_compute. discriminate.
  - vm_compute. reflexivity.
Defined.

End DiscoveryFacts.

Module HealthMonitorFacts.
Import Orchestrator.
Import HealthMonitor.
Local Open Scope Z_scope.

Lemma trailing_failures_snoc outcomes p :
  trailing_failures (outcomes ++ [p])
  = if failed_probe p then S (trailing_failures outcomes) else O.
Proof. unfold trailing_failures. by rewrite reverse_snoc. Qed.

Lemma three_in_a_row_snoc outcomes p :
  three_failures_in_a_row (outcomes ++ [p])
  ↔ three_failures_in_a_row outcomes
    ∨ (failed_probe p = true ∧ (2 <= trailing_failures outcomes)%nat).
Proof.
  split.
  - intros (before & a & b & c & after & Heq & Ha & Hb & Hc).
    destruct after as [|x after _] using rev_ind.
    + right. replace (before ++ [a; b; c] ++ []) with ((before ++ [a; b]) ++ [c]) in Heq
        by (by rewrite <- app_assoc).
      apply app_inj_tail in Heq as [-> ->]. split; [done|].
      unfold trailing_failures. rewrite reverse_app. simpl. rewrite Hb, Ha. lia.
    + left. replace (before ++ [a; b; c] ++ after ++ [x])
        with ((before ++ [a; b; c] ++ after) ++ [x]) in Heq
        by (by rewrite <- !app_assoc).
      apply app_inj_tail in Heq as [-> _]. by exists before, a, b, c, after.
  - intros [(before & a & b & c & after & -> & Ha & Hb & Hc)|[Hp Hstreak]].
    + exists before, a, b, c, (after ++ [p]). split; [|done]. by rewrite <- !app_assoc.
    + unfold trailing_failures in Hstreak.
      destruct (reverse outcomes) as [|b [|a rest]] eqn:Hrev; simpl in Hstreak; [lia| |].
      { destruct (failed_probe b); simpl in Hstreak; lia. }
      destruct (failed_probe b) eqn:Hb; [|lia].
      destruct (failed_probe a) eqn:Ha; [|lia].
      exists (reverse rest), a, b, p, []. split; [|done].
      rewrite <- (reverse_involutive outcomes), Hrev. rewrite !reverse_cons.
      by rewrite <- !app_assoc.
Qed.

(** X17.  The health record of a worker after any sequence of probes since
    [startMonitoring]: [totalChecks] is the number of probes,
    [successfulChecks] the number that passed, [consecutiveFailures] the
    number of failures at the end of the sequence; and the status is
    [unhealthy] exactly when three probes in a row have failed at some point,
    [healthy] otherwise.  In particular no later success ever brings an
    [unhealthy] record back to [healthy]. *)
Theorem health_record_after_probes
    (hm : t) (workerId address : string) (now : Z)
    (outcomes : list (settled unit * Z * Z)) :
  ∃ record,
    monitoredWorkers (probes (startMonitoring hm workerId address now) workerId outcomes)
      !! workerId = Some record
    ∧ totalChecks record = Z.of_nat (length outcomes)
    ∧ successfulChecks record
      = Z.of_nat (length (filter (λ p, failed_probe p = false) outcomes))
    ∧ consecutiveFailures record = Z.of_nat (trailing_failures outcomes)
    ∧ (mon_status record = "unhealthy" ↔ three_failures_in_a_row outcomes)
    ∧ (mon_status record = "healthy" ∨ mon_status record = "unhealthy").
Proof.
  induction outcomes as [|[[probe t0] t1] outcomes IH] using rev_ind.
  - simpl. rewrite lookup_insert_eq. eexists. repeat split; try done.
    + intros (before & a & b & c & after & Heq & _).
      by destruct before.
    + by left.
  - destruct IH as (record & Hrec & Htotal & Hpassed & Hstreak & Hstatus & Hkind).
    pose proof (trailing_failures_snoc outcomes (probe, t0, t1)) as Htrail.
    pose proof (three_in_a_row_snoc outcomes (probe, t0, t1)) as Hrow.
    destruct probe as [[]|msg];
      unfold failed_probe in Htrail at 1; unfold failed_probe in Hrow at 1;
      simpl in Htrail, Hrow;
      unfold probes in *; rewrite fold_left_app; simpl;
      unfold performHealthCheck at 1; rewrite Hrec;
      rewrite filter_app, !length_app;
      simpl; rewrite lookup_insert_eq; eexists; (split; [done|]); simpl.
    + rewrite Htrail.
      split; [lia|]. split; [lia|]. split; [done|]. split; [|done].
      rewrite Hrow, Hstatus. split; [by left|]. by intros [?|[? _]].
    + rewrite Htrail.
      split; [lia|]. split; [lia|]. split; [lia|].
      destruct (Z.leb_spec 3 (consecutiveFailures record + 1)).
      * split; [|by right]. rewrite Hrow. split; [|done]. intros _. right. split; [done|lia].
      * split; [|done]. rewrite Hrow, Hstatus. split; [by left|].
        intros [?|[_ ?]]; [done|lia].
Qed.

End HealthMonitorFacts.

Module GatewayFacts.
Import ApiGateway.
Local Open Scope Z_scope.

#[local] Arguments checkRateLimit : simpl never.
#[local] Arguments rateLimitCleanup : simpl never.

Lemma run_request rateLimit rl clientId now rest :
  run rateLimit rl (Request clientId now :: rest)
  = (fst (run rateLimit (snd (checkRateLimit rateLimit rl clientId now)) rest),
     (clientId, fst (checkRateLimit rateLimit rl clientId now))
     :: snd (run rateLimit (snd (checkRateLimit rateLimit rl clientId now)) rest)).
Proof.
  simpl. destruct (checkRateLimit rateLimit rl clientId now) as [allowed rl'].
  simpl. by destruct (run rateLimit rl' rest).
Qed.

(** *** Quota *)

Lemma burst_in_open_window c clientId t1 :
  enabled c = true →
  ∀ times rl r,
    rl !! clientId = Some {| requests := r; windowStart := t1 |} →
    Forall (λ t, t - t1 <= windowMs c) times →
    snd (run (Some c) rl (map (Request clientId) times))
    = map (pair clientId)
        (replicate
           (Z.to_nat (Z.min (Z.of_nat (length times)) (Z.max 0 (maxRequests c - r))))
           true
         ++ replicate
              (length times
               - Z.to_nat (Z.min (Z.of_nat (length times)) (Z.max 0 (maxRequests c - r))))
              false).
Proof.
  intros Hen. induction times as [|t times IH]; intros rl r Hrl Hin.
  { cbn [length].
    replace (Z.to_nat (Z.min (Z.of_nat 0) (Z.max 0 (maxRequests c - r)))) with 0%nat by lia.
    done. }
  apply Forall_cons in Hin as [Ht Hin].
  cbn [map]. rewrite run_request. cbn [snd].
  unfold checkRateLimit at 1 2. rewrite Hen, Hrl. cbn [negb windowStart requests].
  destruct (Z.ltb_spec (windowMs c) (t - t1)); [lia|].
  destruct (Z.leb_spec (maxRequests c) r).
  - cbn [fst snd]. rewrite (IH rl r Hrl Hin).
    replace (Z.to_nat (Z.min (Z.of_nat (length times)) (Z.max 0 (maxRequests c - r))))
      with 0%nat by lia.
    replace (Z.to_nat (Z.min (Z.of_nat (length (t :: times)))
                         (Z.max 0 (maxRequests c - r)))) with 0%nat by lia.
    simpl. by rewrite Nat.sub_0_r.
  - cbn [fst snd]. rewrite (IH _ (r + 1)); [|by rewrite lookup_insert_eq|done].
    replace (Z.to_nat (Z.min (Z.of_nat (length (t :: times)))
                         (Z.max 0 (maxRequests c - r))))
      with (S (Z.to_nat (Z.min (Z.of_nat (length times))
                           (Z.max 0 (maxRequests c - (r + 1))))))
      by (simpl length; lia).
    done.
Qed.

(** X18.  The quota of a window: when a client without an entry sends a
    burst of [n] requests, all inside the window its first request opens,
    the first [min(n, max(1, maxRequests))] are allowed and every later one
    is denied. *)
Theorem burst_is_cut_at_maxRequests
    (c : RateLimitConf) (rl : gmap string ClientData) (clientId : string)
    (t1 : Z) (times : list Z) :
  enabled c = true →
  rl !! clientId = None →
  Forall (λ t, t - t1 <= windowMs c) times →
  let n := S (length times) in
  let quota := Z.to_nat (Z.min (Z.of_nat n) (Z.max 1 (maxRequests c))) in
  snd (run (Some c) rl (map (Request clientId) (t1 :: times)))
  = map (pair clientId) (replicate quota true ++ replicate (n - quota) false).
Proof.
  intros Hen Hnone Hin n quota.
  cbn [map]. rewrite run_request. cbn [snd].
  unfold checkRateLimit at 1 2. rewrite Hen, Hnone. cbn [negb fst snd].
  rewrite (burst_in_open_window c clientId t1 Hen times _ 1);
    [|by rewrite lookup_insert_eq|done].
  assert (quota = S (Z.to_nat (Z.min (Z.of_nat (length times))
                                 (Z.max 0 (maxRequests c - 1))))) as -> by (unfold quota, n; lia).
  done.
Qed.

Lemma burst_is_cut_at_maxRequests_witness :
  snd (run (Some sample_conf) ∅ (map (Request "10.1.1.1") [0; 100; 200; 300]))
  = map (pair "10.1.1.1") (replicate 2 true ++ replicate 2 false).
Proof.
  apply (burst_is_cut_at_maxRequests sample_conf ∅ "10.1.1.1" 0 [100; 200; 300]).
  - reflexivity.
  - reflexivity.
  - repeat constructor; unfold windowMs; simpl; lia.
Defined.

(** *** Cleanup *)

Lemma same_up_to_pruning_later window clock clock' pruned full :
  clock <= clock' →
  same_up_to_pruning window clock pruned full →
  same_up_to_pruning window clock' pruned full.
Proof.
  intros Hle Hsame k. destruct (Hsame k) as [?|(Hnone & d & Hd & Hlate)]; [by left|].
  right. split; [done|]. exists d. split; [done|lia].
Qed.

Lemma check_same_up_to_pruning c clock now clientId pruned full :
  clock <= now →
  same_up_to_pruning (windowMs c) clock pruned full →
  fst (checkRateLimit (Some c) pruned clientId now)
  = fst (checkRateLimit (Some c) full clientId now)
  ∧ same_up_to_pruning (windowMs c) now
      (snd (checkRateLimit (Some c) pruned clientId now))
      (snd (checkRateLimit (Some c) full clientId now)).
Proof.
  intros Hle Hsame.
  pose proof (same_up_to_pruning_later _ _ _ _ _ Hle Hsame) as Hlater.
  unfold checkRateLimit. destruct (enabled c); simpl; [|done].
  assert (∀ v, same_up_to_pruning (windowMs c) now
                 (<[clientId := v]> pruned) (<[clientId := v]> full)) as Hins.
  { intros v k. destruct (decide (clientId = k)) as [->|Hne].
    - left. by rewrite !lookup_insert_eq.
    - rewrite !lookup_insert_ne by done. apply Hlater. }
  destruct (Hsame clientId) as [Heq|(Hnone & d & Hd & Hlate)].
  - rewrite Heq. destruct (full !! clientId) as [d|]; [|split; [done|apply Hins]].
    destruct (_ <? _); [split; [done|apply Hins]|].
    destruct (_ <=? _); (split; [done|]); [exact Hlater|apply Hins].
  - rewrite Hnone, Hd.
    destruct (Z.ltb_spec (windowMs c) (now - windowStart d)); [|lia].
    split; [done|apply Hins].
Qed.

Lemma cleanup_same_up_to_pruning c clock now pruned full :
  0 <= windowMs c → clock <= now →
  same_up_to_pruning (windowMs c) clock pruned full →
  same_up_to_pruning (windowMs c) now (rateLimitCleanup (Some c) pruned now) full.
Proof.
  intros Hw Hle Hsame k. unfold rateLimitCleanup. simpl. fold (windowMs c).
  destruct (Hsame k) as [Heq|(Hnone & d & Hd & Hlate)].
  - destruct (pruned !! k) as [d|] eqn:Hk.
    + destruct (decide (windowMs c * 2 < now - windowStart d)) as [Hold|Hyoung].
      * right. split.
        { apply map_lookup_filter_None. right. intros d' Hd'. simpl.
          assert (d' = d) as -> by congruence. tauto. }
        exists d. split; [done|lia].
      * left. rewrite <- Heq. by apply map_lookup_filter_Some.
    + left. rewrite <- Heq. apply map_lookup_filter_None. by left.
  - right. split; [apply map_lookup_filter_None; by left|].
    exists d. split; [done|lia].
Qed.

Lemma run_same_up_to_pruning c :
  0 <= windowMs c →
  ∀ evs clock finish pruned full,
    same_up_to_pruning (windowMs c) clock pruned full →
    chronological clock evs finish →
    snd (run (Some c) pruned evs) = snd (run (Some c) full (without_cleanup evs)).
Proof.
  intros Hw. induction evs as [|[clientId now|now] evs IH];
    intros clock finish pruned full Hsame Hchron; [done| |];
    destruct Hchron as [Hclock Hchron]; cbn [ev_time] in Hclock, Hchron.
  - cbn [without_cleanup]. rewrite !run_request. cbn [snd].
    destruct (check_same_up_to_pruning c clock now clientId pruned full Hclock Hsame)
      as [Hdecision Hnext].
    rewrite Hdecision. f_equal. by eapply IH.
  - cbn [without_cleanup run]. eapply IH; [|done].
    by apply (cleanup_same_up_to_pruning c clock).
Qed.

(** X19.  Cleanup is invisible: on a clock that does not run backwards and
    for [windowMs ≥ 0], the decisions of the limiter over any sequence of
    requests and cleanup ticks are the decisions it takes over the same
    requests without the ticks. *)
Theorem cleanup_changes_no_decision
    (c : RateLimitConf) (rl : gmap string ClientData) (start finish : Z)
    (evs : list event) :
  0 <= windowMs c →
  chronological start evs finish →
  snd (run (Some c) rl evs) = snd (run (Some c) rl (without_cleanup evs)).
Proof.
  intros Hw Hchron. apply (run_same_up_to_pruning c Hw evs start finish); [|done].
  intros k. by left.
Qed.

Lemma cleanup_changes_no_decision_witness :
  snd (run (Some sample_conf) sample_limiter sample_traffic)
  = snd (run (Some sample_conf) sample_limiter (without_cleanup sample_traffic)).
Proof.
  apply (cleanup_changes_no_decision sample_conf sample_limiter 200 1100 sample_traffic).
  - unfold windowMs; simpl; lia.
  - simpl; lia.
Defined.

End GatewayFacts.

Module AuthFacts.
Import AuthManager.
Local Open Scope Z_scope.

Lemma substring_whole s : String.substring 0 (String.length s) s = s.
Proof. induction s as [|c s IH]; simpl; [done|]. by rewrite IH. Qed.

Lemma cut_first_bearer k : cut_first "Bearer " ("Bearer " +:+ k) = k.
Proof.
  change ("Bearer " +:+ k) with (String.append "Bearer " k).
  cbv [String.append]. simpl.
  assert (String.prefix EmptyString k = true) as -> by (by destruct k).
  rewrite Nat.sub_0_r. apply substring_whole.
Qed.

(** X20.  With authentication enabled, [authenticate] accepts a request
    exactly when the key it presents is in the key store; the key is read
    from [X-Api-Key], or from [Authorization] with its [Bearer ] prefix cut,
    and both ways of presenting a key are treated alike.  On success
    [req.user] carries that key's name and permissions, [lastUsed] of that key
    is stamped and no other key is touched; on failure nothing changes. *)
Theorem authenticate_accepts_exactly_known_keys (a : t) (h : Headers) (now : Z) :
  authEnabled a = true →
  let '(a', accepted, user) := authenticate a h now in
  (accepted = true ↔ ∃ k, presented_key h = Some k ∧ is_Some (apiKeys a !! k))
  ∧ (accepted = false → a' = a ∧ user = None)
  ∧ (∀ k info, presented_key h = Some k → apiKeys a !! k = Some info →
       user = Some {| user_apiKey := k; user_name := name info;
                      user_permissions := permissions info |}
       ∧ (lastUsed <$> apiKeys a' !! k) = Some (Some now)
       ∧ ∀ other, other ≠ k → apiKeys a' !! other = apiKeys a !! other)
  ∧ (∀ k, presented_key (with_bearer k) = presented_key (with_x_api_key k)).
Proof.
  intros Hen. unfold authenticate. rewrite Hen. simpl.
  assert (∀ k, presented_key (with_bearer k) = presented_key (with_x_api_key k)) as Hbearer.
  { intros k.
    change (presented_key (with_bearer k))
      with (nonempty_string (Some (cut_first "Bearer " ("Bearer " +:+ k)))).
    rewrite cut_first_bearer. unfold presented_key, with_x_api_key.
    cbn [x_api_key authorization]. by destruct (nonempty_string (Some k)). }
  destruct (presented_key h) as [k|] eqn:Hkey.
  - destruct (apiKeys a !! k) as [info|] eqn:Hinfo.
    + split; [split; [intros _; exists k; by split|done]|].
      split; [done|]. split; [|done].
      intros k' info' [= <-] Hinfo'. assert (info' = info) as -> by congruence.
      simpl. rewrite lookup_insert_eq. split; [done|]. split; [done|].
      intros other Hne. by rewrite lookup_insert_ne.
    + split; [split; [done|]|].
      { intros (k' & [= <-] & [? ?]). congruence. }
      split; [done|]. split; [|done]. intros k' info' [= <-] ?. congruence.
  - split; [split; [done|by intros (k' & ? & _)]|].
    split; [done|]. split; [|done]. by intros k' info' ?.
Qed.

Lemma authenticate_accepts_exactly_known_keys_witness :
  let '(a', accepted, user) := authenticate started (with_bearer "admin-key-456") 5 in
  (accepted = true
   ↔ ∃ k, presented_key (with_bearer "admin-key-456") = Some k
          ∧ is_Some (apiKeys started !! k))
  ∧ (accepted = false → a' = started ∧ user = None)
  ∧ (∀ k info, presented_key (with_bearer "admin-key-456") = Some k →
       apiKeys started !! k = Some info →
       user = Some {| user_apiKey := k; user_name := name info;
                      user_permissions := permissions info |}
       ∧ (lastUsed <$> apiKeys a' !! k) = Some (Some 5)
       ∧ ∀ other, other ≠ k → apiKeys a' !! other = apiKeys started !! other)
  ∧ (∀ k, presented_key (with_bearer k) = presented_key (with_x_api_key k)).
Proof.
  apply (authenticate_accepts_exactly_known_keys started (with_bearer "admin-key-456") 5).
  reflexivity.
Defined.

(** X21.  The life of a key: with authentication enabled, a key that has
    just been created is accepted, and a key that has just been revoked is
    rejected; [revokeApiKey] answers whether the key existed. *)
Theorem created_key_is_accepted_revoked_key_is_rejected
    (a : t) (h : Headers) (k : string) (now : Z) :
  authEnabled a = true →
  presented_key h = Some k →
  (∀ keyName perms created,
     (authenticate (createApiKey a k keyName perms created) h now).1.2 = true)
  ∧ (authenticate (fst (revokeApiKey a k)) h now).1.2 = false
  ∧ (snd (revokeApiKey a k) = true ↔ is_Some (apiKeys a !! k)).
Proof.
  intros Hen Hkey. split; [|split].
  - intros keyName perms created. unfold authenticate, createApiKey. simpl.
    rewrite Hen, Hkey. simpl. by rewrite lookup_insert_eq.
  - unfold revokeApiKey. destruct (apiKeys a !! k) as [info|] eqn:Hinfo;
      unfold authenticate; simpl; rewrite Hen, Hkey; simpl.
    + by rewrite lookup_delete_eq.
    + by rewrite Hinfo.
  - unfold revokeApiKey. destruct (apiKeys a !! k) as [info|]; simpl.
    + split; [by eexists|done].
    + split; [done|]. by intros [? ?].
Qed.

Lemma created_key_is_accepted_revoked_key_is_rejected_witness :
  (∀ keyName perms created,
     (authenticate (createApiKey started "k-1" keyName perms created)
        (with_x_api_key "k-1") 9).1.2 = true)
  ∧ (authenticate (fst (revokeApiKey started "k-1")) (with_x_api_key "k-1") 9).1.2 = false
  ∧ (snd (revokeApiKey started "k-1") = true ↔ is_Some (apiKeys started !! "k-1")).
Proof.
  apply (created_key_is_accepted_revoked_key_is_rejected started (with_x_api_key "k-1")
           "k-1" 9).
  - reflexivity.
  - reflexivity.
Defined.

End AuthFacts.

Module ModelManagerFacts.
Import ModelStore.
Local Open Scope Z_scope.

(** *** The type index *)








Lemma getMetadata_version_Some r modelId version metadata :
  getMetadata_version r modelId version = Some metadata →
  metadataStore r !! modelId = Some metadata.
Proof.
  unfold getMetadata_version. destruct (metadataStore r !! modelId) as [md|]; [|done].
  destruct (nonempty version) as [v|]; [|done].
  destruct (String.eqb _ _); [done|].
  destruct (versionIndex r !! modelId) as [versions|]; [|done].
  by destruct (bool_decide _).
Qed.

Lemma hasModel_true r modelId :
  hasModel r modelId = true ↔ is_Some (metadataStore r !! modelId).
Proof.
  unfold hasModel. split; [apply bool_decide_eq_true_1|apply bool_decide_eq_true_2].
Qed.

Lemma hasModel_false r modelId :
  hasModel r modelId = false ↔ metadataStore r !! modelId = None.
Proof.
  unfold hasModel. rewrite bool_decide_eq_false, eq_None_not_Some. done.
Qed.

Section ManagerFacts.
Variable sha256_hex : bytes → string.
Variable path_join : string → string → string.

Lemma modelStorage_serve m c :
  modelStorage (serve sha256_hex path_join m c) = modelStorage m.
Proof.
  destruct c as [modelId modelData metadata now|modelId version|modelId version
                |modelId updates now|modelId]; simpl.
  - unfold manager_storeModel. destruct modelData; [|done].
    destruct (metadata ≫= _); [|done]. destruct (hasModel _ _); [done|].
    unfold storeModel. by destruct (too_large _ _).
  - unfold manager_getModel. destruct (getMetadata_version _ _ _); [|done].
    unfold getModel, readFile. by destruct (files _ !! _).
  - unfold manager_deleteModel. destruct (getMetadata_version _ _ _); [|done].
    unfold deleteModel, unlink. by destruct (files _ !! _).
  - unfold manager_updateModelMetadata. by destruct (updateMetadata _ _ _ _).
  - unfold validateModel. destruct (getMetadata _ _); [|done].
    unfold getModel, readFile. by destruct (files _ !! _).
Qed.

Lemma modelStorage_serve_all calls m :
  modelStorage (serve_all sha256_hex path_join m calls) = modelStorage m.
Proof.
  revert m. induction calls as [|c calls IH]; intros m; [done|].
  unfold serve_all in *. simpl. by rewrite IH, modelStorage_serve.
Qed.

(** *** Indexes *)



(** *** Blobs *)

Lemma no_collisions_spec st ids id1 id2 :
  no_collisions sha256_hex path_join st ids →
  id1 ∈ ids → id2 ∈ ids →
  storage_file sha256_hex path_join st id1 = storage_file sha256_hex path_join st id2 →
  id1 = id2.
Proof.
  intros Hno H1 H2. unfold no_collisions in Hno. rewrite Forall_forall in Hno.
  specialize (Hno id1 H1). rewrite Forall_forall in Hno. by apply Hno.
Qed.

Lemma stored_ids_cons c calls :
  stored_ids (c :: calls) = stored_ids [c] ++ stored_ids calls.
Proof. by destruct c. Qed.

Lemma serve_blobs_intact ids m c :
  no_collisions sha256_hex path_join (modelStorage m) ids →
  (∀ id, id ∈ stored_ids [c] → id ∈ ids) →
  keeps_blob_fields c →
  blobs_intact sha256_hex path_join m
  ∧ (∀ id md, metadataStore (modelRegistry m) !! id = Some md → id ∈ ids) →
  blobs_intact sha256_hex path_join (serve sha256_hex path_join m c)
  ∧ (∀ id md,
       metadataStore (modelRegistry (serve sha256_hex path_join m c)) !! id = Some md →
       id ∈ ids).
Proof.
  intros Hno Hids Hc [Hintact Hreg].
  destruct c as [modelId modelData metadata now|modelId version|modelId version
                |modelId updates now|modelId]; simpl.
  - unfold manager_storeModel. destruct modelData as [data|]; [|done].
    destruct (metadata ≫= _) as [type|]; [|done].
    destruct (hasModel _ _) eqn:Hhas; [done|]. apply hasModel_false in Hhas.
    unfold storeModel. destruct (too_large _ _); [by split|]. simpl.
    assert (modelId ∈ ids) as Hin by (apply Hids; simpl; by left).
    split.
    + intros id' md' Hl. simpl in Hl. apply lookup_insert_Some in Hl as [[<- <-]|[Hne Hl]].
      * simpl. split; [done|]. exists data. unfold storage_file.
        by rewrite lookup_insert_eq.
      * destruct (Hintact id' md' Hl) as (Hkey & data' & Hfile & Hsum).
        split; [done|]. exists data'. split; [|done]. simpl.
        rewrite lookup_insert_ne; [done|]. intros Heq. apply Hne.
        apply (no_collisions_spec (modelStorage m) ids); eauto.
    + intros id' md' Hl. simpl in Hl. apply lookup_insert_Some in Hl as [[<- _]|[_ Hl]]; eauto.
  - unfold manager_getModel. destruct (getMetadata_version _ _ _); [|done].
    unfold getModel, readFile. by destruct (files _ !! _).
  - unfold manager_deleteModel.
    destruct (getMetadata_version _ _ _) as [metadata|] eqn:Hget; [|done].
    apply getMetadata_version_Some in Hget.
    destruct (Hintact modelId metadata Hget) as (Hkey & data & Hfile & Hsum).
    unfold deleteModel, unlink. rewrite Hkey.
    fold (storage_file sha256_hex path_join (modelStorage m) modelId). rewrite Hfile. simpl.
    unfold deleteMetadata. rewrite Hget. simpl. split.
    + intros id' md' Hl. simpl in Hl. apply lookup_delete_Some in Hl as [Hne Hl].
      destruct (Hintact id' md' Hl) as (Hkey' & data' & Hfile' & Hsum').
      split; [done|]. exists data'. split; [|done]. simpl.
      rewrite lookup_delete_ne; [done|]. intros Heq. apply Hne.
      apply (no_collisions_spec (modelStorage m) ids); eauto.
    + intros id' md' Hl. simpl in Hl. apply lookup_delete_Some in Hl as [_ Hl]. eauto.
  - unfold manager_updateModelMetadata, updateMetadata.
    destruct (metadataStore _ !! modelId) as [existing|] eqn:H0; [|done].
    destruct (Hintact modelId existing H0) as (Hkey & data & Hfile & Hsum).
    assert (default (md_storageKey existing) (updates ≫= up_storageKey)
            = md_storageKey existing
            ∧ default (md_checksum existing) (updates ≫= up_checksum)
              = md_checksum existing) as [Hsame_key Hsame_sum].
    { destruct updates as [u|]; [|done]. simpl in Hc. simpl. by destruct Hc as [-> ->]. }
    assert (∀ index,
      let m' := {| modelStorage := modelStorage m;
                   modelRegistry :=
                     {| metadataStore :=
                          <[modelId :=
                              {| md_modelId := default (md_modelId existing)
                                                 (updates ≫= up_modelId);
                                 md_type := default (md_type existing) (updates ≫= up_type);
                                 md_version := default (md_version existing)
                                                 (updates ≫= up_version);
                                 md_storageKey := default (md_storageKey existing)
                                                    (updates ≫= up_storageKey);
                                 md_checksum := default (md_checksum existing)
                                                  (updates ≫= up_checksum);
                                 md_size := default (md_size existing) (updates ≫= up_size);
                                 md_createdAt := default (md_createdAt existing)
                                                   (updates ≫= up_createdAt);
                                 md_updatedAt := now |}]>
                            (metadataStore (modelRegistry m));
                        versionIndex := versionIndex (modelRegistry m);
                        typeIndex := index |};
                   disk := disk m; modelCache := modelCache m |} in
      blobs_intact sha256_hex path_join m'
      ∧ (∀ id md, metadataStore (modelRegistry m') !! id = Some md → id ∈ ids)) as Hgoal.
    { intros index m'. split.
      - intros id' md' Hl. simpl in Hl.
        apply lookup_insert_Some in Hl as [[<- <-]|[Hne Hl]].
        + simpl. rewrite Hsame_key, Hsame_sum. split; [done|]. by exists data.
        + by apply Hintact.
      - intros id' md' Hl. simpl in Hl.
        apply lookup_insert_Some in Hl as [[<- _]|[_ Hl]]; eauto. }
    destruct updates as [u|]; simpl; apply Hgoal.
  - unfold validateModel. destruct (getMetadata _ _); [|done].
    unfold getModel, readFile. by destruct (files _ !! _).
Qed.

Lemma serve_all_blobs_intact ids calls m :
  no_collisions sha256_hex path_join (modelStorage m) ids →
  (∀ id, id ∈ stored_ids calls → id ∈ ids) →
  Forall keeps_blob_fields calls →
  blobs_intact sha256_hex path_join m
  ∧ (∀ id md, metadataStore (modelRegistry m) !! id = Some md → id ∈ ids) →
  blobs_intact sha256_hex path_join (serve_all sha256_hex path_join m calls).
Proof.
  revert m. induction calls as [|c calls IH]; intros m Hno Hids Hcalls Hm; [by destruct Hm|].
  apply Forall_cons in Hcalls as [Hc Hcalls].
  change (serve_all sha256_hex path_join m (c :: calls))
    with (serve_all sha256_hex path_join (serve sha256_hex path_join m c) calls).
  apply IH; [by rewrite modelStorage_serve| |done|].
  - intros id Hin. apply Hids. rewrite stored_ids_cons, elem_of_app. by right.
  - apply serve_blobs_intact; [done| |done..].
    intros id Hin. apply Hids. rewrite stored_ids_cons, elem_of_app. by left.
Qed.

(** X23.  Whatever calls the model manager has served since it was
    constructed, a model that is registered can be fetched and validates: its
    blob is on disk, [getModel] returns it, its digest is the recorded
    checksum and [validateModel] answers [isValid = true].  This holds when no
    two model ids stored share a file and no metadata update rewrites
    [storageKey] or [checksum]. *)
Theorem registered_models_stay_valid
    (st : ModelStorage) (d : Disk) (calls : list call)
    (modelId : string) (metadata : Metadata) :
  no_collisions sha256_hex path_join st (stored_ids calls) →
  Forall keeps_blob_fields calls →
  let m := serve_all sha256_hex path_join (new_manager st d) calls in
  metadataStore (modelRegistry m) !! modelId = Some metadata →
  ∃ data,
    snd (manager_getModel path_join m modelId None) = Ok (metadata, data)
    ∧ calculateChecksum sha256_hex data = md_checksum metadata
    ∧ snd (validateModel sha256_hex path_join m modelId)
      = Ok {| isValid := true; expectedChecksum := md_checksum metadata;
              actualChecksum := md_checksum metadata |}.
Proof.
  intros Hno Hcalls m Hl.
  assert (blobs_intact sha256_hex path_join m) as Hintact.
  { apply (serve_all_blobs_intact (stored_ids calls)); [done|done|done|].
    split; intros id md Hempty; simpl in Hempty; by rewrite lookup_empty in Hempty. }
  destruct (Hintact modelId metadata Hl) as (Hkey & data & Hfile & Hsum).
  unfold storage_file in Hfile. rewrite <- Hkey in Hfile.
  exists data. split; [|split; [done|]].
  - unfold manager_getModel, getMetadata_version. rewrite Hl. simpl.
    unfold getModel, readFile. by rewrite Hfile.
  - unfold validateModel, getMetadata. rewrite Hl.
    unfold getModel, readFile. rewrite Hfile. simpl.
    by rewrite <- Hsum, String.eqb_refl.
Qed.

(** X24.  The life of a model.  A store of a new model with a payload of
    admissible size and a typed metadata object succeeds; from then on every
    further store under that id is rejected and changes nothing, the blob can
    be fetched, and a delete succeeds, after which the metadata store is as
    it was before the store, the file and the cache entry are gone and the
    model is not found any more. *)
Theorem store_then_delete
    (m : Manager) (modelId : string) (data : bytes) (metadata : MetadataInput)
    (type : string) (now : Z) :
  (inject_Z (Z.of_nat (length data)) <= maxModelSize (modelStorage m))%Q →
  hasModel (modelRegistry m) modelId = false →
  nonempty (in_type metadata) = Some type →
  ∃ m1 reply registered m2,
    manager_storeModel sha256_hex path_join m modelId (Some data) (Some metadata) now
      = (m1, Ok reply)
    ∧ (∀ data' metadata' now',
         ∃ e, manager_storeModel sha256_hex path_join m1 modelId data' metadata' now'
              = (m1, Err e))
    ∧ snd (manager_getModel path_join m1 modelId None) = Ok (registered, data)
    ∧ md_type registered = type
    ∧ md_checksum registered = rep_checksum reply
    ∧ manager_deleteModel path_join m1 modelId None = (m2, Ok ())
    ∧ metadataStore (modelRegistry m2) = metadataStore (modelRegistry m)
    ∧ files (disk m2)
      = delete (storage_file sha256_hex path_join (modelStorage m) modelId) (files (disk m))
    ∧ modelCache m2 = delete modelId (modelCache m)
    ∧ snd (manager_getModel path_join m2 modelId None) = Err ERR_MODEL_NOT_FOUND
    ∧ snd (validateModel sha256_hex path_join m2 modelId) = Err ERR_MODEL_NOT_FOUND.
Proof.
  intros Hsize Hnew Htype. apply ModelStoreFacts.too_large_false in Hsize.
  pose proof Hnew as Hnone. apply hasModel_false in Hnone.
  unfold manager_storeModel. simpl. rewrite Htype, Hnew.
  unfold storeModel. rewrite Hsize. simpl.
  do 4 eexists. split; [done|]. split; [|split; [|split; [|split; [|split]]]].
  - intros data' metadata' now'. unfold manager_storeModel.
    destruct data' as [data'|]; [|by eexists].
    destruct (metadata' ≫= _); [|by eexists].
    unfold hasModel. simpl. rewrite lookup_insert_eq. simpl. by eexists.
  - unfold manager_getModel, getMetadata_version. simpl. rewrite lookup_insert_eq. simpl.
    unfold getModel, readFile. simpl. by rewrite lookup_insert_eq.
  - done.
  - done.
  - unfold manager_deleteModel, getMetadata_version. simpl. rewrite lookup_insert_eq. simpl.
    unfold deleteModel, unlink. simpl. rewrite lookup_insert_eq. simpl.
    unfold deleteMetadata. simpl. rewrite lookup_insert_eq. simpl. done.
  - simpl. rewrite delete_insert_id by done. split; [done|].
    unfold storage_file. rewrite !delete_insert_eq. split; [done|]. split; [done|].
    unfold manager_getModel, getMetadata_version, validateModel, getMetadata. simpl.
    by rewrite Hnone.
Qed.

End ManagerFacts.

Lemma stored_model_validates_witness :
  ∃ m1 reply v,
    manager_storeModel toy_digest toy_join sample_manager "alpha" (Some sample_blob)
      (Some onnx) 1 = (m1, Ok reply)
    ∧ rep_checksum reply = calculateChecksum toy_digest sample_blob
    ∧ snd (validateModel toy_digest toy_join m1 "alpha") = Ok v
    ∧ isValid v = true
    ∧ expectedChecksum v = rep_checksum reply.
Proof.
  apply (ModelStoreFacts.stored_model_validates toy_digest toy_join sample_manager "alpha"
           sample_blob onnx "onnx" 1).
  - vm_compute. discriminate.
  - reflexivity.
  - reflexivity.
Defined.


Lemma registered_models_stay_valid_witness :
  ∃ data,
    snd (manager_getModel toy_join
           (serve_all toy_digest toy_join (new_manager sample_storage empty_disk)
              sample_calls) "alpha" None) = Ok (alpha_retyped, data)
    ∧ calculateChecksum toy_digest data = md_checksum alpha_retyped
    ∧ snd (validateModel toy_digest toy_join
             (serve_all toy_digest toy_join (new_manager sample_storage empty_disk)
                sample_calls) "alpha")
      = Ok {| isValid := true; expectedChecksum := md_checksum alpha_retyped;
              actualChecksum := md_checksum alpha_retyped |}.
Proof.
  apply (registered_models_stay_valid toy_digest toy_join sample_storage empty_disk
           sample_calls "alpha" alpha_retyped).
  - vm_compute. repeat constructor; congruence.
  - unfold sample_calls. repeat constructor.
  - vm_compute. reflexivity.
Defined.

Lemma store_then_delete_witness :
  ∃ m1 reply registered m2,
    manager_storeModel toy_digest toy_join sample_manager "alpha" (Some sample_blob)
      (Some onnx) 1 = (m1, Ok reply)
    ∧ (∀ data' metadata' now',
         ∃ e, manager_storeModel toy_digest toy_join m1 "alpha" data' metadata' now'
              = (m1, Err e))
    ∧ snd (manager_getModel toy_join m1 "alpha" None) = Ok (registered, sample_blob)
    ∧ md_type registered = "onnx"
    ∧ md_checksum registered = rep_checksum reply
    ∧ manager_deleteModel toy_join m1 "alpha" None = (m2, Ok ())
    ∧ metadataStore (modelRegistry m2) = metadataStore (modelRegistry sample_manager)
    ∧ files (disk m2)
      = delete (storage_file toy_digest toy_join (modelStorage sample_manager) "alpha")
          (files (disk sample_manager))
    ∧ modelCache m2 = delete "alpha" (modelCache sample_manager)
    ∧ snd (manager_getModel toy_join m2 "alpha" None) = Err ERR_MODEL_NOT_FOUND
    ∧ snd (validateModel toy_digest toy_join m2 "alpha") = Err ERR_MODEL_NOT_FOUND.
Proof.
  apply (store_then_delete toy_digest toy_join sample_manager "alpha" sample_blob onnx
           "onnx" 1).
  - vm_compute. discriminate.
  - reflexivity.
  - reflexivity.
Defined.

End ModelManagerFacts.

Module EngineFacts.
Import InferenceEngine.

Lemma map_set_fresh {A} (k : string) (v : A) (m : list (string * A)) :
  k ∉ map fst m → map_set k v m = m ++ [(k, v)].
Proof.
  induction m as [|[k' v'] m IH]; intros Hfresh; [done|]. simpl in *.
  apply not_elem_of_cons in Hfresh as [Hne Hfresh].
  destruct (String.eqb_spec k' k) as [->|_]; [done|]. by rewrite IH.
Qed.

Lemma runInferences_history calls :
  ∀ history,
    NoDup (map fst history ++ map c_inferenceId calls) →
    fst (runInferences history calls)
    = history ++ map (λ c, (c_inferenceId c, history_entry c (attempt c))) calls.
Proof.
  induction calls as [|c calls IH]; intros history Hnodup; simpl.
  - by rewrite app_nil_r.
  - apply NoDup_app in Hnodup as (Hhistory & Hfresh & Hcalls).
    apply NoDup_cons in Hcalls as [Hc Hcalls].
    assert (c_inferenceId c ∉ map fst history) as Hnew.
    { intros Hin. apply (Hfresh _ Hin). by left. }
    rewrite map_set_fresh by done.
    specialize (IH (history ++ [(c_inferenceId c, history_entry c (attempt c))])).
    destruct (runInferences _ calls) as [final replies]. simpl in *.
    rewrite IH; [by rewrite <- app_assoc|].
    rewrite map_app. simpl. rewrite <- app_assoc. simpl.
    apply NoDup_app. split; [done|]. split; [|by apply NoDup_cons].
    intros k Hk. by apply Hfresh.
Qed.

Lemma runInferences_replies calls :
  ∀ history,
    snd (runInferences history calls) = map (λ c, snd (runInference [] c)) calls.
Proof.
  induction calls as [|c calls IH]; intros history; simpl; [done|].
  specialize (IH (map_set (c_inferenceId c) (history_entry c (attempt c)) history)).
  destruct (runInferences _ calls) as [final replies]. simpl in *. by rewrite IH.
Qed.

Lemma count_by_outcome (b : bool) calls :
  length (filter (λ h, h_success h = b)
            (map snd (map (λ c, (c_inferenceId c, history_entry c (attempt c))) calls)))
  = length (filter (λ r, resolved r = b) (map (λ c, snd (runInference [] c)) calls)).
Proof.
  induction calls as [|c calls IH]; [done|]. simpl. rewrite !filter_cons.
  destruct (attempt c) as [e|processed]; simpl;
    destruct (decide (_ = b)); simpl; by rewrite IH.
Qed.

Lemma sum_by_outcome calls :
  ∀ sum,
    fold_left (λ sum h, (sum + h_processingTime h)%Z)
      (filter (λ h, h_success h = true)
         (map snd (map (λ c, (c_inferenceId c, history_entry c (attempt c))) calls))) sum
    = fold_left (λ sum r, (sum + time_taken r)%Z)
        (map (λ c, snd (runInference [] c)) calls) sum.
Proof.
  induction calls as [|c calls IH]; intros sum; [done|]. simpl. rewrite filter_cons.
  destruct (attempt c) as [e|processed]; simpl.
  - rewrite Z.add_0_r. apply IH.
  - apply IH.
Qed.

Lemma ratio_bounds (a : Z) (b : nat) :
  (0 <= a <= Z.of_nat b)%Z → (0 < b)%nat → (0 <= ratio a b <= 1)%Q.
Proof.
  intros [Ha Hab] Hb. unfold ratio.
  assert (0 < inject_Z (Z.of_nat b))%Q as Hpos.
  { change 0%Q with (inject_Z 0). rewrite <- Zlt_Qlt. lia. }
  split.
  - apply Qle_shift_div_l; [done|]. rewrite Qmult_0_l.
    change 0%Q with (inject_Z 0). rewrite <- Zle_Qle. done.
  - apply Qle_shift_div_r; [done|]. rewrite Qmult_1_l. by rewrite <- Zle_Qle.
Qed.

(** X26.  The statistics of the engine count its calls: after any number
    of [runInference] calls with pairwise different inference ids, the
    history holds one entry per call, in the order in which the calls
    settled; [totalInferences] is the number of calls,
    [successfulInferences] the number of calls that resolved,
    [failedInferences] the number that threw; [successRate] lies between 0
    and 1; and [averageProcessingTime] times the number of resolved calls is
    the sum of the processing times these calls reported. *)
Theorem getStatistics_counts_calls (calls : list Call) :
  NoDup (map c_inferenceId calls) →
  let history := fst (runInferences [] calls) in
  let replies := snd (runInferences [] calls) in
  let stats := getStatistics history in
  map fst history = map c_inferenceId calls
  ∧ totalInferences stats = length calls
  ∧ successfulInferences stats = length (filter (λ r, resolved r = true) replies)
  ∧ failedInferences stats = length (filter (λ r, resolved r = false) replies)
  ∧ (successfulInferences stats + failedInferences stats)%nat = totalInferences stats
  ∧ (0 <= successRate stats <= 1)%Q
  ∧ (averageProcessingTime stats * inject_Z (Z.of_nat (successfulInferences stats))
     == inject_Z (fold_left (λ sum r, (sum + time_taken r)%Z) replies 0%Z))%Q.
Proof.
  intros Hnodup history replies stats.
  assert (history = map (λ c, (c_inferenceId c, history_entry c (attempt c))) calls)
    as Hhistory by (unfold history; by rewrite runInferences_history).
  assert (replies = map (λ c, snd (runInference [] c)) calls)
    as Hreplies by apply runInferences_replies.
  assert (successfulInferences stats = length (filter (λ r, resolved r = true) replies))
    as Hsucc.
  { unfold stats, getStatistics. simpl. rewrite Hhistory, Hreplies. apply count_by_outcome. }
  assert (failedInferences stats = length (filter (λ r, resolved r = false) replies))
    as Hfail.
  { unfold stats, getStatistics. simpl. rewrite Hhistory, Hreplies. apply count_by_outcome. }
  assert (totalInferences stats = length calls) as Htotal.
  { unfold stats, getStatistics. simpl. rewrite Hhistory. by rewrite !length_map. }
  split; [|split; [done|split; [done|split; [done|split; [|split]]]]].
  - rewrite Hhistory, map_map. done.
  - rewrite Hsucc, Hfail, Htotal, Hreplies.
    rewrite <- (length_map (λ c, snd (runInference [] c)) calls).
    generalize (map (λ c, snd (runInference [] c)) calls). intros rs.
    induction rs as [|r rs IH]; [done|]. rewrite !filter_cons.
    destruct r; simpl; lia.
  - unfold stats, getStatistics. simpl.
    destruct (Nat.ltb_spec 0 (length (map snd history))) as [Hpos|Hzero].
    + apply ratio_bounds; [|done]. split; [lia|].
      apply inj_le, length_filter.
    + done.
  - unfold stats, getStatistics. simpl.
    rewrite Hreplies, <- sum_by_outcome, <- Hhistory.
    set (successful := filter (λ h, h_success h = true) (map snd history)).
    destruct (Nat.ltb_spec 0 (length successful)) as [Hpos|Hzero].
    + unfold ratio. field. change 0%Q with (inject_Z 0).
      rewrite inject_Z_injective. lia.
    + destruct successful; [|simpl in Hzero; lia]. simpl. apply Qmult_0_l.
Qed.

Lemma getStatistics_counts_calls_witness :
  let history := fst (runInferences [] sample_calls) in
  let replies := snd (runInferences [] sample_calls) in
  let stats := getStatistics history in
  map fst history = map c_inferenceId sample_calls
  ∧ totalInferences stats = length sample_calls
  ∧ successfulInferences stats = length (filter (λ r, resolved r = true) replies)
  ∧ failedInferences stats = length (filter (λ r, resolved r = false) replies)
  ∧ (successfulInferences stats + failedInferences stats)%nat = totalInferences stats
  ∧ (0 <= successRate stats <= 1)%Q
  ∧ (averageProcessingTime stats * inject_Z (Z.of_nat (successfulInferences stats))
     == inject_Z (fold_left (λ sum r, (sum + time_taken r)%Z) replies 0%Z))%Q.
Proof.
  apply (getStatistics_counts_calls sample_calls).
  refine (bool_decide_unpack (NoDup (map c_inferenceId sample_calls)) _).
  vm_compute. exact I.
Defined.

(** X27.  The ways a call of [runInference] fails: with
    [ERR_INVALID_INPUT] exactly when the input is falsy, whatever the model
    would have answered; with what [model.predict] or the timeout rejected
    with exactly when the input is truthy and the race rejects; with a
    [TypeError] exactly when the model resolves to [undefined] or [null].  It
    resolves in the remaining case, and the entry written to the history
    under the inference id says which of the two happened. *)
Theorem runInference_failure_modes
    (inferenceHistory : list (string * HistoryEntry)) (c : Call) :
  let reply := snd (runInference inferenceHistory c) in
  let history := fst (runInference inferenceHistory c) in
  (reply = inl ERR_INVALID_INPUT ↔ truthy (c_inputData c) = false)
  ∧ (∀ msg, reply = inl (Raised msg)
            ↔ truthy (c_inputData c) = true ∧ c_raced c = Rejected msg)
  ∧ (reply = inl TypeError
     ↔ truthy (c_inputData c) = true
       ∧ ∃ raw, c_raced c = Fulfilled raw ∧ nullish raw = true)
  ∧ (resolved reply = true
     ↔ truthy (c_inputData c) = true
       ∧ ∃ raw, c_raced c = Fulfilled raw ∧ nullish raw = false)
  ∧ ∃ entry,
      (c_inferenceId c, entry) ∈ history
      ∧ h_success entry = resolved reply
      ∧ h_processingTime entry = (c_endTime c - c_startTime c)%Z.
Proof.
  assert (∀ (entry : HistoryEntry) k m, (k, entry) ∈ map_set k entry m) as Hset.
  { intros entry k m. induction m as [|[k' v'] m IH]; simpl; [by left|].
    destruct (String.eqb k' k); [by left|by right]. }
  simpl. unfold attempt, validateInput.
  destruct (truthy (c_inputData c)); simpl.
  - destruct (c_raced c) as [raw|msg].
    + unfold postprocessResult, get.
      destruct raw; simpl; (split; [split; [done|by intros ?]|]);
        (split; [intros msg; split; [done|by intros [_ ?]]|]);
        (split; [split; [try done; by eauto|try done; by intros [_ (raw & [= <-] & ?)]]|]);
        (split; [split; [try done; by eauto|try done; by intros [_ (raw & [= <-] & ?)]]|]);
        eexists; (split; [apply Hset|done]).
    + split; [split; [done|by intros ?]|].
      split; [intros msg'; split; [by intros [= ->]|by intros [_ [= ->]]]|].
      split; [split; [done|by intros [_ (raw & ? & _)]]|].
      split; [split; [done|by intros [_ (raw & ? & _)]]|].
      eexists; (split; [apply Hset|done]).
  - split; [done|]. split; [intros msg; split; [done|by intros [? _]]|].
    split; [split; [done|by intros [? _]]|].
    split; [split; [done|by intros [? _]]|].
    eexists; (split; [apply Hset|done]).
Qed.

End EngineFacts.

Module ModelCacheFacts.
Import ModelManager.

Lemma run_keeps modelId model evs :
  Forall (leaves modelId) evs →
  ∀ modelStorage,
    modelStorage !! modelId = Some model →
    run modelStorage evs !! modelId = Some model.
Proof.
  induction 1 as [|ev evs Hev _ IH]; intros modelStorage Hloaded; [done|].
  unfold run. simpl. apply IH. destruct ev as [other now|other]; simpl.
  - unfold loadModel. destruct (modelStorage !! other) eqn:Hother; [done|]. simpl.
    rewrite lookup_insert_ne; [done|]. intros ->. congruence.
  - unfold unloadModel. destruct (modelStorage !! other); [|done]. simpl.
    simpl in Hev. by rewrite lookup_delete_ne.
Qed.

Lemma run_keyed evs :
  ∀ modelStorage : t,
    map_Forall (λ key model, id model = key) modelStorage →
    map_Forall (λ key model, id model = key) (run modelStorage evs).
Proof.
  induction evs as [|ev evs IH]; intros modelStorage Hkeyed; [done|].
  unfold run. simpl. apply IH. destruct ev as [other now|other]; simpl.
  - unfold loadModel. destruct (modelStorage !! other) eqn:Hother; [done|]. simpl.
    by apply map_Forall_insert_2.
  - unfold unloadModel. destruct (modelStorage !! other); [|done]. simpl.
    by apply map_Forall_delete.
Qed.

(** X28.  The model cache of the worker, in any state it can reach from the
    empty cache.  [loadModel] resolves to a model carrying the requested id.
    Once a model is loaded, later loads of it resolve to the same object
    (with the creation stamp it had) and leave the cache unchanged, whatever
    other models are loaded or unloaded in between; [unloadModel] then
    answers [true], and the next load creates a fresh model. *)
Theorem loadModel_reuses_cached_model
    (before evs : list event) (modelId : string) (first again later : Z) :
  Forall (leaves modelId) evs →
  let loaded := loadModel (run ∅ before) modelId first in
  let busy := run (fst loaded) evs in
  id (snd loaded) = modelId
  ∧ loadModel busy modelId again = (busy, snd loaded)
  ∧ modelId ∈ getLoadedModels busy
  ∧ snd (unloadModel busy modelId) = true
  ∧ (modelId ∉ getLoadedModels (fst (unloadModel busy modelId)))
  ∧ snd (loadModel (fst (unloadModel busy modelId)) modelId later)
    = createMockModel modelId later.
Proof.
  intros Hevs loaded busy.
  assert (fst loaded !! modelId = Some (snd loaded)) as Hloaded.
  { unfold loaded, loadModel. destruct (run ∅ before !! modelId) eqn:Hl; simpl; [done|].
    by rewrite lookup_insert_eq. }
  pose proof (run_keeps modelId (snd loaded) evs Hevs (fst loaded) Hloaded) as Hbusy.
  fold busy in Hbusy. split; [|split; [|split; [|split; [|split]]]].
  - unfold loaded, loadModel. destruct (run ∅ before !! modelId) as [model|] eqn:Hl; [|done].
    simpl. by apply (run_keyed before ∅ (map_Forall_empty _) modelId model).
  - unfold loadModel. by rewrite Hbusy.
  - unfold getLoadedModels. by apply elem_of_dom_2 in Hbusy.
  - unfold unloadModel. by rewrite Hbusy.
  - unfold unloadModel, getLoadedModels. rewrite Hbusy. simpl.
    rewrite dom_delete_L. apply not_elem_of_difference. right. by apply elem_of_singleton.
  - unfold unloadModel. rewrite Hbusy. simpl. unfold loadModel.
    by rewrite lookup_delete_eq.
Qed.

Lemma loadModel_reuses_cached_model_witness :
  let loaded := loadModel (run ∅ [LoadModel "m2" 1]) "m1" 2 in
  let busy := run (fst loaded) [UnloadModel "m2"; LoadModel "m1" 5; LoadModel "m3" 6] in
  id (snd loaded) = "m1"
  ∧ loadModel busy "m1" 7 = (busy, snd loaded)
  ∧ "m1" ∈ getLoadedModels busy
  ∧ snd (unloadModel busy "m1") = true
  ∧ ("m1" ∉ getLoadedModels (fst (unloadModel busy "m1")))
  ∧ snd (loadModel (fst (unloadModel busy "m1")) "m1" 8) = createMockModel "m1" 8.
Proof.
  apply (loadModel_reuses_cached_model [LoadModel "m2" 1]
           [UnloadModel "m2"; LoadModel "m1" 5; LoadModel "m3" 6] "m1" 2 7 8).
  repeat constructor. simpl. discriminate.
Defined.

End ModelCacheFacts.

Module OrchestratorComponentsFacts.
Import Orchestrator.
Local Open Scope Z_scope.



End OrchestratorComponentsFacts.
